(** * quarter-compare: a shallow embedding of the resolution pipeline

    The development follows the Go sources file by file:
    - [types.go] (second part): [FetchFundamentalsJSON],
      [ParseCompanyFundamentals] with its local [findQuarterKey],
      [quarterValueToFloat64], [chooseBestDump], [valueFromMap],
      [formatFloat];
    - [report.go]: [avgFloats], [pctOrNaN] and the per-row statistics of
      [GenerateHTMLReport];
    - [main.go]: the worker body and the gather loop, and the
      semaphore / wait-group / channel protocol as a step relation;
    - in the last part, the other functions of the three files:
      [extractJSONFromBody], [FetchBSEList] and
      [ExtractFundamentalsURLFromPage] after their request,
      [fmtPercentChange], [pctColorClass], [numSortValue], the header,
      the cells and the summary averages of [GenerateHTMLReport], the
      filter of the day of [main], and the run of a worker whose request
      cannot be built.

    Conventions.  A Go [string] or [[]byte] is a Rocq [string] (a sequence
    of 8-bit characters).  A [float64] is a primitive binary64 [float].
    A Go [map[string]interface{}] is the list of its entries in the order
    in which a [range] loop visits them; statements quantify over that
    list, hence over every visiting order.  [log.Printf] calls are not
    part of the embedding: they do not influence any returned value. *)

From Stdlib Require Import Bool List String Ascii ZArith QArith Qabs Qpower Lia Floats.
From Stdlib Require Import Permutation.
Import ListNotations.

#[local] Open Scope string_scope.
#[local] Open Scope list_scope.
#[local] Open Scope Z_scope.

(** ** Go library functions used by the sources *)

Module GoStrings.

Definition code (c : ascii) : Z := Z.of_N (N_of_ascii c).

Definition in_range (lo hi : Z) (c : ascii) : bool :=
  (lo <=? code c) && (code c <=? hi).

Definition is_digit : ascii -> bool := in_range 48 57.
Definition is_upper : ascii -> bool := in_range 65 90.
Definition is_lower : ascii -> bool := in_range 97 122.

(** [lower] of the strconv package: sets the 0x20 bit. On an upper-case
    ASCII letter it yields the lower-case letter. *)
Definition lower (c : ascii) : ascii :=
  ascii_of_N (N.lor (N_of_ascii c) 32).

Definition to_lower_ascii (c : ascii) : ascii :=
  if is_upper c then lower c else c.

Fixpoint map_string (f : ascii -> ascii) (s : string) : string :=
  match s with
  | EmptyString => EmptyString
  | String c s' => String (f c) (map_string f s')
  end.

Fixpoint HasPrefix (s p : string) : bool :=
  match p, s with
  | EmptyString, _ => true
  | String _ _, EmptyString => false
  | String b p', String a s' => Ascii.eqb a b && HasPrefix s' p'
  end.

(** [strings.Contains s sub]: [sub] occurs in [s] as a contiguous run. *)
Fixpoint Contains (s sub : string) : bool :=
  HasPrefix s sub ||
  match s with
  | EmptyString => false
  | String _ s' => Contains s' sub
  end.

Fixpoint rev_acc (s acc : string) : string :=
  match s with
  | EmptyString => acc
  | String c s' => rev_acc s' (String c acc)
  end.

Definition rev (s : string) : string := rev_acc s EmptyString.

Fixpoint mem (c : ascii) (cutset : string) : bool :=
  match cutset with
  | EmptyString => false
  | String d cs => Ascii.eqb c d || mem c cs
  end.

(** [strings.TrimRight] for a cutset of ASCII characters: a character is
    dropped when it is in the cutset and everything after it is
    dropped. *)
Fixpoint TrimRight (s cutset : string) : string :=
  match s with
  | EmptyString => EmptyString
  | String c s' =>
      match TrimRight s' cutset with
      | EmptyString => if mem c cutset then EmptyString else String c EmptyString
      | t => String c t
      end
  end.

(** [strings.ReplaceAll s "," ""]: every occurrence of the byte is
    dropped. *)
Fixpoint remove_byte (c : ascii) (s : string) : string :=
  match s with
  | EmptyString => EmptyString
  | String d s' =>
      if Ascii.eqb c d then remove_byte c s' else String d (remove_byte c s')
  end.

(** White space in the sense of [unicode.IsSpace], recognised on the
    UTF-8 encoding.  The ASCII ones are tab, line feed, vertical tab,
    form feed, carriage return and space; the others are U+0085, U+00A0,
    U+1680, U+2000..U+200A, U+2028, U+2029, U+202F, U+205F and U+3000.
    [space_prefix s] is the number of bytes of the white-space rune at
    the head of [s], or 0. *)
Definition ascii_space (c : ascii) : bool :=
  in_range 9 13 c || (code c =? 32).

Definition space2 (a b : ascii) : bool :=
  (code a =? 194) && ((code b =? 133) || (code b =? 160)).

Definition space3 (a b c : ascii) : bool :=
  ((code a =? 225) && (code b =? 154) && (code c =? 128)) ||
  ((code a =? 226) && (code b =? 128) &&
   (in_range 128 138 c || (code c =? 168) || (code c =? 169) || (code c =? 175))) ||
  ((code a =? 226) && (code b =? 129) && (code c =? 159)) ||
  ((code a =? 227) && (code b =? 128) && (code c =? 128)).

Definition space_prefix (s : string) : nat :=
  match s with
  | EmptyString => 0%nat
  | String a s1 =>
      if ascii_space a then 1%nat
      else
        match s1 with
        | EmptyString => 0%nat
        | String b s2 =>
            if space2 a b then 2%nat
            else
              match s2 with
              | EmptyString => 0%nat
              | String c _ => if space3 a b c then 3%nat else 0%nat
              end
        end
  end.

(** The same rune read backwards: [space_suffix r] looks at the reversed
    string, as [utf8.DecodeLastRune] looks at the end of the slice. *)
Definition space_suffix (r : string) : nat :=
  match r with
  | EmptyString => 0%nat
  | String c r1 =>
      if ascii_space c then 1%nat
      else
        match r1 with
        | EmptyString => 0%nat
        | String b r2 =>
            if space2 b c then 2%nat
            else
              match r2 with
              | EmptyString => 0%nat
              | String a _ => if space3 a b c then 3%nat else 0%nat
              end
        end
  end.

Fixpoint drop (n : nat) (s : string) : string :=
  match n, s with
  | O, _ => s
  | S n', String _ s' => drop n' s'
  | S _, EmptyString => EmptyString
  end.

Fixpoint trim_with (width : string -> nat) (fuel : nat) (s : string) : string :=
  match fuel with
  | O => s
  | S fuel' =>
      match width s with
      | O => s
      | w => trim_with width fuel' (drop w s)
      end
  end.

(** [strings.TrimSpace] and [bytes.TrimSpace]: leading, then trailing
    white space is removed. *)
Definition TrimSpace (s : string) : string :=
  let s1 := trim_with space_prefix (String.length s) s in
  rev (trim_with space_suffix (String.length s1) (rev s1)).

(** [strings.EqualFold s t] for a [t] made of ASCII letters other than
    k and s and of non-letters: no rune outside ASCII folds onto a
    character of [t], so the comparison is equality up to ASCII case. *)
Definition EqualFold (s t : string) : bool :=
  String.eqb (map_string to_lower_ascii s) (map_string to_lower_ascii t).

End GoStrings.

Module Strconv.
Import GoStrings.

Definition digit_char (d : Z) : ascii := ascii_of_N (Z.to_N (48 + d)).

Fixpoint string_of_digits (ds : list Z) : string :=
  match ds with
  | [] => EmptyString
  | d :: ds' => String (digit_char d) (string_of_digits ds')
  end.

Fixpoint digits_acc (fuel : nat) (n : Z) (acc : list Z) : list Z :=
  match fuel with
  | O => acc
  | S fuel' =>
      if n <? 10 then n :: acc
      else digits_acc fuel' (n / 10) (n mod 10 :: acc)
  end.

(** The decimal digits of [n >= 0], most significant first; [0] has the
    one digit 0. *)
Definition digits_of (n : Z) : list Z :=
  digits_acc (S (Z.to_nat (Z.log2 n))) n [].

(** [strconv.Itoa], the [%d] verb of [fmt.Sprintf]. *)
Definition Itoa (n : Z) : string :=
  if n <? 0 then String "-" (string_of_digits (digits_of (- n)))
  else string_of_digits (digits_of n).

(** Division of [a >= 0] by [b > 0] rounded to the nearest integer, ties
    to the even one: the rounding of both [FormatFloat] and
    [ParseFloat]. *)
Definition rne_div (a b : Z) : Z :=
  let q := a / b in
  let r := a mod b in
  if 2 * r <? b then q
  else if b <? 2 * r then q + 1
  else if Z.even q then q else q + 1.

(** [m * 2^e * 100] rounded to an integer: the number of hundredths that
    [FormatFloat(f, 'f', 2, 64)] prints. *)
Definition hundredths (m e : Z) : Z :=
  if 0 <=? e then m * 2 ^ e * 100 else rne_div (m * 100) (2 ^ (- e)).

Definition sign_string (neg : bool) : string := if neg then "-" else "".

Definition fixed2 (neg : bool) (k : Z) : string :=
  sign_string neg ++ string_of_digits (digits_of (k / 100)) ++ "." ++
  string_of_digits [(k mod 100) / 10; k mod 10].

(** [strconv.FormatFloat(f, 'f', 2, 64)]. *)
Definition FormatFloat_f2 (f : float) : string :=
  match Prim2SF f with
  | S754_nan => "NaN"
  | S754_infinity false => "+Inf"
  | S754_infinity true => "-Inf"
  | S754_zero s => fixed2 s 0
  | S754_finite s m e => fixed2 s (hundredths (Zpos m) e)
  end.

(** *** ParseFloat *)

(** The binary64 number nearest to [a / b] (ties to even) for [a >= 0] and
    [b > 0], with the sign [neg]; [None] when the result exceeds the
    largest finite number ([ErrRange]).  Every finite binary64 number is a
    multiple of [2^-1074].  [w] is the integer part of [a / b * 2^1075]:
    it is 0 when [a / b] is below half the least subnormal, and the result
    is a zero; otherwise its binary logarithm gives the binade of [a / b],
    hence the exponent [E] of the 53-bit significand, not below -1074.
    The significand is [a / b / 2^E] rounded to an integer. *)
Definition round_float64 (neg : bool) (a b : Z) : option spec_float :=
  let w := a * 2 ^ 1075 / b in
  if w =? 0 then Some (S754_zero neg)
  else
    let E := Z.max (Z.log2 w - 1075 - 52) (-1074) in
    let n := rne_div (a * 2 ^ 1074) (b * 2 ^ (E + 1074)) in
    let '(n', E') := if n =? 2 ^ 53 then (2 ^ 52, E + 1) else (n, E) in
    if n' =? 0 then Some (S754_zero neg)
    else if 971 <? E' then None
    else Some (S754_finite neg (Z.to_pos n') E').

Fixpoint commonPrefixLenIgnoreCase (s prefix : string) : nat :=
  match s, prefix with
  | String c s', String p prefix' =>
      if Ascii.eqb (to_lower_ascii c) p
      then S (commonPrefixLenIgnoreCase s' prefix')
      else O
  | _, _ => O
  end.

Definition special_inf (neg : bool) (nsign : nat) (s : string) : option (float * nat) :=
  let n := commonPrefixLenIgnoreCase s "infinity" in
  let n := if (3 <? n)%nat && (n <? 8)%nat then 3%nat else n in
  if (n =? 3)%nat || (n =? 8)%nat
  then Some (if neg then neg_infinity else infinity, (nsign + n)%nat)
  else None.

(** [special]: the words inf, infinity (optionally signed) and nan, in
    any case; the second component is the number of bytes consumed. *)
Definition special (s : string) : option (float * nat) :=
  match s with
  | EmptyString => None
  | String c s' =>
      if Ascii.eqb c "+" then special_inf false 1 s'
      else if Ascii.eqb c "-" then special_inf true 1 s'
      else if Ascii.eqb c "i" || Ascii.eqb c "I" then special_inf false 0 s
      else if Ascii.eqb c "n" || Ascii.eqb c "N" then
        if (commonPrefixLenIgnoreCase s "nan" =? 3)%nat then Some (nan, 3%nat) else None
      else None
  end.

Definition hex_letter (c : ascii) : bool := in_range 97 102 (lower c).

(** The digit loop of [readFloat].  [mant] is the integer made of all
    digits read so far and [frac] the number of those read after the
    point; the remaining input is returned. *)
Fixpoint scan_mantissa (hex : bool) (s : string) (mant : Z)
    (sawdot sawdigits : bool) (frac : Z) : Z * bool * Z * string :=
  match s with
  | EmptyString => (mant, sawdigits, frac, s)
  | String c s' =>
      if Ascii.eqb c "_" then scan_mantissa hex s' mant sawdot sawdigits frac
      else if Ascii.eqb c "." then
        if sawdot then (mant, sawdigits, frac, s)
        else scan_mantissa hex s' mant true sawdigits frac
      else if is_digit c then
        scan_mantissa hex s' (mant * (if hex then 16 else 10) + (code c - 48))
          sawdot true (if sawdot then frac + 1 else frac)
      else if hex && hex_letter c then
        scan_mantissa hex s' (mant * 16 + (code (lower c) - 87))
          sawdot true (if sawdot then frac + 1 else frac)
      else (mant, sawdigits, frac, s)
  end.

Fixpoint scan_exp_digits (s : string) (e : Z) : Z * string :=
  match s with
  | EmptyString => (e, s)
  | String c s' =>
      if Ascii.eqb c "_" then scan_exp_digits s' e
      else if is_digit c then
        scan_exp_digits s' (if e <? 10000 then e * 10 + (code c - 48) else e)
      else (e, s)
  end.

(** The exponent after the exponent character: optional sign, then at
    least one digit. *)
Definition scan_exponent (s : string) : option (Z * string) :=
  match s with
  | EmptyString => None
  | String c s' =>
      let '(esign, s1) :=
        if Ascii.eqb c "+" then (1, s')
        else if Ascii.eqb c "-" then (-1, s')
        else (1, s) in
      match s1 with
      | EmptyString => None
      | String d _ =>
          if is_digit d
          then let '(e, rest) := scan_exp_digits s1 0 in Some (esign * e, rest)
          else None
      end
  end.

Inductive saw := SawStart | SawDigit | SawUnderscore | SawOther.

Fixpoint underscore_loop (hex : bool) (s : string) (last : saw) : bool :=
  match s with
  | EmptyString => match last with SawUnderscore => false | _ => true end
  | String c s' =>
      if is_digit c || (hex && hex_letter c) then underscore_loop hex s' SawDigit
      else if Ascii.eqb c "_" then
        match last with
        | SawDigit => underscore_loop hex s' SawUnderscore
        | _ => false
        end
      else
        match last with
        | SawUnderscore => false
        | _ => underscore_loop hex s' SawOther
        end
  end.

(** [underscoreOK]: an underscore stands only between digits, or between
    a base prefix and a digit. *)
Definition underscoreOK (s : string) : bool :=
  let s :=
    match s with
    | String c s' => if Ascii.eqb c "-" || Ascii.eqb c "+" then s' else s
    | EmptyString => s
    end in
  match s with
  | String a (String b s') =>
      if Ascii.eqb a "0" &&
         (Ascii.eqb (lower b) "b" || Ascii.eqb (lower b) "o" || Ascii.eqb (lower b) "x")
      then underscore_loop (Ascii.eqb (lower b) "x") s' SawDigit
      else underscore_loop false s SawStart
  | _ => underscore_loop false s SawStart
  end.

Record number := {
  num_neg : bool;
  num_hex : bool;
  num_mant : Z;      (* all digits, as an integer in the number's base *)
  num_frac : Z;      (* digits after the point *)
  num_exp : Z;       (* the written exponent, 0 if none *)
}.

(** The test [i+2 < len(s) && s[i] == '0' && lower(s[i+1]) == 'x'] of
    [readFloat]: a hexadecimal prefix followed by at least one byte. *)
Definition hex_prefix (s1 : string) : bool * string :=
  match s1 with
  | String a (String b (String c r)) =>
      if Ascii.eqb a "0" && Ascii.eqb (lower b) "x"
      then (true, String c r) else (false, s1)
  | _ => (false, s1)
  end.

(** [readFloat] on a string that must be consumed entirely. *)
Definition readFloat (s : string) : option number :=
  match s with
  | EmptyString => None
  | String c0 s0 =>
      let '(neg, s1) :=
        if Ascii.eqb c0 "+" then (false, s0)
        else if Ascii.eqb c0 "-" then (true, s0)
        else (false, s) in
      let '(hex, s2) := hex_prefix s1 in
      let '(mant, sawdigits, frac, s3) := scan_mantissa hex s2 0 false false 0 in
      if negb sawdigits then None
      else
        let after_exp :=
          match s3 with
          | String c s4 =>
              if Ascii.eqb (lower c) (if hex then "p" else "e")%char
              then match scan_exponent s4 with
                   | Some (e, rest) => Some (e, rest)
                   | None => None
                   end
              else if hex then None else Some (0, s3)
          | EmptyString => if hex then None else Some (0, s3)
          end in
        match after_exp with
        | Some (e, EmptyString) =>
            if underscoreOK s
            then Some {| num_neg := neg; num_hex := hex; num_mant := mant;
                         num_frac := frac; num_exp := e |}
            else None
        | _ => None
        end
  end.

(** The exact value of a number read, as a fraction [a / b]. *)
Definition number_fraction (n : number) : Z * Z :=
  let x :=
    if num_hex n then num_exp n - 4 * num_frac n
    else num_exp n - num_frac n in
  let base := if num_hex n then 2 else 10 in
  if 0 <=? x then (num_mant n * base ^ x, 1) else (num_mant n, base ^ (- x)).

(** [strconv.ParseFloat(s, 64)] when it returns a nil error; [None]
    stands for both [ErrSyntax] and [ErrRange]. *)
Definition ParseFloat (s : string) : option float :=
  match special s with
  | Some (f, n) => if (n =? String.length s)%nat then Some f else None
  | None =>
      match readFloat s with
      | Some n =>
          let '(a, b) := number_fraction n in
          match round_float64 (num_neg n) a b with
          | Some sf => Some (SF2Prim sf)
          | None => None
          end
      | None => None
      end
  end.

End Strconv.

(** ** types.go: data *)

Import GoStrings Strconv.

(** A decoded JSON document, as [encoding/json] stores it in an
    [interface{}]: [nil], [bool], [float64], [string], [[]interface{}] and
    [map[string]interface{}]. *)
#[local] Set Warnings "-register-all".
Inductive JSON :=
| JNull
| JBool (b : bool)
| JNumber (f : float)
| JString (s : string)
| JArray (a : list JSON)
| JObject (m : list (string * JSON)).

Definition object := list (string * JSON).

Fixpoint lookup (m : object) (k : string) : option JSON :=
  match m with
  | [] => None
  | (k', v) :: m' => if String.eqb k k' then Some v else lookup m' k
  end.

Definition keys (m : object) : list string := map fst m.

(** The type assertions [v.(map[string]interface{})] and
    [v.([]interface{})] on the result of a map read. *)
Definition as_object (v : option JSON) : option object :=
  match v with
  | Some (JObject m) => Some m
  | _ => None
  end.

Definition as_array (v : option JSON) : option (list JSON) :=
  match v with
  | Some (JArray a) => Some a
  | _ => None
  end.

(** The field [LongName] of [BSEItem] is written [LongName_]: the name is
    also a field of [CompanyResult]. *)
Record BSEItem := {
  ScripCode : string;
  ShortName : string;
  LongName_ : string;
  MeetingDate : string;
  URL : string;
}.

Record TrendItem := {
  ID : string;
  Label : string;
  Value : string;
  K : Z;
  SlugName : string;
  Country : string;
  DefaultExchange : string;
  BSEcode : string;
  NextURL : string;
}.

Definition QuarterValue := string.

Record CompanyResult := {
  Company : string;
  LongName : string;
  Quarters : list string;
  Revenue : list QuarterValue;
  NetProfit : list QuarterValue;
  RevenueNums : list float;
  NetProfitNums : list float;
}.

(** A Go [(T, error)] pair. *)
Inductive result (A : Type) :=
| Ok (a : A)
| Err (msg : string).
Arguments Ok {A} a.
Arguments Err {A} msg.

Definition not_declared : QuarterValue := "not declared".

(** ** types.go: functions without external calls *)

(** The closure [normalize] of [chooseBestDump] and [findQuarterKey]:
    [strings.ToLower] followed by the deletion of every match of
    [[^a-z0-9]].  Runes outside ASCII lower-case to runes outside ASCII,
    which the pattern deletes, except U+0130 (bytes C4 B0) and U+212A
    (bytes E2 84 AA), whose lower-case forms are [i] and [k]. *)
Fixpoint normalize (s : string) : string :=
  match s with
  | EmptyString => EmptyString
  | String c s' =>
      if is_upper c then String (lower c) (normalize s')
      else if is_lower c || is_digit c then String c (normalize s')
      else
        match s' with
        | String b s'' =>
            if (code c =? 196) && (code b =? 176) then String "i" (normalize s'')
            else
              match s'' with
              | String a s''' =>
                  if (code c =? 226) && (code b =? 132) && (code a =? 170)
                  then String "k" (normalize s''')
                  else normalize s'
              | EmptyString => normalize s'
              end
        | EmptyString => normalize s'
        end
  end.

(** [formatFloat]: two decimals, then trailing zeros, then a trailing
    point are trimmed. *)
Definition formatFloat (f : float) : string :=
  let s := FormatFloat_f2 f in
  let s := TrimRight s "0" in
  TrimRight s ".".

(** [quarterValueToFloat64]: NaN unless the value parses as a number. *)
Definition quarterValueToFloat64 (q : QuarterValue) : float :=
  let s := TrimSpace q in
  if String.eqb s "" || EqualFold s "not declared" then nan
  else
    let s := remove_byte "," s in
    match ParseFloat s with
    | Some f => f
    | None => nan
    end.

(** The test of the inner loop of [chooseBestDump], for a target [t] and
    a normalized key [nmk]. *)
Definition target_matches (nmk t : string) : bool :=
  String.eqb t nmk || Contains nmk t || Contains t nmk.

(** The inner loops of [chooseBestDump]: every key [mk] of [m] adds one to
    the score if some target matches it; the [break] stops at the first
    such target. *)
Definition dump_score (targets : list string) (m : object) : Z :=
  fold_left
    (fun score mk =>
       if existsb (target_matches (normalize mk)) targets then score + 1 else score)
    (keys m) 0.

Record best := {
  bestKey : string;
  bestScore : Z;
  bestMap : option object;
}.

Definition best_init : best :=
  {| bestKey := ""; bestScore := -1; bestMap := None |}.

(** One iteration of [for k, v := range qd]. *)
Definition best_step (targets : list string) (b : best) (kv : string * JSON) : best :=
  match snd kv with
  | JObject m =>
      let score := dump_score targets m in
      if bestScore b <? score
      then {| bestKey := fst kv; bestScore := score; bestMap := Some m |}
      else b
  | _ => b
  end.

Definition chooseBestDump (qd : object) (qOrder : list string) : option object :=
  let targets := map normalize qOrder in
  bestMap (fold_left (best_step targets) qd best_init).

(** The closure [findQuarterKey] of [ParseCompanyFundamentals].  Its two
    [range] loops over the same map may visit the keys in different
    orders; [pass1] and [pass2] are the two visiting orders.  The empty
    string is the closure's "no key". *)
Definition findQuarterKey_passes (pass1 pass2 : list string) (q : string) : string :=
  let nq := normalize q in
  match find (fun k => String.eqb nq (normalize k)) pass1 with
  | Some k => k
  | None =>
      match find (fun k => Contains (normalize k) nq || Contains nq (normalize k)) pass2 with
      | Some k => k
      | None => ""
      end
  end.

Definition findQuarterKey (d : object) (q : string) : string :=
  findQuarterKey_passes (keys d) (keys d) q.

(** [FetchFundamentalsJSON] after the request: [resp] is the outcome of
    [client.Do] and [io.ReadAll]. *)
Definition FetchFundamentalsJSON_body (resp : result string) : result string :=
  match resp with
  | Err e => Err e
  | Ok b =>
      let clean := TrimSpace b in
      if (String.length clean =? 0)%nat then Err "empty fundamentals response"
      else Ok clean
  end.

(** ** report.go *)

#[local] Open Scope float_scope.

Definition pctOrNaN (curr prev : float) : float :=
  if (is_nan curr || is_nan prev)%bool then nan
  else if prev =? 0 then nan
  else (curr - prev) / abs prev * 100.

Definition float64_of_int (n : Z) : float := of_uint63 (Uint63.of_Z n).

Definition avgFloats (vals : list float) : float :=
  let '(sum, count) :=
    fold_left
      (fun '(sum, count) v =>
         if is_nan v then (sum, count) else (sum + v, (count + 1)%Z))
      vals (0, 0%Z) in
  if (count =? 0)%Z then nan else sum / float64_of_int count.

Record statRow := {
  stat_Company : string;
  RevPct : float;
  NPPct : float;
  Avg3RevChange : float;
  Avg3NPChange : float;
  RevenueLatest : float;
  NetProfitLatest : float;
}.

(** The slice expression [l[lo:hi]] for [lo <= hi <= len(l)]. *)
Definition slice (l : list float) (lo hi : nat) : list float :=
  firstn (hi - lo) (skipn lo l).

(** The statistics that the row loop of [GenerateHTMLReport] computes for
    one result and appends to [stats]. *)
Definition row_stats (r : CompanyResult) : statRow :=
  let revs := RevenueNums r in
  let nps := NetProfitNums r in
  let latestRev := if (0 <? List.length revs)%nat then nth 0 revs nan else nan in
  let prevRev := if (1 <? List.length revs)%nat then nth 1 revs nan else nan in
  let latestNP := if (0 <? List.length nps)%nat then nth 0 nps nan else nan in
  let prevNP := if (1 <? List.length nps)%nat then nth 1 nps nan else nan in
  let avg3Rev :=
    if (3 <=? List.length revs)%nat then avgFloats (slice revs 0 (Nat.min 3 (List.length revs))) else nan in
  let avgPrev3Rev :=
    if (4 <=? List.length revs)%nat then avgFloats (slice revs 1 4) else nan in
  let avg3NP :=
    if (3 <=? List.length nps)%nat then avgFloats (slice nps 0 (Nat.min 3 (List.length nps))) else nan in
  let avgPrev3NP :=
    if (4 <=? List.length nps)%nat then avgFloats (slice nps 1 4) else nan in
  {| stat_Company := Company r;
     RevPct := pctOrNaN latestRev prevRev;
     NPPct := pctOrNaN latestNP prevNP;
     Avg3RevChange := pctOrNaN avg3Rev avgPrev3Rev;
     Avg3NPChange := pctOrNaN avg3NP avgPrev3NP;
     RevenueLatest := latestRev;
     NetProfitLatest := latestNP |}.

#[local] Close Scope float_scope.

(** ** types.go and main.go: functions that call external code

    The following are not code of the program and are taken as parameters:
    - [Marshal]: [json.Marshal] applied to a decoded value, as a string;
    - [json_decode]: the decoder of [encoding/json] reading a document into
      an [interface{}]; [None] when it reports an error;
    - [FetchTrendSearch], [ExtractFundamentalsURLFromPage]: the two
      functions of [types.go] that consist of a network call and a
      library decoding of its answer;
    - [http_get]: the request, [client.Do] and [io.ReadAll] of
      [FetchFundamentalsJSON], given the address and the referer. *)

Section External.

Variable Marshal : JSON -> string.
Variable json_decode : string -> option JSON.
Variable FetchTrendSearch : string -> result (list TrendItem).
Variable ExtractFundamentalsURLFromPage : string -> result string.
Variable http_get : string -> string -> result string.

(** [valueFromMap].  The [case int] of the type switch is never taken on
    a decoded document, whose numbers are all [float64]. *)
Fixpoint valueFromMap (m : object) (ks : list string) : QuarterValue :=
  match ks with
  | [] => not_declared
  | k :: ks' =>
      match lookup m k with
      | None => valueFromMap m ks'
      | Some JNull => valueFromMap m ks'
      | Some (JNumber vv) => formatFloat vv
      | Some (JString vv) =>
          match ParseFloat vv with
          | Some f => formatFloat f
          | None => if String.eqb vv "" then valueFromMap m ks' else vv
          end
      | Some vv =>
          let b := Marshal vv in
          if (0 <? String.length b)%nat then b else valueFromMap m ks'
      end
  end.

Definition revenue_keys : list string := ["TOTAL_SR_Q"; "SR_Q"].
Definition netprofit_keys : list string := ["NP_Q"].

(** The body of the quarter loop of [ParseCompanyFundamentals]: the
    revenue and net profit appended for the quarter [q]. *)
Definition read_quarter (dump : option object) (q : string)
  : QuarterValue * QuarterValue :=
  match dump with
  | Some d =>
      match as_object (lookup d q) with
      | Some qmap =>
          (valueFromMap qmap revenue_keys, valueFromMap qmap netprofit_keys)
      | None =>
          let alt := findQuarterKey d q in
          if negb (String.eqb alt "") then
            match as_object (lookup d alt) with
            | Some qmap =>
                (valueFromMap qmap revenue_keys, valueFromMap qmap netprofit_keys)
            | None => (not_declared, not_declared)
            end
          else (not_declared, not_declared)
      end
  | None => (not_declared, not_declared)
  end.

(** [json.Unmarshal(fundJSON, &root)] for [root] a
    [map[string]interface{}]: an error on a syntax error and on a
    document that is not an object; [null] leaves [root] nil. *)
Definition Unmarshal_root (fundJSON : string) : option (option object) :=
  match json_decode fundJSON with
  | Some (JObject m) => Some (Some m)
  | Some JNull => Some None
  | _ => None
  end.

Fixpoint string_items (a : list JSON) : list string :=
  match a with
  | [] => []
  | JString s :: a' => s :: string_items a'
  | _ :: a' => string_items a'
  end.

(** The loop [for len(cr.Quarters) < 4].  Each turn appends one entry, so
    four turns are enough. *)
Fixpoint pad_loop (fuel : nat) (cr : CompanyResult) : CompanyResult :=
  match fuel with
  | O => cr
  | S fuel' =>
      if (List.length (Quarters cr) <? 4)%nat then
        pad_loop fuel'
          {| Company := Company cr; LongName := LongName cr;
             Quarters := Quarters cr ++ [""];
             Revenue := Revenue cr ++ [not_declared];
             NetProfit := NetProfit cr ++ [not_declared];
             RevenueNums := RevenueNums cr;
             NetProfitNums := NetProfitNums cr |}
      else cr
  end.

Definition ParseCompanyFundamentals (shortName fundJSON : string) : CompanyResult :=
  match Unmarshal_root fundJSON with
  | None =>
      {| Company := shortName; LongName := ""; Quarters := []; Revenue := [];
         NetProfit := []; RevenueNums := []; NetProfitNums := [] |}
  | Some root =>
      let body :=
        match root with
        | Some r => as_object (lookup r "body")
        | None => None
        end in
      let qOrder :=
        match body with
        | Some b =>
            match as_array (lookup b "quarterlyOrder") with
            | Some qo => string_items qo
            | None => []
            end
        | None => []
        end in
      let dump :=
        match body with
        | Some b =>
            match lookup b "quarterlyDataDump" with
            | Some (JObject qd) => chooseBestDump qd qOrder
            | _ => None
            end
        | None => None
        end in
      let max := if (List.length qOrder <? 4)%nat then List.length qOrder else 4%nat in
      let qs := firstn max qOrder in
      let entries := map (read_quarter dump) qs in
      let cr :=
        pad_loop 4
          {| Company := shortName; LongName := ""; Quarters := qs;
             Revenue := map fst entries; NetProfit := map snd entries;
             RevenueNums := []; NetProfitNums := [] |} in
      {| Company := Company cr; LongName := LongName cr;
         Quarters := Quarters cr; Revenue := Revenue cr;
         NetProfit := NetProfit cr;
         RevenueNums := map quarterValueToFloat64 (Revenue cr);
         NetProfitNums := map quarterValueToFloat64 (NetProfit cr) |}
  end.

Definition FetchFundamentalsJSON (fundURL referer : string) : result string :=
  FetchFundamentalsJSON_body (http_get fundURL referer).

(** main.go: the body of the goroutine started for [itm]; the value is
    what it sends on [resultsCh] when each of its three requests can be
    built.  [worker_run], in the last part of the file, is the body with
    the requests that [http.NewRequest] refuses. *)
Definition worker (itm : BSEItem) : result CompanyResult :=
  match FetchTrendSearch (ShortName itm) with
  | Err e => Err e
  | Ok [] => Err ("no trendlyne results for " ++ ShortName itm)%string
  | Ok (tr :: _) =>
      let pageURL :=
        if String.eqb (NextURL tr) "" then
          ("https://trendlyne.com/equity/" ++ Itoa (K tr) ++ "/" ++ ID tr ++ "/" ++
           SlugName tr ++ "/")%string
        else NextURL tr in
      match ExtractFundamentalsURLFromPage pageURL with
      | Err e => Err e
      | Ok fundURL =>
          match FetchFundamentalsJSON fundURL pageURL with
          | Err e => Err e
          | Ok fundJSON =>
              let cr := ParseCompanyFundamentals (ShortName itm) fundJSON in
              Ok {| Company := Company cr; LongName := LongName_ itm;
                    Quarters := Quarters cr; Revenue := Revenue cr;
                    NetProfit := NetProfit cr;
                    RevenueNums := RevenueNums cr;
                    NetProfitNums := NetProfitNums cr |}
          end
      end
  end.

(** One turn of the loop [for r := range resultsCh]. *)
Definition collect (results : list CompanyResult) (r : result CompanyResult)
  : list CompanyResult :=
  match r with
  | Err _ => results
  | Ok cr => results ++ [cr]
  end.

(** The gather loop on the sequence of values received. *)
Definition gather (received : list (result CompanyResult)) : list CompanyResult :=
  fold_left collect received [].

(** *** The batch as a transition system

    The goroutines of step 3 of [main] interleave.  A state records the
    items the dispatch loop has still to start, the goroutines alive with
    their progress, the tokens in [sem], the counter of [wg], the content
    of [resultsCh] and whether it is closed, the progress of the
    goroutine that waits and closes, and the gather loop of the main
    goroutine.  A worker goroutine sends its result, then runs its
    deferred calls in reverse order: it takes a token out of [sem], then
    calls [wg.Done].  A send blocks while the channel is full, and a send
    on the closed channel would panic: [step_send] has both as premises,
    so a worker in either situation has no step.  Every external call is
    assumed to return, and every request to be built: [pstep], in the last
    part of the file, is the process without the second assumption. *)

Definition maxConcurrent : nat := 20.

Inductive wphase := Working | Sent | Released.

Inductive cphase := NotStarted | Waiting | Closed.

Record state := {
  todo : list BSEItem;
  workers : list (BSEItem * wphase);
  sem : nat;
  wg : nat;
  capacity : nat;
  resultsCh : list (result CompanyResult);
  closer : cphase;
  received : list (result CompanyResult);
  results : list CompanyResult;
  finished : bool;
}.

Definition init (todaysItems : list BSEItem) : state :=
  {| todo := todaysItems; workers := []; sem := 0; wg := 0;
     capacity := List.length todaysItems; resultsCh := [];
     closer := NotStarted; received := []; results := []; finished := false |}.

Inductive step : state -> state -> Prop :=
| step_dispatch itm rest s :
    (* sem <- struct{}{} ; wg.Add(1) ; go func() *)
    todo s = itm :: rest ->
    (sem s < maxConcurrent)%nat ->
    step s {| todo := rest; workers := workers s ++ [(itm, Working)];
              sem := S (sem s); wg := S (wg s); capacity := capacity s;
              resultsCh := resultsCh s; closer := closer s;
              received := received s; results := results s;
              finished := finished s |}
| step_send itm ws1 ws2 s :
    (* resultsCh <- result{...} *)
    workers s = ws1 ++ (itm, Working) :: ws2 ->
    (List.length (resultsCh s) < capacity s)%nat ->
    closer s <> Closed ->
    step s {| todo := todo s; workers := ws1 ++ (itm, Sent) :: ws2;
              sem := sem s; wg := wg s; capacity := capacity s;
              resultsCh := resultsCh s ++ [worker itm]; closer := closer s;
              received := received s; results := results s;
              finished := finished s |}
| step_release itm ws1 ws2 n s :
    (* deferred: <-sem *)
    workers s = ws1 ++ (itm, Sent) :: ws2 ->
    sem s = S n ->
    step s {| todo := todo s; workers := ws1 ++ (itm, Released) :: ws2;
              sem := n; wg := wg s; capacity := capacity s;
              resultsCh := resultsCh s; closer := closer s;
              received := received s; results := results s;
              finished := finished s |}
| step_done itm ws1 ws2 n s :
    (* deferred: wg.Done() *)
    workers s = ws1 ++ (itm, Released) :: ws2 ->
    wg s = S n ->
    step s {| todo := todo s; workers := ws1 ++ ws2;
              sem := sem s; wg := n; capacity := capacity s;
              resultsCh := resultsCh s; closer := closer s;
              received := received s; results := results s;
              finished := finished s |}
| step_spawn_closer s :
    (* the dispatch loop is over: go func() { wg.Wait(); close(resultsCh) }() *)
    todo s = [] ->
    closer s = NotStarted ->
    step s {| todo := todo s; workers := workers s;
              sem := sem s; wg := wg s; capacity := capacity s;
              resultsCh := resultsCh s; closer := Waiting;
              received := received s; results := results s;
              finished := finished s |}
| step_close s :
    (* wg.Wait() returns; close(resultsCh) *)
    closer s = Waiting ->
    wg s = 0%nat ->
    step s {| todo := todo s; workers := workers s;
              sem := sem s; wg := wg s; capacity := capacity s;
              resultsCh := resultsCh s; closer := Closed;
              received := received s; results := results s;
              finished := finished s |}
| step_receive r rest s :
    (* for r := range resultsCh { ... } *)
    closer s <> NotStarted ->
    finished s = false ->
    resultsCh s = r :: rest ->
    step s {| todo := todo s; workers := workers s;
              sem := sem s; wg := wg s; capacity := capacity s;
              resultsCh := rest; closer := closer s;
              received := received s ++ [r]; results := collect (results s) r;
              finished := finished s |}
| step_finish s :
    (* the channel is closed and drained: the range loop ends *)
    closer s = Closed ->
    finished s = false ->
    resultsCh s = [] ->
    step s {| todo := todo s; workers := workers s;
              sem := sem s; wg := wg s; capacity := capacity s;
              resultsCh := resultsCh s; closer := closer s;
              received := received s; results := results s;
              finished := true |}.

Inductive steps : nat -> state -> state -> Prop :=
| steps_refl s : steps 0 s s
| steps_next n s1 s2 s3 : step s1 s2 -> steps n s2 s3 -> steps (S n) s1 s3.

Definition reachable (items : list BSEItem) (s : state) : Prop :=
  exists n, steps n (init items) s.

(** The entities whose resolution fails. *)
Definition failed (itm : BSEItem) : bool :=
  match worker itm with
  | Err _ => true
  | Ok _ => false
  end.

End External.

(** ** The library models on known values *)

Example FormatFloat_f2_ties_to_even :
  FormatFloat_f2 0.125 = "0.12" /\ FormatFloat_f2 0.375 = "0.38" /\
  FormatFloat_f2 (-1500.5) = "-1500.50" /\ FormatFloat_f2 1e22 = "10000000000000000000000.00".
Proof. repeat split. Qed.

Example ParseFloat_known_values :
  ParseFloat "1e23" = Some 0x1.52d02c7e14af6p+76%float /\
  ParseFloat "9007199254740993" = Some 9007199254740992%float /\
  ParseFloat "1.7976931348623159e308" = None /\
  ParseFloat "2.4e-324" = Some 0%float /\
  ParseFloat "0x1.8p1" = Some 3%float /\
  ParseFloat "1_000.5" = Some 1000.5%float /\
  ParseFloat "-Infinity" = Some neg_infinity /\
  ParseFloat "1,5" = None /\ ParseFloat " 1" = None.
Proof. vm_compute. repeat split. Qed.

Example normalize_labels :
  normalize "Q1 FY24" = "q1fy24" /\ normalize "Mar-2024" = "mar2024" /\
  normalize "--" = "".
Proof. repeat split. Qed.

Example findQuarterKey_fuzzy :
  findQuarterKey [("Q1FY24", JObject [])] "Q1 FY24" = "Q1FY24".
Proof. reflexivity. Qed.

(** * Properties *)

(** ** Percent change (report.go) *)

(** C8. [pctOrNaN] is NaN when either argument is NaN, NaN (and so not an
    infinity) when [prev] equals zero, and [(curr - prev) / |prev| * 100]
    in every other case; on 110, 100 it is 10 and on 90, 100 it is -10. *)
Theorem pctOrNaN_spec (curr prev : float) :
  (is_nan curr = true \/ is_nan prev = true -> pctOrNaN curr prev = nan) /\
  ((prev =? 0)%float = true ->
     pctOrNaN curr prev = nan /\ is_infinity (pctOrNaN curr prev) = false) /\
  (is_nan curr = false -> is_nan prev = false -> (prev =? 0)%float = false ->
     pctOrNaN curr prev = (curr - prev) / abs prev * 100)%float /\
  pctOrNaN 110 100 = 10%float /\
  pctOrNaN 90 100 = (-10)%float.
Proof.
  unfold pctOrNaN. split; [| split; [| split; [| split]]].
  - intros [H | H]; rewrite H; [reflexivity | now rewrite orb_true_r].
  - intros H. destruct (is_nan curr || is_nan prev); [now split |].
    rewrite H. now split.
  - intros Hc Hp Hz. now rewrite Hc, Hp, Hz.
  - reflexivity.
  - reflexivity.
Qed.

Lemma pctOrNaN_spec_witness :
  pctOrNaN nan 100 = nan /\
  pctOrNaN 110 0 = nan /\
  pctOrNaN 110 (-0) = nan /\
  pctOrNaN 105 100 = ((105 - 100) / abs 100 * 100)%float.
Proof.
  split; [| split; [| split]].
  - destruct (pctOrNaN_spec nan 100) as (H & _). apply H. left. reflexivity.
  - destruct (pctOrNaN_spec 110 0) as (_ & H & _). apply H. reflexivity.
  - destruct (pctOrNaN_spec 110 (-0)) as (_ & H & _). apply H. reflexivity.
  - destruct (pctOrNaN_spec 105 100) as (_ & _ & H & _). apply H; reflexivity.
Defined.

(** ** Step 4 of the resolution: FetchFundamentalsJSON (types.go) *)

(** The first byte of [clean] is a JSON object or array token: the test the
    source makes before its log line. *)
Definition json_token_first (clean : string) : bool :=
  match clean with
  | String c _ => Ascii.eqb c "{" || Ascii.eqb c "["
  | EmptyString => false
  end.

Definition is_Err {A : Type} (r : result A) : bool :=
  match r with
  | Err _ => true
  | Ok _ => false
  end.

(** C6 as stated fails: a body that is not empty and whose trimmed form
    does not begin with a JSON token is returned, not rejected. *)
Lemma FetchFundamentalsJSON_non_json_body :
  json_token_first (TrimSpace "hello") = false /\
  (forall http_get, http_get "u" "r" = Ok "hello" ->
     FetchFundamentalsJSON http_get "u" "r" = Ok "hello") /\
  ~ (forall body : string,
       is_Err (FetchFundamentalsJSON (fun _ _ => Ok body) "u" "r") = true <->
       body = "" \/ json_token_first (TrimSpace body) = false).
Proof.
  split; [reflexivity | split].
  - intros http_get H. unfold FetchFundamentalsJSON. rewrite H. reflexivity.
  - intros H. destruct (H "hello") as [_ H2].
    assert (E : is_Err (FetchFundamentalsJSON (fun _ _ => Ok "hello") "u" "r") = true)
      by (apply H2; right; reflexivity).
    discriminate E.
Qed.

(** C6, amended.  [FetchFundamentalsJSON] fails exactly when the request
    or the reading of the body fails, or the body is empty after trimming
    white space (an empty body in particular); in every other case, also
    when the trimmed body does not begin with a JSON token, it returns the
    trimmed body. *)
Theorem FetchFundamentalsJSON_spec
    (http_get : string -> string -> result string) (fundURL referer : string) :
  match http_get fundURL referer with
  | Err e => FetchFundamentalsJSON http_get fundURL referer = Err e
  | Ok body =>
      (TrimSpace body = "" /\
       FetchFundamentalsJSON http_get fundURL referer = Err "empty fundamentals response")
      \/
      (TrimSpace body <> "" /\
       FetchFundamentalsJSON http_get fundURL referer = Ok (TrimSpace body))
  end /\
  FetchFundamentalsJSON (fun _ _ => Ok "") fundURL referer =
    Err "empty fundamentals response".
Proof.
  unfold FetchFundamentalsJSON, FetchFundamentalsJSON_body. split; [| reflexivity].
  destruct (http_get fundURL referer) as [body | e]; [| reflexivity].
  destruct (TrimSpace body) as [| c t] eqn:E.
  - left. split; reflexivity.
  - right. split; [discriminate | reflexivity].
Qed.

(** ** Candidate group selection: chooseBestDump (types.go) *)

Section ChooseBestDump.

Variable targets : list string.

Definition key_matches (mk : string) : bool :=
  existsb (target_matches (normalize mk)) targets.

Lemma score_fold (ks : list string) (z : Z) :
  fold_left
    (fun score mk =>
       if existsb (target_matches (normalize mk)) targets then score + 1 else score)
    ks z
  = z + Z.of_nat (List.length (filter key_matches ks)).
Proof.
  revert z. induction ks as [| k ks IH]; intros z; simpl.
  - lia.
  - rewrite IH.
    change (existsb (target_matches (normalize k)) targets) with (key_matches k).
    destruct (key_matches k); simpl List.length; lia.
Qed.

Lemma dump_score_count (m : object) :
  dump_score targets m = Z.of_nat (List.length (filter key_matches (keys m))).
Proof. unfold dump_score. now rewrite score_fold. Qed.

Lemma dump_score_nonneg (m : object) : 0 <= dump_score targets m.
Proof. rewrite dump_score_count. lia. Qed.

Definition is_object (v : JSON) : bool :=
  match v with
  | JObject _ => true
  | _ => false
  end.

(** What the loop of [chooseBestDump] has established after visiting the
    entries [seen]: either no entry was a map and the sentinel is
    untouched, or the retained map is the first one of highest score. *)
Definition best_inv (seen : object) (b : best) : Prop :=
  (bestMap b = None /\ bestScore b = -1 /\
   forall kv, In kv seen -> is_object (snd kv) = false)
  \/
  (exists k m l1 l2,
      seen = l1 ++ (k, JObject m) :: l2 /\
      bestMap b = Some m /\ bestKey b = k /\
      bestScore b = dump_score targets m /\
      (forall k' m', In (k', JObject m') l1 ->
                     dump_score targets m' < dump_score targets m) /\
      (forall k' m', In (k', JObject m') l2 ->
                     dump_score targets m' <= dump_score targets m)).

Lemma best_step_skip (b : best) (k : string) (v : JSON) :
  is_object v = false -> best_step targets b (k, v) = b.
Proof. destruct v; try reflexivity. discriminate. Qed.

Lemma best_inv_skip (seen : object) (b : best) (k : string) (v : JSON) :
  is_object v = false -> best_inv seen b -> best_inv (seen ++ [(k, v)]) b.
Proof.
  intros Hv [(Hm & Hs & Hno) | (k1 & m & l1 & l2 & Hseen & Hm & Hk & Hs & Hlt & Hle)].
  - left. repeat split; try assumption.
    intros kv [Hin | [<- | []]]%in_app_iff; [now apply Hno | exact Hv].
  - right. exists k1, m, l1, (l2 ++ [(k, v)]). repeat split; try assumption.
    + rewrite Hseen, <- app_assoc. reflexivity.
    + intros k' m' [Hin | [Heq | []]]%in_app_iff.
      * now apply (Hle k').
      * injection Heq as _ ->. discriminate Hv.
Qed.

Lemma best_inv_step (seen : object) (b : best) (kv : string * JSON) :
  best_inv seen b -> best_inv (seen ++ [kv]) (best_step targets b kv).
Proof.
  intros H. destruct kv as [k0 v].
  destruct (is_object v) eqn:Hv.
  2:{ rewrite best_step_skip by assumption. now apply best_inv_skip. }
  destruct v as [| ? | ? | ? | ? | m0]; try discriminate Hv. clear Hv.
  unfold best_step; cbv beta iota zeta delta [snd fst].
  destruct H as [(Hm & Hs & Hno) | (k & m & l1 & l2 & Hseen & Hm & Hk & Hs & Hlt & Hle)].
  - rewrite Hs. pose proof (dump_score_nonneg m0) as Hpos.
    destruct (Z.ltb_spec (-1) (dump_score targets m0)); [| lia].
    right. exists k0, m0, seen, []. repeat split.
    + intros k' m' Hin. apply Hno in Hin. discriminate Hin.
    + intros k' m' [].
  - rewrite Hs.
    destruct (Z.ltb_spec (dump_score targets m) (dump_score targets m0)) as [Hlt0 | Hge0].
    + right. exists k0, m0, seen, []. repeat split.
      * intros k' m' Hin. rewrite Hseen in Hin.
        apply in_app_iff in Hin as [Hin | [Heq | Hin]].
        -- specialize (Hlt _ _ Hin). lia.
        -- injection Heq as _ ->. assumption.
        -- specialize (Hle _ _ Hin). lia.
      * intros k' m' [].
    + right. exists k, m, l1, (l2 ++ [(k0, JObject m0)]). repeat split; try assumption.
      * rewrite Hseen, <- app_assoc. reflexivity.
      * intros k' m' [Hin | [Heq | []]]%in_app_iff.
        -- now apply (Hle k').
        -- injection Heq as _ <-. assumption.
Qed.

Lemma best_inv_fold (qd seen : object) (b : best) :
  best_inv seen b -> best_inv (seen ++ qd) (fold_left (best_step targets) qd b).
Proof.
  revert seen b. induction qd as [| kv qd IH]; intros seen b H; simpl.
  - now rewrite app_nil_r.
  - replace (seen ++ kv :: qd) with ((seen ++ [kv]) ++ qd)
      by (rewrite <- app_assoc; reflexivity).
    apply IH. now apply best_inv_step.
Qed.

Lemma best_inv_init : best_inv [] best_init.
Proof. left. repeat split. intros kv []. Qed.

End ChooseBestDump.

Lemma chooseBestDump_inv (qd : object) (qOrder : list string) :
  best_inv (map normalize qOrder) qd
    (fold_left (best_step (map normalize qOrder)) qd best_init).
Proof. apply (best_inv_fold _ qd [] best_init), best_inv_init. Qed.

(** C2 as stated fails: a mapping whose only candidate group scores 0 is
    answered with that group, not with none. *)
Lemma chooseBestDump_zero_score_selected :
  dump_score (map normalize ["Q1"]) [("Q9", JNull)] = 0 /\
  chooseBestDump [("standalone", JObject [("Q9", JNull)])] ["Q1"]
    = Some [("Q9", JNull)].
Proof. split; reflexivity. Qed.

(** C2, amended.  [chooseBestDump] returns none exactly when no entry of
    the group mapping is itself a mapping, in particular on the empty
    mapping; as soon as one entry is a mapping it returns one of them, also
    when every candidate scores 0. *)
Theorem chooseBestDump_none_iff (qd : object) (qOrder : list string) :
  (chooseBestDump qd qOrder = None <->
   forall kv, In kv qd -> is_object (snd kv) = false) /\
  chooseBestDump [] qOrder = None /\
  (forall m, chooseBestDump qd qOrder = Some m -> exists k, In (k, JObject m) qd).
Proof.
  unfold chooseBestDump.
  pose proof (chooseBestDump_inv qd qOrder) as
    [(Hm & _ & Hno) | (k & m & l1 & l2 & Hqd & Hm & _)].
  - split; [| split].
    + split; [intros _; exact Hno | intros _; exact Hm].
    + reflexivity.
    + intros m H. rewrite Hm in H. discriminate H.
  - split; [| split].
    + split.
      * intros H. rewrite Hm in H. discriminate H.
      * intros H. specialize (H (k, JObject m)). rewrite Hqd in H.
        assert (E : is_object (snd (k, JObject m)) = false)
          by (apply H, in_app_iff; right; left; reflexivity).
        discriminate E.
    + reflexivity.
    + intros m0 H. rewrite Hm in H. injection H as <-.
      exists k. rewrite Hqd. apply in_app_iff. right. left. reflexivity.
Qed.

Lemma chooseBestDump_none_iff_witness :
  exists k, In (k, JObject [("Q9", JNull)]) [("standalone", JObject [("Q9", JNull)])].
Proof.
  destruct (chooseBestDump_none_iff [("standalone", JObject [("Q9", JNull)])] ["Q1"])
    as (_ & _ & H).
  apply H. reflexivity.
Defined.

(** The score that C3 and the comment above the scoring loop word ("score
    how many targets appear in m's keys"): the number of expected periods
    that have a match among the keys of the group. *)
Definition periods_matched (targets : list string) (m : object) : Z :=
  Z.of_nat
    (List.length
       (filter (fun t => existsb (fun mk => target_matches (normalize mk) t) (keys m))
               targets)).

(** C3, at the failing input.  For the group with the keys "Q1 FY24" and
    "Q1FY24" and the single expected period "Q1FY24", the score that
    [chooseBestDump] computes is 2: its outer loop runs over the keys and
    both keys match the period.  The number of expected periods that have
    a match among the keys, which the claim and the comment above the loop
    state, is 1. *)
Lemma dump_score_counts_keys :
  dump_score (map normalize ["Q1FY24"]) [("Q1 FY24", JNull); ("Q1FY24", JNull)] = 2 /\
  periods_matched (map normalize ["Q1FY24"]) [("Q1 FY24", JNull); ("Q1FY24", JNull)] = 1.
Proof. split; reflexivity. Qed.

(** The count of keys changes the selection: a group with three spellings
    of one period is preferred, in both visiting orders, to a group that
    has both expected periods. *)
Example chooseBestDump_prefers_repeated_keys :
  let targets := map normalize ["Q1FY24"; "Q2FY24"] in
  let ga := [("Q1 FY24", JNull); ("Q1FY24", JNull); ("Q1-FY24", JNull)] in
  let gb := [("Q1FY24", JNull); ("Q2FY24", JNull)] in
  dump_score targets ga = 3 /\ periods_matched targets ga = 1 /\
  dump_score targets gb = 2 /\ periods_matched targets gb = 2 /\
  chooseBestDump [("a", JObject ga); ("b", JObject gb)] ["Q1FY24"; "Q2FY24"] = Some ga /\
  chooseBestDump [("b", JObject gb); ("a", JObject ga)] ["Q1FY24"; "Q2FY24"] = Some ga.
Proof. repeat split. Qed.

(** What the loops of [chooseBestDump] compute, as the code stands.  The
    score of a candidate group is the number of its keys that match at
    least one expected period, a match being equality or containment in
    either direction after normalization; a key counts once, however many
    periods it matches.  The group returned is the first visited one of
    highest score: the groups visited before it score strictly less and
    those visited after it score no more. *)
Theorem chooseBestDump_score (qd : object) (qOrder : list string) :
  let targets := map normalize qOrder in
  (forall m,
     dump_score targets m =
     Z.of_nat
       (List.length
          (filter
             (fun mk =>
                existsb
                  (fun t => String.eqb t (normalize mk) ||
                            Contains (normalize mk) t || Contains t (normalize mk))
                  targets)
             (keys m)))) /\
  match chooseBestDump qd qOrder with
  | None => forall kv, In kv qd -> is_object (snd kv) = false
  | Some m =>
      exists k l1 l2,
        qd = l1 ++ (k, JObject m) :: l2 /\
        (forall k' m', In (k', JObject m') l1 ->
                       dump_score targets m' < dump_score targets m) /\
        (forall k' m', In (k', JObject m') l2 ->
                       dump_score targets m' <= dump_score targets m)
  end.
Proof.
  intros targets. split.
  - intros m. apply dump_score_count.
  - subst targets. unfold chooseBestDump.
    pose proof (chooseBestDump_inv qd qOrder) as
      [(Hm & _ & Hno) | (k & m & l1 & l2 & Hqd & Hm & _ & _ & Hlt & Hle)];
      rewrite Hm.
    + exact Hno.
    + exists k, l1, l2. now repeat split.
Qed.

(** ** Period key fuzzy match: findQuarterKey (types.go) *)

Lemma Contains_empty (s : string) : Contains s "" = true.
Proof. destruct s; reflexivity. Qed.

Lemma target_matches_empty (nmk : string) : target_matches nmk "" = true.
Proof.
  unfold target_matches. rewrite Contains_empty. now rewrite orb_true_r.
Qed.

Lemma find_In {A : Type} (p : A -> bool) (l : list A) (x : A) :
  find p l = Some x -> In x l.
Proof. intros H. now apply find_some in H. Qed.

(** C10 as stated fails: on a group whose key is the empty string the
    closure returns that key, which is its "no key" answer. *)
Lemma findQuarterKey_empty_key :
  normalize "-" = "" /\
  findQuarterKey [("", JObject [])] "-" = "".
Proof. split; reflexivity. Qed.

(** C10, amended.  On a non-empty group and a wanted label without
    alphanumeric characters, [findQuarterKey] returns a key of the group,
    whatever the visiting orders of its two loops; the answer is "no key"
    only if that key is the empty string, hence never when no key of the
    group is empty.  In [chooseBestDump] an expected period without
    alphanumeric characters makes every key of a group count, so the score
    is the number of keys. *)
Theorem findQuarterKey_blank_label (d : object) (pass1 pass2 : list string) (q : string) :
  normalize q = "" ->
  d <> [] ->
  Permutation (keys d) pass1 ->
  Permutation (keys d) pass2 ->
  In (findQuarterKey_passes pass1 pass2 q) (keys d) /\
  In (findQuarterKey d q) (keys d) /\
  (~ In "" (keys d) ->
   findQuarterKey_passes pass1 pass2 q <> "" /\ findQuarterKey d q <> "") /\
  (forall qOrder m,
     In q qOrder ->
     dump_score (map normalize qOrder) m = Z.of_nat (List.length (keys m))).
Proof.
  intros Hq Hd P1 P2.
  assert (Hpass : forall p1 p2,
             Permutation (keys d) p1 -> Permutation (keys d) p2 ->
             In (findQuarterKey_passes p1 p2 q) (keys d)).
  { intros p1 p2 HP1 HP2. unfold findQuarterKey_passes. rewrite Hq.
    destruct (find (fun k => String.eqb "" (normalize k)) p1) as [k |] eqn:E1.
    - apply find_In in E1. now apply (Permutation_in _ (Permutation_sym HP1)).
    - destruct p2 as [| k p2].
      + apply Permutation_sym, Permutation_nil in HP2.
        destruct d; [now elim Hd | discriminate HP2].
      + simpl find. rewrite Contains_empty. simpl.
        apply (Permutation_in _ (Permutation_sym HP2)). now left. }
  assert (H1 := Hpass pass1 pass2 P1 P2).
  assert (H2 : In (findQuarterKey d q) (keys d))
    by (apply Hpass; apply Permutation_refl).
  repeat split; try assumption.
  - intros E. apply H. now rewrite <- E.
  - intros E. apply H. now rewrite <- E.
  - intros qOrder m Hin. rewrite dump_score_count.
    f_equal. f_equal.
    assert (Hall : forall mk, key_matches (map normalize qOrder) mk = true).
    { intros mk. unfold key_matches. apply existsb_exists.
      exists "". split.
      - rewrite <- Hq. now apply in_map.
      - apply target_matches_empty. }
    induction (keys m) as [| mk ks IH]; [reflexivity |].
    simpl. rewrite Hall. now rewrite IH.
Qed.

Lemma findQuarterKey_blank_label_witness :
  In (findQuarterKey_passes ["Q2"; "Q1"] ["Q1"; "Q2"] "-")
     (keys [("Q1", JNull); ("Q2", JNull)]) /\
  findQuarterKey [("Q1", JNull); ("Q2", JNull)] "-" <> "".
Proof.
  destruct (findQuarterKey_blank_label [("Q1", JNull); ("Q2", JNull)]
              ["Q2"; "Q1"] ["Q1"; "Q2"] "-") as (H1 & _ & H3 & _).
  - reflexivity.
  - discriminate.
  - apply perm_swap.
  - apply Permutation_refl.
  - split; [exact H1 |].
    apply H3. simpl. intros [H | [H | []]]; discriminate H.
Defined.

(** ** Decimal digits *)

Definition horner (ds : list Z) : Z := fold_left (fun a d => a * 10 + d) ds 0.

Definition is_digit_value (d : Z) : Prop := 0 <= d <= 9.

Lemma horner_app (ds : list Z) (d : Z) : horner (ds ++ [d]) = horner ds * 10 + d.
Proof. unfold horner. now rewrite fold_left_app. Qed.

Lemma digits_acc_spec (fuel : nat) :
  forall n acc,
    0 <= n < 2 ^ Z.of_nat (S fuel) ->
    exists d ds,
      digits_acc (S fuel) n acc = (d :: ds) ++ acc /\
      Forall is_digit_value (d :: ds) /\
      horner (d :: ds) = n /\
      (d = 0 -> n = 0).
Proof.
  induction fuel as [| fuel IH]; intros n acc Hn.
  - exists n, []. change (2 ^ Z.of_nat 1) with 2 in Hn.
    simpl. destruct (Z.ltb_spec n 10); [| lia].
    repeat split; try lia. constructor; [red; lia | constructor].
  - change (digits_acc (S (S fuel)) n acc)
      with (if n <? 10 then n :: acc
            else digits_acc (S fuel) (n / 10) (n mod 10 :: acc)).
    destruct (Z.ltb_spec n 10) as [Hlt | Hge].
    + exists n, []. repeat split; try lia.
      constructor; [red; lia | constructor].
    + assert (Hdiv : 0 <= n / 10 < 2 ^ Z.of_nat (S fuel)).
      { split; [apply Z.div_pos; lia |].
        apply Z.div_lt_upper_bound; [lia |].
        replace (Z.of_nat (S (S fuel))) with (Z.of_nat (S fuel) + 1) in Hn by lia.
        rewrite Z.pow_add_r in Hn by lia. lia. }
      destruct (IH (n / 10) (n mod 10 :: acc) Hdiv) as (d & ds & E & Hall & Hh & Hz).
      exists d, (ds ++ [n mod 10]). rewrite E. repeat split.
      * simpl. now rewrite <- app_assoc.
      * change (d :: ds ++ [n mod 10]) with ((d :: ds) ++ [n mod 10]).
        apply Forall_app. split; [assumption |].
        constructor; [| constructor]. red.
        pose proof (Z.mod_pos_bound n 10). lia.
      * change (d :: ds ++ [n mod 10]) with ((d :: ds) ++ [n mod 10]).
        rewrite horner_app, Hh. pose proof (Z.div_mod n 10). lia.
      * intros Hd. specialize (Hz Hd).
        pose proof (Z.div_mod n 10). pose proof (Z.mod_pos_bound n 10). lia.
Qed.

(** The digits of [n >= 0]: at least one, each between 0 and 9, of value
    [n], without a leading zero unless [n = 0]. *)
Lemma digits_of_spec (n : Z) :
  0 <= n ->
  exists d ds,
    digits_of n = d :: ds /\
    Forall is_digit_value (d :: ds) /\
    horner (d :: ds) = n /\
    (d = 0 -> n = 0).
Proof.
  intros Hn. unfold digits_of.
  destruct (digits_acc_spec (Z.to_nat (Z.log2 n)) n []) as (d & ds & E & H).
  - split; [assumption |].
    destruct (Z.eq_dec n 0) as [-> | Hne]; [reflexivity |].
    rewrite Nat2Z.inj_succ, Z2Nat.id by apply Z.log2_nonneg.
    apply Z.log2_spec. lia.
  - exists d, ds. rewrite E, app_nil_r. split; [reflexivity | exact H].
Qed.

Lemma digit_char_code (d : Z) :
  is_digit_value d -> code (digit_char d) = 48 + d /\ is_digit (digit_char d) = true.
Proof.
  unfold is_digit_value. intros H.
  assert (E : d = 0 \/ d = 1 \/ d = 2 \/ d = 3 \/ d = 4 \/ d = 5 \/ d = 6 \/
              d = 7 \/ d = 8 \/ d = 9) by lia.
  repeat (destruct E as [-> | E]; [split; reflexivity |]).
  subst d. split; reflexivity.
Qed.

(** ** Quarter value extraction: valueFromMap (types.go) *)

Lemma TrimRight_head (s cutset : string) (c : ascii) :
  TrimRight (String c s) cutset = EmptyString \/
  exists t, TrimRight (String c s) cutset = String c t.
Proof.
  cbn [TrimRight]. destruct (TrimRight s cutset) as [| c' t'].
  - destruct (mem c cutset); [now left | right; now exists EmptyString].
  - right. now eexists.
Qed.

Lemma rne_div_nonneg (a b : Z) : 0 <= a -> 0 < b -> 0 <= rne_div a b.
Proof.
  intros Ha Hb. unfold rne_div.
  assert (0 <= a / b) by (apply Z.div_pos; lia).
  destruct (2 * (a mod b) <? b); [lia |].
  destruct (b <? 2 * (a mod b)); [lia |].
  destruct (Z.even (a / b)); lia.
Qed.

Lemma hundredths_nonneg (m : positive) (e : Z) : 0 <= hundredths (Zpos m) e.
Proof.
  unfold hundredths. destruct (Z.leb_spec 0 e).
  - assert (0 < 2 ^ e) by (apply Z.pow_pos_nonneg; lia). nia.
  - apply rne_div_nonneg; [lia |]. apply Z.pow_pos_nonneg; lia.
Qed.

(** The text of [FormatFloat_f2] never begins with the letter n. *)
Lemma FormatFloat_f2_head (f : float) :
  exists c t, FormatFloat_f2 f = String c t /\ c <> "n"%char.
Proof.
  assert (Hfix : forall s k, 0 <= k ->
             exists c t, fixed2 s k = String c t /\ c <> "n"%char).
  { intros s k Hk. unfold fixed2.
    destruct s; [exists "-"%char; eexists; split; [reflexivity | discriminate] |].
    destruct (digits_of_spec (k / 100)) as (d & ds & E & Hall & _).
    { apply Z.div_pos; lia. }
    rewrite E. exists (digit_char d). eexists. split; [reflexivity |].
    inversion Hall as [| ? ? Hd _]; subst.
    destruct (digit_char_code d Hd) as [Hc _].
    intros Heq. rewrite Heq in Hc. red in Hd.
    change (code "n") with 110 in Hc. lia. }
  unfold FormatFloat_f2. destruct (Prim2SF f) as [s | s | | s m e].
  - apply Hfix. lia.
  - destruct s; eexists; eexists; (split; [reflexivity | discriminate]).
  - eexists; eexists; (split; [reflexivity | discriminate]).
  - apply Hfix, hundredths_nonneg.
Qed.

Lemma formatFloat_not_sentinel (f : float) : formatFloat f <> not_declared.
Proof.
  unfold formatFloat.
  destruct (FormatFloat_f2_head f) as (c & t & E & Hc). rewrite E.
  destruct (TrimRight_head t "0" c) as [E1 | (t1 & E1)]; rewrite E1.
  - discriminate.
  - destruct (TrimRight_head t1 "." c) as [E2 | (t2 & E2)]; rewrite E2.
    + discriminate.
    + intros H. injection H as H _. now apply Hc.
Qed.

(** The values at which the loop of [valueFromMap] goes on to the next
    key: no entry, [null], and the empty string. *)
Definition absent (v : option JSON) : bool :=
  match v with
  | None => true
  | Some JNull => true
  | Some (JString s) => String.eqb s ""
  | Some _ => false
  end.

(** The values that reach the [default] case of the type switch. *)
Definition compound (v : JSON) : bool :=
  match v with
  | JBool _ | JArray _ | JObject _ => true
  | _ => false
  end.

(** The first byte of an encoding of a boolean, an array or an object. *)
Definition compound_head (b : string) : bool :=
  match b with
  | String c _ =>
      Ascii.eqb c "t" || Ascii.eqb c "f" || Ascii.eqb c "[" || Ascii.eqb c "{"
  | EmptyString => false
  end.

(** An encoder that keeps only the outer shape of the [json.Marshal]
    text: enough to run [valueFromMap] on examples. *)
Definition Marshal_outline (v : JSON) : string :=
  match v with
  | JNull => "null"
  | JBool true => "true"
  | JBool false => "false"
  | JNumber _ => "0"
  | JString _ => "{}"
  | JArray _ => "[]"
  | JObject _ => "{}"
  end.

(** C5 as stated fails: a candidate key that maps to the non-null,
    non-empty string "not declared" is the value that wins, and the result
    is the sentinel all the same. *)
Lemma valueFromMap_sentinel_from_value :
  absent (lookup [("NP_Q", JString "not declared")] "NP_Q") = false /\
  valueFromMap Marshal_outline [("NP_Q", JString "not declared")] ["NP_Q"]
    = not_declared.
Proof. split; reflexivity. Qed.

Section ValueFromMap.

Variable Marshal : JSON -> string.
Hypothesis Marshal_head : forall v, compound v = true -> compound_head (Marshal v) = true.

Lemma valueFromMap_absent (m : object) (k : string) (ks : list string) :
  absent (lookup m k) = true ->
  valueFromMap Marshal m (k :: ks) = valueFromMap Marshal m ks.
Proof.
  cbn [valueFromMap]. destruct (lookup m k) as [[| | | s | |] |]; try discriminate;
    try reflexivity.
  cbn [absent]. intros H. apply String.eqb_eq in H. subst s. reflexivity.
Qed.

Lemma valueFromMap_present (m : object) (k : string) (ks : list string) :
  absent (lookup m k) = false ->
  valueFromMap Marshal m (k :: ks) = valueFromMap Marshal m [k] /\
  (valueFromMap Marshal m [k] = not_declared <->
   lookup m k = Some (JString "not declared")).
Proof.
  cbn [valueFromMap]. destruct (lookup m k) as [v |]; [| discriminate].
  assert (Hcomp : compound v = true ->
            (0 <? String.length (Marshal v))%nat = true /\
            Marshal v <> not_declared).
  { intros Hc. apply Marshal_head in Hc.
    destruct (Marshal v) as [| c t]; [discriminate Hc |].
    split; [reflexivity |]. intros E. injection E as -> _. discriminate Hc. }
  destruct v as [| b | f | s | a | o]; cbn [absent]; intros Ha.
  - discriminate Ha.
  - destruct (Hcomp eq_refl) as [-> Hne]. split; [reflexivity |].
    split; [intros E; now elim Hne | discriminate].
  - split; [reflexivity |]. split; [| discriminate].
    intros E. now apply formatFloat_not_sentinel in E.
  - destruct (ParseFloat s) as [f |] eqn:EP.
    + split; [reflexivity |]. split.
      * intros E. now apply formatFloat_not_sentinel in E.
      * intros E. injection E as ->. vm_compute in EP. discriminate EP.
    + rewrite Ha. split; [reflexivity |]. unfold not_declared. split; congruence.
  - destruct (Hcomp eq_refl) as [-> Hne]. split; [reflexivity |].
    split; [intros E; now elim Hne | discriminate].
  - destruct (Hcomp eq_refl) as [-> Hne]. split; [reflexivity |].
    split; [intros E; now elim Hne | discriminate].
Qed.

(** C5, amended.  [valueFromMap] tries the keys in order and the first
    key whose value is present, not null and not the empty string
    decides the result alone; when there is no such key the result is
    the sentinel "not declared", which reads as NaN.  Conversely the
    result is the sentinel only then, or when the deciding value is
    itself the string "not declared". *)
Theorem valueFromMap_spec (m : object) (ks : list string) :
  match find (fun k => negb (absent (lookup m k))) ks with
  | None => valueFromMap Marshal m ks = not_declared
  | Some k =>
      valueFromMap Marshal m ks = valueFromMap Marshal m [k] /\
      (valueFromMap Marshal m ks = not_declared <->
       lookup m k = Some (JString "not declared"))
  end /\
  quarterValueToFloat64 not_declared = nan.
Proof.
  split; [| reflexivity].
  induction ks as [| k ks IH]; [reflexivity |].
  cbn [find]. destruct (absent (lookup m k)) eqn:Ha; cbn [negb].
  - rewrite valueFromMap_absent by assumption. exact IH.
  - destruct (valueFromMap_present m k ks Ha) as [E Hiff].
    split; [exact E |]. now rewrite E.
Qed.

End ValueFromMap.

Lemma valueFromMap_spec_witness :
  valueFromMap Marshal_outline
    [("TOTAL_SR_Q", JString ""); ("SR_Q", JNumber 1500.5)] ["TOTAL_SR_Q"; "SR_Q"]
  = valueFromMap Marshal_outline
      [("TOTAL_SR_Q", JString ""); ("SR_Q", JNumber 1500.5)] ["SR_Q"].
Proof.
  assert (H : forall v, compound v = true -> compound_head (Marshal_outline v) = true)
    by (intros [| [|] | | | |]; try discriminate; reflexivity).
  pose proof (valueFromMap_spec Marshal_outline H
                [("TOTAL_SR_Q", JString ""); ("SR_Q", JNumber 1500.5)]
                ["TOTAL_SR_Q"; "SR_Q"]) as [[E _] _].
  exact E.
Defined.

(** ** The record built by ParseCompanyFundamentals (types.go) *)

Section Record.

Variable Marshal : JSON -> string.
Variable json_decode : string -> option JSON.

Lemma pad_loop_spec (fuel : nat) :
  forall cr,
    (4 - List.length (Quarters cr) <= fuel)%nat ->
    let n := (4 - List.length (Quarters cr))%nat in
    pad_loop fuel cr =
    {| Company := Company cr; LongName := LongName cr;
       Quarters := Quarters cr ++ repeat "" n;
       Revenue := Revenue cr ++ repeat not_declared n;
       NetProfit := NetProfit cr ++ repeat not_declared n;
       RevenueNums := RevenueNums cr; NetProfitNums := NetProfitNums cr |}.
Proof.
  induction fuel as [| fuel IH]; intros cr Hf n; subst n.
  - replace (4 - List.length (Quarters cr))%nat with 0%nat by lia.
    simpl. rewrite !app_nil_r. now destruct cr.
  - cbn [pad_loop]. destruct (Nat.ltb_spec (List.length (Quarters cr)) 4) as [Hlt | Hge].
    + rewrite IH; cbn [Quarters Revenue NetProfit RevenueNums NetProfitNums
                         Company LongName];
        rewrite ?length_app; cbn [List.length]; [| lia].
      replace (4 - List.length (Quarters cr))%nat
        with (S (4 - (List.length (Quarters cr) + 1)))%nat by lia.
      cbn [repeat]. now rewrite <- !app_assoc.
    + replace (4 - List.length (Quarters cr))%nat with 0%nat by lia.
      simpl. rewrite !app_nil_r. now destruct cr.
Qed.

(** The invariant of the data model, on the paths that reach the padding
    loop: when [json.Unmarshal] succeeds, the record has exactly four
    entries in each of its five arrays, and the entries beyond the
    declared quarters are "", "not declared" and NaN.  When it fails the
    function returns before the loop and the five arrays are empty. *)
Lemma ParseCompanyFundamentals_slots (shortName fundJSON : string) :
  let cr := ParseCompanyFundamentals Marshal json_decode shortName fundJSON in
  match Unmarshal_root json_decode fundJSON with
  | Some _ =>
      List.length (Quarters cr) = 4%nat /\
      List.length (Revenue cr) = 4%nat /\
      List.length (NetProfit cr) = 4%nat /\
      List.length (RevenueNums cr) = 4%nat /\
      List.length (NetProfitNums cr) = 4%nat /\
      exists n qs rs ps,
        (n <= 4)%nat /\ List.length qs = n /\ List.length rs = n /\
        List.length ps = n /\
        Quarters cr = qs ++ repeat "" (4 - n) /\
        Revenue cr = rs ++ repeat not_declared (4 - n) /\
        NetProfit cr = ps ++ repeat not_declared (4 - n) /\
        RevenueNums cr = map quarterValueToFloat64 rs ++ repeat nan (4 - n) /\
        NetProfitNums cr = map quarterValueToFloat64 ps ++ repeat nan (4 - n)
  | None =>
      Quarters cr = [] /\ Revenue cr = [] /\ NetProfit cr = [] /\
      RevenueNums cr = [] /\ NetProfitNums cr = []
  end.
Proof.
  intros cr. subst cr. unfold ParseCompanyFundamentals.
  destruct (Unmarshal_root json_decode fundJSON) as [root |]; [| now repeat split].
  set (body := match root with Some r => as_object (lookup r "body") | None => None end).
  set (qOrder := match body with
                 | Some b => match as_array (lookup b "quarterlyOrder") with
                             | Some qo => string_items qo
                             | None => []
                             end
                 | None => []
                 end).
  set (dump := match body with
               | Some b => match lookup b "quarterlyDataDump" with
                           | Some (JObject qd) => chooseBestDump qd qOrder
                           | _ => None
                           end
               | None => None
               end).
  set (max := if (List.length qOrder <? 4)%nat then List.length qOrder else 4%nat).
  set (qs := firstn max qOrder).
  assert (Hqs : (List.length qs <= 4)%nat).
  { subst qs max. rewrite length_firstn.
    destruct (Nat.ltb_spec (List.length qOrder) 4); lia. }
  rewrite pad_loop_spec by (cbn [Quarters]; lia).
  cbn [Quarters Revenue NetProfit RevenueNums NetProfitNums Company LongName].
  rewrite !length_map, !length_app, !length_map, !repeat_length.
  repeat (split; [lia |]).
  exists (List.length qs), qs, (map fst (map (read_quarter Marshal dump) qs)),
    (map snd (map (read_quarter Marshal dump) qs)).
  rewrite !length_map, !map_app, !map_repeat.
  repeat split; try reflexivity; lia.
Qed.

End Record.

Definition sample_item : BSEItem :=
  {| ScripCode := "500000"; ShortName := "ACME"; LongName_ := "Acme Ltd";
     MeetingDate := "30 Oct 2026"; URL := "" |}.

Definition sample_trend : TrendItem :=
  {| ID := "ACME"; Label := "Acme Ltd"; Value := "Acme Ltd"; K := 7;
     SlugName := "acme-ltd"; Country := "in"; DefaultExchange := "BSE";
     BSEcode := "500000"; NextURL := "" |}.


(** ** The two-of-four scenario (types.go, report.go) *)

Definition acme_quarter (rev np : float) : JSON :=
  JObject [("TOTAL_SR_Q", JNumber rev); ("NP_Q", JNumber np)].

Definition acme_document : JSON :=
  JObject
    [("body",
      JObject
        [("quarterlyOrder",
          JArray [JString "Q1"; JString "Q2"; JString "Q3"; JString "Q4"]);
         ("quarterlyDataDump",
          JObject
            [("consolidated",
              JObject [("Q1", acme_quarter 110 7); ("Q2", acme_quarter 100 5)])])])].

(** C4 as stated fails: the four declared labels are all kept, and the
    average-of-3 change is a number, the means being taken over the values
    that are not NaN. *)
Lemma acme_two_of_four :
  let cr := ParseCompanyFundamentals Marshal_outline (fun _ => Some acme_document)
              "ACME" "{}" in
  Quarters cr = ["Q1"; "Q2"; "Q3"; "Q4"] /\
  Quarters cr <> ["Q1"; "Q2"; ""; ""] /\
  Revenue cr = ["110"; "100"; not_declared; not_declared] /\
  RevPct (row_stats cr) = 10%float /\
  Avg3RevChange (row_stats cr) = 5%float /\
  is_nan (Avg3RevChange (row_stats cr)) = false.
Proof. vm_compute. repeat split. discriminate. Qed.

Lemma find_none {A : Type} (p : A -> bool) (l : list A) :
  (forall x, In x l -> p x = false) -> find p l = None.
Proof.
  induction l as [| x l IH]; intros H; [reflexivity |].
  simpl. rewrite (H x) by now left. apply IH. intros y Hy. apply H. now right.
Qed.

Lemma findQuarterKey_no_match (d : object) (q : string) :
  (forall k, In k (keys d) ->
     String.eqb (normalize q) (normalize k) = false /\
     Contains (normalize k) (normalize q) = false /\
     Contains (normalize q) (normalize k) = false) ->
  findQuarterKey d q = "".
Proof.
  intros H. unfold findQuarterKey, findQuarterKey_passes.
  rewrite find_none by (intros k Hk; now apply H).
  rewrite find_none; [reflexivity |].
  intros k Hk. destruct (H k Hk) as (_ & -> & ->). reflexivity.
Qed.

Lemma avgFloats_two (a b : float) :
  is_nan a = false -> is_nan b = false ->
  avgFloats [a; b; nan] = ((0 + a + b) / 2)%float /\
  avgFloats [b; nan; nan] = ((0 + b) / 1)%float.
Proof.
  intros Ha Hb. unfold avgFloats. cbn [fold_left].
  rewrite Ha, Hb. change (is_nan nan) with true. cbn iota. split; reflexivity.
Qed.

(** C4, amended.  When the period sequence declares Q1..Q4 and the selected
    group has entries for Q1 and Q2 only, the record keeps the four labels,
    the revenue is [v1, v2, "not declared", "not declared"], the latest
    revenue change is computed from v1 and v2, and the average-of-3 revenue
    change is the percent change between the mean of the numeric values
    among slots 0..2 and the mean of those among slots 1..3: with v1 and
    v2 numeric, between (v1 + v2) / 2 and v2. *)
Theorem two_of_four_periods
    (Marshal : JSON -> string) (json_decode : string -> option JSON)
    (shortName fundJSON : string) (root body qd dump qmap1 qmap2 : object) :
  Unmarshal_root json_decode fundJSON = Some (Some root) ->
  as_object (lookup root "body") = Some body ->
  as_array (lookup body "quarterlyOrder") =
    Some [JString "Q1"; JString "Q2"; JString "Q3"; JString "Q4"] ->
  lookup body "quarterlyDataDump" = Some (JObject qd) ->
  chooseBestDump qd ["Q1"; "Q2"; "Q3"; "Q4"] = Some dump ->
  lookup dump "Q1" = Some (JObject qmap1) ->
  lookup dump "Q2" = Some (JObject qmap2) ->
  (forall k, In k (keys dump) -> k = "Q1" \/ k = "Q2") ->
  let cr := ParseCompanyFundamentals Marshal json_decode shortName fundJSON in
  let v1 := valueFromMap Marshal qmap1 revenue_keys in
  let v2 := valueFromMap Marshal qmap2 revenue_keys in
  let n1 := quarterValueToFloat64 v1 in
  let n2 := quarterValueToFloat64 v2 in
  Quarters cr = ["Q1"; "Q2"; "Q3"; "Q4"] /\
  Revenue cr = [v1; v2; not_declared; not_declared] /\
  RevenueNums cr = [n1; n2; nan; nan] /\
  RevPct (row_stats cr) = pctOrNaN n1 n2 /\
  Avg3RevChange (row_stats cr) =
    pctOrNaN (avgFloats [n1; n2; nan]) (avgFloats [n2; nan; nan]) /\
  (is_nan n1 = false -> is_nan n2 = false ->
   Avg3RevChange (row_stats cr) = pctOrNaN ((0 + n1 + n2) / 2) ((0 + n2) / 1))%float.
Proof.
  intros Hroot Hbody Hqo Hqd Hdump H1 H2 Hkeys cr v1 v2 n1 n2.
  assert (Hmiss : forall q, q = "Q3" \/ q = "Q4" ->
            read_quarter Marshal (Some dump) q = (not_declared, not_declared)).
  { intros q Hq. unfold read_quarter.
    assert (Hl : lookup dump q = None).
    { assert (G : forall (d : object), (forall k, In k (keys d) -> k = "Q1" \/ k = "Q2") ->
                                      lookup d q = None).
      { induction d as [| [k v] d IH]; intros Hk; [reflexivity |].
        cbn [lookup]. destruct (String.eqb_spec q k) as [-> | _].
        - exfalso. specialize (Hk k (or_introl eq_refl)).
          destruct Hq as [-> | ->], Hk as [Hk | Hk]; discriminate Hk.
        - apply IH. intros k' Hk'. apply Hk. now right. }
      now apply G. }
    rewrite Hl. cbn [as_object].
    rewrite findQuarterKey_no_match; [reflexivity |].
    intros k Hk. destruct (Hkeys k Hk) as [-> | ->], Hq as [-> | ->];
      repeat split; reflexivity. }
  assert (Ecr : cr =
    {| Company := shortName; LongName := "";
       Quarters := ["Q1"; "Q2"; "Q3"; "Q4"];
       Revenue := [v1; v2; not_declared; not_declared];
       NetProfit := [valueFromMap Marshal qmap1 netprofit_keys;
                     valueFromMap Marshal qmap2 netprofit_keys;
                     not_declared; not_declared];
       RevenueNums := [n1; n2; nan; nan];
       NetProfitNums :=
         [quarterValueToFloat64 (valueFromMap Marshal qmap1 netprofit_keys);
          quarterValueToFloat64 (valueFromMap Marshal qmap2 netprofit_keys);
          nan; nan] |}).
  { subst cr. unfold ParseCompanyFundamentals.
    rewrite Hroot, Hbody, Hqo, Hqd. cbn [string_items]. rewrite Hdump.
    cbn [List.length Nat.ltb Nat.leb firstn map].
    rewrite (Hmiss "Q3") by now left. rewrite (Hmiss "Q4") by now right.
    unfold read_quarter. rewrite H1, H2. cbn [as_object fst snd pad_loop].
    cbn [Quarters List.length Nat.ltb Nat.leb map].
    reflexivity. }
  rewrite Ecr. cbn [Quarters Revenue RevenueNums].
  repeat (split; [reflexivity |]).
  intros Hn1 Hn2.
  change (Avg3RevChange _) with
    (pctOrNaN (avgFloats [n1; n2; nan]) (avgFloats [n2; nan; nan])).
  destruct (avgFloats_two n1 n2 Hn1 Hn2) as [-> ->]. reflexivity.
Qed.

Lemma two_of_four_periods_witness :
  let cr := ParseCompanyFundamentals Marshal_outline (fun _ => Some acme_document)
              "ACME" "{}" in
  Quarters cr = ["Q1"; "Q2"; "Q3"; "Q4"] /\
  Avg3RevChange (row_stats cr) = pctOrNaN ((0 + 110 + 100) / 2) ((0 + 100) / 1)%float.
Proof.
  destruct (two_of_four_periods Marshal_outline (fun _ => Some acme_document)
              "ACME" "{}"
              [("body",
                 JObject
                   [("quarterlyOrder",
                      JArray [JString "Q1"; JString "Q2"; JString "Q3"; JString "Q4"]);
                    ("quarterlyDataDump",
                      JObject
                        [("consolidated",
                           JObject [("Q1", acme_quarter 110 7);
                                    ("Q2", acme_quarter 100 5)])])])]
              [("quarterlyOrder",
                 JArray [JString "Q1"; JString "Q2"; JString "Q3"; JString "Q4"]);
               ("quarterlyDataDump",
                 JObject
                   [("consolidated",
                      JObject [("Q1", acme_quarter 110 7);
                               ("Q2", acme_quarter 100 5)])])]
              [("consolidated",
                 JObject [("Q1", acme_quarter 110 7); ("Q2", acme_quarter 100 5)])]
              [("Q1", acme_quarter 110 7); ("Q2", acme_quarter 100 5)]
              [("TOTAL_SR_Q", JNumber 110); ("NP_Q", JNumber 7)]
              [("TOTAL_SR_Q", JNumber 100); ("NP_Q", JNumber 5)])
    as (HQ & _ & _ & _ & _ & HA); try reflexivity.
  - simpl. intros k [<- | [<- | []]]; [now left | now right].
  - split; [exact HQ |]. apply HA; reflexivity.
Defined.

(** ** The concurrent batch (main.go) *)

Section Batch.

Variable Marshal : JSON -> string.
Variable json_decode : string -> option JSON.
Variable FetchTrendSearch : string -> result (list TrendItem).
Variable ExtractFundamentalsURLFromPage : string -> result string.
Variable http_get : string -> string -> result string.

Abbreviation worker' :=
  (worker Marshal json_decode FetchTrendSearch ExtractFundamentalsURLFromPage http_get).
Abbreviation step' :=
  (step Marshal json_decode FetchTrendSearch ExtractFundamentalsURLFromPage http_get).
Abbreviation steps' :=
  (steps Marshal json_decode FetchTrendSearch ExtractFundamentalsURLFromPage http_get).
Abbreviation reachable' :=
  (reachable Marshal json_decode FetchTrendSearch ExtractFundamentalsURLFromPage http_get).
Abbreviation failed' :=
  (failed Marshal json_decode FetchTrendSearch ExtractFundamentalsURLFromPage http_get).

(** The records among a sequence of outcomes, in order. *)
Fixpoint successes (l : list (result CompanyResult)) : list CompanyResult :=
  match l with
  | [] => []
  | Ok cr :: l' => cr :: successes l'
  | Err _ :: l' => successes l'
  end.

Lemma gather_fold (l : list (result CompanyResult)) (acc : list CompanyResult) :
  fold_left collect l acc = acc ++ successes l.
Proof.
  revert acc. induction l as [| [cr | e] l IH]; intros acc; simpl.
  - now rewrite app_nil_r.
  - rewrite IH, <- app_assoc. reflexivity.
  - apply IH.
Qed.

Lemma gather_successes (l : list (result CompanyResult)) : gather l = successes l.
Proof. unfold gather. now rewrite gather_fold. Qed.

Lemma successes_perm (l l' : list (result CompanyResult)) :
  Permutation l l' -> Permutation (successes l) (successes l').
Proof.
  induction 1 as [| x l l' _ IH | x y l | l l' l'' _ IH1 _ IH2].
  - constructor.
  - destruct x; simpl; [now constructor | assumption].
  - destruct x, y; simpl; try apply Permutation_refl. apply perm_swap.
  - now transitivity (successes l').
Qed.

Lemma successes_length (items : list BSEItem) :
  List.length (successes (map worker' items)) =
  (List.length items - List.length (filter failed' items))%nat.
Proof.
  induction items as [| itm items IH]; [reflexivity |].
  pose proof (filter_length_le failed' items) as Hle.
  cbn [map filter]. unfold failed in *.
  destruct (worker' itm); cbn [successes List.length]; rewrite IH; lia.
Qed.

Definition holds_token (w : BSEItem * wphase) : bool :=
  match snd w with
  | Released => false
  | _ => true
  end.

Definition is_working (w : BSEItem * wphase) : bool :=
  match snd w with
  | Working => true
  | _ => false
  end.

(** The items whose goroutine has not sent yet. *)
Definition unsent (ws : list (BSEItem * wphase)) : list BSEItem :=
  map fst (filter is_working ws).

Record inv (items : list BSEItem) (s : state) : Prop := {
  inv_sem : sem s = List.length (filter holds_token (workers s));
  inv_wg : wg s = List.length (workers s);
  inv_cap : capacity s = List.length items;
  inv_perm :
    Permutation (map worker' items)
      (received s ++ resultsCh s ++ map worker' (unsent (workers s)) ++
       map worker' (todo s));
  inv_closed : closer s = Closed -> workers s = [];
  inv_started : closer s <> NotStarted -> todo s = [];
  inv_results : results s = gather (received s);
  inv_finished : finished s = true -> closer s = Closed /\ resultsCh s = [];
}.

Lemma unsent_app (ws1 ws2 : list (BSEItem * wphase)) :
  unsent (ws1 ++ ws2) = unsent ws1 ++ unsent ws2.
Proof. unfold unsent. now rewrite filter_app, map_app. Qed.

Lemma inv_init (items : list BSEItem) : inv items (init items).
Proof.
  constructor; simpl; try reflexivity; try discriminate.
  intros H. now elim H.
Qed.

Lemma inv_step (items : list BSEItem) (s s' : state) :
  inv items s -> step' s s' -> inv items s'.
Proof.
  intros [Hsem Hwg Hcap Hperm Hclosed Hstarted Hres Hfin] Hstep.
  inversion Hstep as
    [ itm rest s0 Htodo Hlt | itm ws1 ws2 s0 Hws Hroom Hopen
    | itm ws1 ws2 n s0 Hws Hs | itm ws1 ws2 n s0 Hws Hw
    | s0 Htodo Hc | s0 Hc Hw | r rest s0 Hc Hf Hch | s0 Hc Hf Hch ];
    subst; constructor; simpl; try assumption.
  - (* dispatch *)
    rewrite filter_app, length_app. simpl. lia.
  - rewrite length_app. simpl. lia.
  - rewrite Htodo in Hperm. rewrite unsent_app, map_app. simpl.
    rewrite <- !app_assoc. exact Hperm.
  - intros Hc.
    assert (Hn : closer s <> NotStarted) by (rewrite Hc; discriminate).
    apply Hstarted in Hn. rewrite Hn in Htodo. discriminate Htodo.
  - intros Hn. apply Hstarted in Hn. rewrite Hn in Htodo. discriminate Htodo.
  - (* send *)
    rewrite Hsem, Hws, !filter_app, !length_app. reflexivity.
  - rewrite Hwg, Hws, !length_app. reflexivity.
  - rewrite Hws in Hperm. rewrite unsent_app in *.
    change (unsent ((itm, Working) :: ws2)) with (itm :: unsent ws2) in Hperm.
    change (unsent ((itm, Sent) :: ws2)) with (unsent ws2).
    etransitivity; [exact Hperm |].
    apply Permutation_app_head. rewrite <- app_assoc.
    apply Permutation_app_head. rewrite !map_app. simpl.
    rewrite <- !app_assoc. simpl.
    apply Permutation_sym. apply Permutation_middle.
  - intros Hc. now elim Hopen.
  - intros Hf. apply Hfin in Hf as [Hf _]. now elim Hopen.
  - (* release *)
    rewrite Hs in Hsem. rewrite Hws, !filter_app, !length_app in Hsem.
    rewrite !filter_app, !length_app. simpl in *. lia.
  - rewrite Hwg, Hws, !length_app. reflexivity.
  - rewrite Hws in Hperm. rewrite unsent_app in *. exact Hperm.
  - intros Hc. apply Hclosed in Hc. rewrite Hc in Hws.
    destruct ws1; discriminate Hws.
  - (* done *)
    rewrite Hsem, Hws, !filter_app, !length_app. reflexivity.
  - rewrite Hw in Hwg. rewrite Hws, !length_app in Hwg.
    rewrite !length_app. simpl in *. lia.
  - rewrite Hws in Hperm. rewrite unsent_app in *. exact Hperm.
  - intros Hc. apply Hclosed in Hc. rewrite Hc in Hws.
    destruct ws1; discriminate Hws.
  - (* spawn closer *)
    discriminate.
  - intros _. assumption.
  - intros Hf. apply Hfin in Hf as [Hf _]. rewrite Hf in Hc. discriminate Hc.
  - (* close *)
    intros _. rewrite Hw in Hwg. destruct (workers s); [reflexivity | discriminate].
  - intros _. assert (Hn : closer s <> NotStarted) by (rewrite Hc; discriminate).
    now apply Hstarted.
  - intros Hf. apply Hfin in Hf as [Hf _]. rewrite Hf in Hc. discriminate Hc.
  - (* receive *)
    rewrite Hch in Hperm. rewrite <- app_assoc. exact Hperm.
  - rewrite Hres. unfold gather. now rewrite fold_left_app.
  - intros Hf'. rewrite Hf' in Hf. discriminate Hf.
  - (* finish *)
    intros _. split; assumption.
Qed.

Lemma inv_steps (items : list BSEItem) (n : nat) (s s' : state) :
  inv items s -> steps' n s s' -> inv items s'.
Proof.
  intros H Hs. induction Hs as [| n s1 s2 s3 H12 _ IH]; [assumption |].
  apply IH. now apply (inv_step items s1).
Qed.

Lemma inv_reachable (items : list BSEItem) (s : state) :
  reachable' items s -> inv items s.
Proof. intros [n Hn]. apply (inv_steps items n (init items)); [apply inv_init | assumption]. Qed.

(** *** Termination: a measure that every step decreases by one *)

Definition wweight (w : BSEItem * wphase) : nat :=
  match snd w with
  | Working => 4
  | Sent => 2
  | Released => 1
  end.

Definition cweight (c : cphase) : nat :=
  match c with
  | NotStarted => 2
  | Waiting => 1
  | Closed => 0
  end.

Definition measure (s : state) : nat :=
  5 * List.length (todo s) + list_sum (map wweight (workers s)) +
  List.length (resultsCh s) + cweight (closer s) +
  (if finished s then 0 else 1).

Lemma step_measure (s s' : state) : step' s s' -> measure s = S (measure s').
Proof.
  intros Hstep.
  inversion Hstep as
    [ itm rest s0 Htodo Hlt | itm ws1 ws2 s0 Hws Hroom Hopen
    | itm ws1 ws2 n s0 Hws Hs | itm ws1 ws2 n s0 Hws Hw
    | s0 Htodo Hc | s0 Hc Hw | r rest s0 Hc Hf Hch | s0 Hc Hf Hch ];
    subst; unfold measure; simpl;
    try rewrite Htodo; try rewrite Hws; try rewrite Hc; try rewrite Hch;
    try rewrite Hf;
    rewrite ?map_app, ?list_sum_app, ?length_app; simpl; lia.
Qed.

Lemma steps_measure (n : nat) (s s' : state) :
  steps' n s s' -> measure s = (n + measure s')%nat.
Proof.
  induction 1 as [| n s1 s2 s3 H12 _ IH]; [reflexivity |].
  apply step_measure in H12. lia.
Qed.

Lemma steps_trans (n m : nat) (s1 s2 s3 : state) :
  steps' n s1 s2 -> steps' m s2 s3 -> steps' (n + m) s1 s3.
Proof.
  induction 1 as [| n s1 s2 s2' H12 _ IH]; intros H; [assumption |].
  simpl. eapply steps_next; [exact H12 | now apply IH].
Qed.

(** *** Progress: no reachable state is stuck before the end *)

Lemma holding_worker (ws : list (BSEItem * wphase)) :
  (0 < List.length (filter holds_token ws))%nat ->
  exists itm ws1 ws2,
    ws = ws1 ++ (itm, Working) :: ws2 \/ ws = ws1 ++ (itm, Sent) :: ws2.
Proof.
  intros H. destruct (filter holds_token ws) as [| [itm ph] l] eqn:E; [simpl in H; lia |].
  assert (Hin : In (itm, ph) (filter holds_token ws)) by (rewrite E; now left).
  apply filter_In in Hin as [Hin Hph].
  apply in_split in Hin as (ws1 & ws2 & ->).
  exists itm, ws1, ws2. destruct ph; [now left | now right | discriminate Hph].
Qed.

Lemma room_for_unsent (items : list BSEItem) (s : state) itm ws1 ws2 :
  inv items s ->
  workers s = ws1 ++ (itm, Working) :: ws2 ->
  (List.length (resultsCh s) < capacity s)%nat.
Proof.
  intros [_ _ Hcap Hperm _ _ _ _] Hws.
  apply Permutation_length in Hperm.
  rewrite Hws, unsent_app in Hperm.
  change (unsent ((itm, Working) :: ws2)) with (itm :: unsent ws2) in Hperm.
  rewrite !length_app, !length_map, !length_app in Hperm. simpl in Hperm.
  rewrite Hcap. lia.
Qed.

Lemma progress (items : list BSEItem) (s : state) :
  inv items s -> finished s = false -> exists s', step' s s'.
Proof.
  intros Hinv Hf. pose proof Hinv as [Hsem Hwg Hcap Hperm Hclosed Hstarted Hres Hfin].
  assert (Hworker : forall itm ph ws1 ws2,
             workers s = ws1 ++ (itm, ph) :: ws2 -> closer s <> Closed ->
             exists s', step' s s').
  { intros itm ph ws1 ws2 Hws Hopen. destruct ph.
    - eexists. eapply step_send; [exact Hws | | exact Hopen].
      now apply (room_for_unsent items s itm ws1 ws2).
    - rewrite Hws, filter_app, length_app in Hsem. simpl in Hsem.
      destruct (sem s) as [| n] eqn:Es; [lia |].
      eexists. eapply step_release; [exact Hws | exact Es].
    - rewrite Hws, length_app in Hwg. simpl in Hwg.
      destruct (wg s) as [| n] eqn:Ew; [lia |].
      eexists. eapply step_done; [exact Hws | exact Ew]. }
  destruct (todo s) as [| itm rest] eqn:Htodo.
  - destruct (closer s) eqn:Hc.
    + eexists. now apply step_spawn_closer.
    + destruct (resultsCh s) as [| r ch] eqn:Hch.
      * destruct (workers s) as [| [itm ph] ws] eqn:Hws.
        -- eexists. apply step_close; [exact Hc | now rewrite Hwg].
        -- apply (Hworker itm ph [] ws); [reflexivity | discriminate].
      * eexists. eapply step_receive; [rewrite Hc; discriminate | exact Hf | exact Hch].
    + destruct (resultsCh s) as [| r ch] eqn:Hch.
      * eexists. now apply step_finish.
      * eexists. eapply step_receive; [rewrite Hc; discriminate | exact Hf | exact Hch].
  - assert (Hc : closer s = NotStarted).
    { destruct (closer s); [reflexivity | |];
        specialize (Hstarted ltac:(discriminate)); discriminate Hstarted. }
    destruct (Nat.ltb_spec (sem s) maxConcurrent) as [Hlt | Hge].
    + eexists. eapply step_dispatch; [exact Htodo | exact Hlt].
    + assert (Hpos : (0 < List.length (filter holds_token (workers s)))%nat).
      { rewrite <- Hsem. unfold maxConcurrent in Hge. lia. }
      apply holding_worker in Hpos as (itm' & ws1 & ws2 & [Hws | Hws]).
      * apply (Hworker itm' Working ws1 ws2 Hws). rewrite Hc. discriminate.
      * apply (Hworker itm' Sent ws1 ws2 Hws). rewrite Hc. discriminate.
Qed.

Lemma run_to_end (items : list BSEItem) (k : nat) :
  forall s, inv items s -> measure s = k ->
            exists n s', steps' n s s' /\ finished s' = true.
Proof.
  induction k as [k IH] using lt_wf_ind. intros s Hinv Hk.
  destruct (finished s) eqn:Hf.
  - exists 0%nat, s. split; [constructor | assumption].
  - destruct (progress items s Hinv Hf) as [s1 H1].
    pose proof (step_measure s s1 H1) as Hm.
    destruct (IH (measure s1) ltac:(lia) s1 (inv_step items s s1 Hinv H1) eq_refl)
      as (n & s' & Hn & Hf').
    exists (S n), s'. split; [| assumption].
    eapply steps_next; [exact H1 | exact Hn].
Qed.

(** The protocol of [step], in which every request can be built and no
    goroutine panics.  For every batch of N entities of which K fail,
    whatever the interleaving of the goroutines: no state reached before
    the end of the gather loop is stuck (no deadlock), no worker sends on
    the closed
    channel, every run ends within 5N + 3 steps and some run does end; and
    at the end the output holds exactly N - K records, which are the
    records of the entities that did not fail.  An entity whose search
    returns no candidate is one of the K. *)
Theorem batch_completes (items : list BSEItem) :
  let N := List.length items in
  let K := List.length (filter failed' items) in
  (forall s, reachable' items s -> finished s = false -> exists s', step' s s') /\
  (forall s, reachable' items s -> closer s = Closed -> workers s = []) /\
  (forall n s, steps' n (init items) s -> (n <= 5 * N + 3)%nat) /\
  (exists s, reachable' items s /\ finished s = true) /\
  (forall s, reachable' items s -> finished s = true ->
     List.length (results s) = (N - K)%nat /\
     Permutation (results s) (successes (map worker' items)) /\
     forall s', ~ step' s s') /\
  (forall itm, FetchTrendSearch (ShortName itm) = Ok [] -> failed' itm = true).
Proof.
  intros N K. subst N K.
  assert (Hend : forall s, reachable' items s -> finished s = true ->
             todo s = [] /\ workers s = [] /\ closer s = Closed /\
             results s = successes (received s) /\
             Permutation (received s) (map worker' items)).
  { intros s Hr Hf.
    pose proof (inv_reachable items s Hr) as
      [_ _ _ Hperm Hclosed Hstarted Hres Hfin].
    destruct (Hfin Hf) as [Hc Hch].
    assert (Ht : todo s = []) by (apply Hstarted; rewrite Hc; discriminate).
    specialize (Hclosed Hc).
    rewrite Hch, Hclosed, Ht in Hperm. simpl in Hperm. rewrite app_nil_r in Hperm.
    rewrite Hres, gather_successes. repeat split; try assumption.
    now apply Permutation_sym. }
  split; [| split; [| split; [| split; [| split]]]].
  - intros s Hr Hf. apply (progress items s); [now apply inv_reachable | assumption].
  - intros s Hr. now apply (inv_closed items s), inv_reachable.
  - intros n s Hs. apply steps_measure in Hs.
    unfold measure in Hs at 1. simpl in Hs. lia.
  - destruct (run_to_end items _ (init items) (inv_init items) eq_refl)
      as (n & s & Hs & Hf).
    exists s. split; [now exists n | assumption].
  - intros s Hr Hf. destruct (Hend s Hr Hf) as (Ht & Hw & Hc & Hres & Hperm).
    split; [| split].
    + rewrite Hres, <- successes_length.
      now apply Permutation_length, successes_perm.
    + rewrite Hres. now apply successes_perm.
    + intros s' Hstep.
      inversion Hstep as
        [ itm rest s0 Htodo Hlt | itm ws1 ws2 s0 Hws Hroom Hopen
        | itm ws1 ws2 n s0 Hws Hs | itm ws1 ws2 n s0 Hws Hwg
        | s0 Htodo Hc' | s0 Hc' Hwg | r rest s0 Hc' Hf' Hch | s0 Hc' Hf' Hch ];
        subst; try congruence;
        rewrite Hw in Hws; destruct ws1; discriminate Hws.
  - intros itm Hs. unfold failed, worker. now rewrite Hs.
Qed.

End Batch.

(** ** Rounding to the nearest integer *)

Lemma rne_div_cases (a b : Z) :
  0 <= a -> 0 < b ->
  exists q r,
    a = b * q + r /\ 0 <= r < b /\ 0 <= q /\
    ((rne_div a b = q /\ 2 * r <= b) \/ (rne_div a b = q + 1 /\ b <= 2 * r)).
Proof.
  intros Ha Hb. exists (a / b), (a mod b).
  pose proof (Z.div_mod a b ltac:(lia)) as Hdm.
  pose proof (Z.mod_pos_bound a b Hb) as Hr.
  assert (Hq : 0 <= a / b) by (apply Z.div_pos; lia).
  repeat split; try lia.
  unfold rne_div.
  destruct (Z.ltb_spec (2 * (a mod b)) b); [left; lia |].
  destruct (Z.ltb_spec b (2 * (a mod b))); [right; lia |].
  destruct (Z.even (a / b)); [left | right]; lia.
Qed.

(** The result is a nearest integer to [a / b]. *)
Lemma rne_div_nearest (a b z : Z) :
  0 <= a -> 0 < b -> Z.abs (b * rne_div a b - a) <= Z.abs (b * z - a).
Proof.
  intros Ha Hb.
  destruct (rne_div_cases a b Ha Hb) as (q & r & Ea & Hr & Hq & [[-> H] | [-> H]]).
  - destruct (Z_le_gt_dec z q); nia.
  - destruct (Z_le_gt_dec z q); nia.
Qed.

(** It is within one half of [a / b]. *)
Lemma rne_div_half (a b : Z) :
  0 <= a -> 0 < b -> 2 * Z.abs (b * rne_div a b - a) <= b.
Proof.
  intros Ha Hb.
  destruct (rne_div_cases a b Ha Hb) as (q & r & Ea & Hr & Hq & [[-> H] | [-> H]]); nia.
Qed.

Lemma rne_div_upper (a b hi : Z) :
  0 <= a -> 0 < b -> a <= hi * b -> rne_div a b <= hi.
Proof.
  intros Ha Hb H.
  destruct (rne_div_cases a b Ha Hb) as (q & r & Ea & Hr & Hq & [[-> H'] | [-> H']]); nia.
Qed.

Lemma rne_div_lower (a b lo : Z) :
  0 <= a -> 0 < b -> lo * b <= a -> lo <= rne_div a b.
Proof.
  intros Ha Hb H.
  destruct (rne_div_cases a b Ha Hb) as (q & r & Ea & Hr & Hq & [[-> H'] | [-> H']]); nia.
Qed.

(** ** Rounding to binary64 *)

(** Magnitudes are measured in units of [2^-1074], of which every finite
    binary64 number is an integer multiple. *)
Definition sf_mag (sf : spec_float) : Z :=
  match sf with
  | S754_finite _ m e => Zpos m * 2 ^ (e + 1074)
  | _ => 0
  end.

Definition sf_sign (sf : spec_float) : bool :=
  match sf with
  | S754_zero s => s
  | S754_infinity s => s
  | S754_finite s _ _ => s
  | S754_nan => false
  end.

Definition sf_finite (sf : spec_float) : bool :=
  match sf with
  | S754_zero _ => true
  | S754_finite _ _ _ => true
  | _ => false
  end.

(** The magnitude of the number that [round_float64] builds. *)
Definition round_mag (a b : Z) : Z :=
  let w := a * 2 ^ 1075 / b in
  if w =? 0 then 0
  else
    let E := Z.max (Z.log2 w - 1075 - 52) (-1074) in
    rne_div (a * 2 ^ 1074) (b * 2 ^ (E + 1074)) * 2 ^ (E + 1074).

Lemma pow2_pos (n : Z) : 0 <= n -> 0 < 2 ^ n.
Proof. intros. apply Z.pow_pos_nonneg; lia. Qed.

Lemma pow2_split (n m : Z) : 0 <= n -> 0 <= m -> 2 ^ (n + m) = 2 ^ n * 2 ^ m.
Proof. intros. apply Z.pow_add_r; assumption. Qed.

(** The binade of [a / b]: with [w] the integer part of [a / b * 2^1075]
    and [lw] its binary logarithm, [2^lw <= a / b * 2^1075 < 2^(lw+1)]. *)
Lemma binade (a b : Z) :
  0 <= a -> 0 < b ->
  let w := a * 2 ^ 1075 / b in
  w <> 0 ->
  0 <= Z.log2 w /\
  2 ^ Z.log2 w * b <= 2 * (a * 2 ^ 1074) /\
  2 * (a * 2 ^ 1074) < 2 ^ (Z.log2 w + 1) * b.
Proof.
  intros Ha Hb w Hw.
  assert (E : a * 2 ^ 1075 = 2 * (a * 2 ^ 1074)).
  { change 1075 with (1074 + 1). rewrite pow2_split by lia. change (2 ^ 1) with 2. ring. }
  assert (Hw0 : 0 <= w) by (apply Z.div_pos; [pose proof (pow2_pos 1075); nia | lia]).
  assert (Hwp : 0 < w) by lia.
  pose proof (Z.log2_spec w Hwp) as [Hlo Hhi].
  pose proof (Z.log2_nonneg w) as Hl.
  pose proof (Z.mul_div_le (a * 2 ^ 1075) b Hb) as Hd1.
  pose proof (Z.mul_succ_div_gt (a * 2 ^ 1075) b Hb) as Hd2.
  fold w in Hd1, Hd2. rewrite E in Hd1, Hd2.
  replace (Z.succ (Z.log2 w)) with (Z.log2 w + 1) in Hhi by lia.
  repeat split; [assumption | nia | nia].
Qed.

(** No multiple [m * 2^s] of the unit with fewer than 54 significant
    bits is nearer to [a / b] than the result. *)
Lemma round_mag_nearest (a b m s : Z) :
  0 <= a -> 0 < b -> 0 <= m < 2 ^ 53 -> 0 <= s ->
  Z.abs (b * round_mag a b - a * 2 ^ 1074) <= Z.abs (b * (m * 2 ^ s) - a * 2 ^ 1074).
Proof.
  intros Ha Hb Hm Hs. unfold round_mag.
  set (A := a * 2 ^ 1074).
  assert (HA : 0 <= A) by (subst A; pose proof (pow2_pos 1074); nia).
  pose proof (pow2_pos s Hs) as Hps.
  destruct (Z.eqb_spec (a * 2 ^ 1075 / b) 0) as [Hw | Hw].
  - apply Z.div_small_iff in Hw; [| lia].
    assert (E : a * 2 ^ 1075 = 2 * A).
    { subst A. change 1075 with (1074 + 1). rewrite pow2_split by lia.
      change (2 ^ 1) with 2. ring. }
    destruct (Z.eq_dec m 0) as [-> | Hm0]; [lia |].
    assert (1 <= m * 2 ^ s) by nia. nia.
  - destruct (binade a b Ha Hb Hw) as (Hl & HL & HU).
    fold A in HL, HU.
    set (lw := Z.log2 (a * 2 ^ 1075 / b)) in *.
    set (E := Z.max (lw - 1075 - 52) (-1074)).
    set (S := E + 1074).
    assert (HS : S = Z.max (lw - 53) 0) by (subst S E; lia).
    assert (HS0 : 0 <= S) by lia.
    pose proof (pow2_pos S HS0) as HpS.
    destruct (Z_le_gt_dec S s) as [Hle | Hgt].
    + replace (m * 2 ^ s) with (m * 2 ^ (s - S) * 2 ^ S).
      2:{ replace s with ((s - S) + S) at 2 by lia. rewrite pow2_split by lia. ring. }
      pose proof (rne_div_nearest A (b * 2 ^ S) (m * 2 ^ (s - S)) HA ltac:(nia)) as Hn.
      replace (b * (rne_div A (b * 2 ^ S) * 2 ^ S) - A)
        with (b * 2 ^ S * rne_div A (b * 2 ^ S) - A) by ring.
      replace (b * (m * 2 ^ (s - S) * 2 ^ S) - A)
        with (b * 2 ^ S * (m * 2 ^ (s - S)) - A) by ring.
      exact Hn.
    + assert (HSl : S = lw - 53) by lia.
      assert (Hlw : 2 ^ lw = 2 * (2 ^ 52 * 2 ^ S)).
      { replace lw with (1 + (52 + S)) by lia.
        rewrite !pow2_split by lia. change (2 ^ 1) with 2. ring. }
      assert (Hsm : 2 ^ s * 2 <= 2 ^ S).
      { replace S with ((S - s - 1) + (s + 1)) by lia.
        rewrite !pow2_split by lia. change (2 ^ 1) with 2.
        pose proof (pow2_pos (S - s - 1) ltac:(lia)). nia. }
      pose proof (rne_div_nearest A (b * 2 ^ S) (2 ^ 52) HA ltac:(nia)) as Hn.
      replace (b * (rne_div A (b * 2 ^ S) * 2 ^ S) - A)
        with (b * 2 ^ S * rne_div A (b * 2 ^ S) - A) by ring.
      assert (Hx : m * 2 ^ s < 2 ^ 52 * 2 ^ S).
      { change (2 ^ 53) with (2 ^ 52 * 2) in Hm. nia. }
      nia.
Qed.

Lemma digits2_pos_log2 (p : positive) :
  Zpos (digits2_pos p) = Z.log2 (Zpos p) + 1.
Proof.
  assert (H : forall q, digits2_pos q = Pos.size q)
    by (induction q as [q IH | q IH |]; simpl; congruence).
  rewrite H. destruct p; simpl; lia.
Qed.

(** A significand and an exponent in the binary64 format: fewer than 54
    bits, and exactly 53 unless the exponent is the least one. *)
Lemma valid_binary_intro (s : bool) (n E : Z) :
  0 < n < 2 ^ 53 -> (2 ^ 52 <= n \/ E = -1074) -> -1074 <= E <= 971 ->
  valid_binary (S754_finite s (Z.to_pos n) E) = true.
Proof.
  intros Hn Hnorm HE.
  unfold valid_binary, SpecFloat.valid_binary, bounded, canonical_mantissa, fexp, emin, prec, emax.
  rewrite digits2_pos_log2, Z2Pos.id by lia.
  apply andb_true_intro. split; [| apply Z.leb_le; lia].
  apply Z.eqb_eq.
  assert (Hlog : Z.log2 n < 53) by (apply Z.log2_lt_pow2; lia).
  destruct Hnorm as [Hge | ->]; [| lia].
  assert (52 <= Z.log2 n) by (apply Z.log2_le_pow2; lia).
  lia.
Qed.

Lemma valid_binary_elim (s : bool) (m : positive) (e : Z) :
  valid_binary (S754_finite s m e) = true ->
  Zpos m < 2 ^ 53 /\ -1074 <= e <= 971.
Proof.
  unfold valid_binary, SpecFloat.valid_binary, bounded, canonical_mantissa, fexp, emin, prec, emax.
  rewrite digits2_pos_log2. intros H.
  apply andb_prop in H as [H1 H2].
  apply Z.eqb_eq in H1. apply Z.leb_le in H2.
  split; [| lia]. apply Z.log2_lt_pow2; lia.
Qed.

(** [round_float64] succeeds when the magnitude is in range, and its
    result is a valid binary64 number of that magnitude and of the sign
    asked for. *)
Lemma round_float64_ok (neg : bool) (a b : Z) :
  0 <= a -> 0 < b -> round_mag a b < 2 ^ 2098 ->
  exists sf,
    round_float64 neg a b = Some sf /\
    valid_binary sf = true /\
    sf_finite sf = true /\ sf_sign sf = neg /\ sf_mag sf = round_mag a b.
Proof.
  intros Ha Hb. unfold round_float64, round_mag.
  destruct (Z.eqb_spec (a * 2 ^ 1075 / b) 0) as [Hw | Hw].
  { intros _. exists (S754_zero neg). now repeat split. }
  destruct (binade a b Ha Hb Hw) as (Hl & HL & HU).
  set (A := a * 2 ^ 1074) in *.
  assert (HA : 0 <= A) by (subst A; pose proof (pow2_pos 1074); nia).
  set (lw := Z.log2 (a * 2 ^ 1075 / b)) in *.
  set (E := Z.max (lw - 1075 - 52) (-1074)).
  set (S := E + 1074).
  assert (HS : S = Z.max (lw - 53) 0) by (subst S E; lia).
  assert (HS0 : 0 <= S) by lia.
  pose proof (pow2_pos S HS0) as HpS.
  set (n := rne_div A (b * 2 ^ S)).
  assert (Hn0 : 0 <= n) by (apply rne_div_lower; nia).
  assert (Hshape : n <= 2 ^ 53 /\ (2 ^ 52 <= n \/ (E = -1074 /\ n <= 2 ^ 52))).
  { destruct (Z_le_gt_dec 53 lw) as [Hn | Hsub].
    - assert (Hlw : 2 ^ lw = 2 ^ 53 * 2 ^ S).
      { replace lw with (53 + S) by lia. now rewrite pow2_split by lia. }
      assert (Hlw1 : 2 ^ (lw + 1) = 2 * 2 ^ lw).
      { rewrite pow2_split by lia. change (2 ^ 1) with 2. ring. }
      split.
      + apply rne_div_upper; nia.
      + left. apply rne_div_lower; [assumption | nia |].
        change (2 ^ 53) with (2 * 2 ^ 52) in Hlw. nia.
    - assert (HS1 : S = 0) by lia.
      assert (Hlw : 2 ^ (lw + 1) <= 2 ^ 53) by (apply Z.pow_le_mono_r; lia).
      assert (n <= 2 ^ 52).
      { apply rne_div_upper; [assumption | nia |].
        rewrite HS1. change (2 ^ 0) with 1.
        change (2 ^ 53) with (2 * 2 ^ 52) in Hlw. nia. }
      split; [change (2 ^ 53) with (2 * 2 ^ 52); lia |].
      right. split; [subst E; lia | assumption]. }
  destruct Hshape as [Hle Hnorm].
  assert (HE : -1074 <= E) by (subst E; lia).
  intros Hmag.
  destruct (Z.eqb_spec n (2 ^ 53)) as [Hn53 | Hn53].
  - (* the significand rounds up to 2^53 *)
    assert (HnormE : 2 ^ 52 <= n) by (rewrite Hn53; change (2 ^ 53) with (2 * 2 ^ 52); lia).
    replace (2 ^ 52 =? 0) with false by reflexivity.
    assert (HS2045 : S < 2045).
    { rewrite Hn53 in Hmag. change 2098 with (53 + 2045) in Hmag.
      rewrite (pow2_split 53 2045) in Hmag by lia.
      apply Z.mul_lt_mono_pos_l in Hmag; [| reflexivity].
      apply Z.pow_lt_mono_r_iff in Hmag; lia. }
    destruct (Z.ltb_spec 971 (E + 1)); [lia |].
    exists (S754_finite neg (Z.to_pos (2 ^ 52)) (E + 1)).
    split; [reflexivity |]. split; [| repeat split].
    + apply valid_binary_intro; [| now left | lia].
      split; reflexivity.
    + cbn [sf_mag]. rewrite Z2Pos.id by reflexivity. rewrite Hn53.
      replace (E + 1 + 1074) with (1 + S) by lia.
      rewrite pow2_split by lia. change (2 ^ 1) with 2.
      change (2 ^ 53) with (2 ^ 52 * 2). ring.
  - destruct (Z.eqb_spec n 0) as [Hz | Hz].
    + exists (S754_zero neg). repeat split. cbn [sf_mag]. rewrite Hz. ring.
    + assert (HEmax : E <= 971).
      { destruct Hnorm as [Hge | [-> _]]; [| lia].
        destruct (Z_le_gt_dec E 971) as [| Hbig]; [assumption | exfalso].
        assert (2 ^ 2046 <= 2 ^ S) by (apply Z.pow_le_mono_r; lia).
        change 2098 with (52 + 2046) in Hmag.
        rewrite (pow2_split 52 2046) in Hmag by lia. nia. }
      destruct (Z.ltb_spec 971 E); [lia |].
      exists (S754_finite neg (Z.to_pos n) E).
      split; [reflexivity |]. split; [| repeat split].
      * apply valid_binary_intro; [lia | | lia].
        destruct Hnorm as [Hge | [HEq _]]; [now left | now right].
      * cbn [sf_mag]. rewrite Z2Pos.id by lia. reflexivity.
Qed.

(** ** The arithmetic of the round trip *)

(** The hundredths printed differ from [100 * m * 2^e] by at most one
    half. *)
Lemma hundredths_close (m : positive) (e : Z) :
  -1074 <= e ->
  2 * Z.abs (hundredths (Zpos m) e * 2 ^ 1074 - 100 * (Zpos m * 2 ^ (e + 1074)))
  <= 2 ^ 1074.
Proof.
  intros He. unfold hundredths.
  pose proof (pow2_pos 1074 ltac:(lia)) as HP.
  destruct (Z.leb_spec 0 e) as [Hpos | Hneg].
  - rewrite (Z.add_comm e 1074), pow2_split by lia.
    replace (Z.pos m * 2 ^ e * 100 * 2 ^ 1074 - 100 * (Z.pos m * (2 ^ 1074 * 2 ^ e)))
      with 0 by ring.
    simpl Z.abs. lia.
  - set (D := 2 ^ (- e)). set (T := 2 ^ (e + 1074)).
    assert (HD : 0 < D) by (apply pow2_pos; lia).
    assert (HT : 0 < T) by (apply pow2_pos; lia).
    assert (HDT : D * T = 2 ^ 1074).
    { subst D T. rewrite <- pow2_split by lia. f_equal. lia. }
    pose proof (rne_div_half (Z.pos m * 100) D ltac:(lia) HD) as Hh.
    rewrite <- HDT.
    replace (rne_div (Z.pos m * 100) D * (D * T) - 100 * (Z.pos m * T))
      with (T * (D * rne_div (Z.pos m * 100) D - Z.pos m * 100)) by ring.
    rewrite Z.abs_mul, (Z.abs_eq T) by lia. nia.
Qed.

(** Printing [m * 2^e] with two decimals as [k] hundredths and rounding a
    fraction [a / b] equal to [k / 100] back to binary64 moves the
    magnitude by at most 0.01, and stays below the overflow threshold. *)
Lemma roundtrip_arith (m : positive) (e a b : Z) :
  Zpos m < 2 ^ 53 -> -1074 <= e <= 971 ->
  0 <= a -> 0 < b -> 100 * a = hundredths (Zpos m) e * b ->
  100 * Z.abs (round_mag a b - Zpos m * 2 ^ (e + 1074)) <= 2 ^ 1074 /\
  round_mag a b < 2 ^ 2098.
Proof.
  intros Hm He Ha Hb Hab.
  set (k := hundredths (Zpos m) e) in *.
  set (X := Z.pos m * 2 ^ (e + 1074)).
  set (Y := round_mag a b).
  pose proof (hundredths_close m e ltac:(lia)) as Hk. fold k X in Hk.
  pose proof (round_mag_nearest a b (Zpos m) (e + 1074) Ha Hb ltac:(lia) ltac:(lia))
    as Hnear. fold X Y in Hnear.
  set (P := 2 ^ 1074) in *.
  assert (Hu : Z.abs (100 * Y - k * P) <= Z.abs (100 * X - k * P)).
  { assert (H1 : b * (100 * Y - k * P) = 100 * (b * Y - a * P)) by nia.
    assert (H2 : b * (100 * X - k * P) = 100 * (b * X - a * P)) by nia.
    assert (H3 : Z.abs (b * (100 * Y - k * P)) <= Z.abs (b * (100 * X - k * P)))
      by (rewrite H1, H2, !Z.abs_mul; simpl Z.abs; lia).
    rewrite !Z.abs_mul, (Z.abs_eq b) in H3 by lia.
    apply Z.mul_le_mono_pos_l in H3; assumption. }
  assert (Hclose : 100 * Z.abs (Y - X) <= P) by lia.
  split; [exact Hclose |].
  assert (HX : X <= (2 ^ 53 - 1) * 2 ^ 2045).
  { subst X. assert (2 ^ (e + 1074) <= 2 ^ 2045) by (apply Z.pow_le_mono_r; lia).
    pose proof (pow2_pos (e + 1074) ltac:(lia)). nia. }
  assert (HP : P < 2 ^ 2045) by (subst P; apply Z.pow_lt_mono_r; lia).
  change 2098 with (53 + 2045). rewrite pow2_split by lia. lia.
Qed.

(** ** The text of a formatted number *)

#[local] Open Scope string_scope.
#[local] Open Scope Z_scope.

Fixpoint forall_chars (p : ascii -> bool) (s : string) : bool :=
  match s with
  | EmptyString => true
  | String c s' => p c && forall_chars p s'
  end.

Lemma forall_chars_app (p : ascii -> bool) (a b : string) :
  forall_chars p (a ++ b) = forall_chars p a && forall_chars p b.
Proof.
  induction a as [| c a IH]; simpl; [reflexivity |].
  now rewrite IH, andb_assoc.
Qed.

Lemma forall_chars_rev_acc (p : ascii -> bool) (s acc : string) :
  forall_chars p s = true -> forall_chars p acc = true ->
  forall_chars p (rev_acc s acc) = true.
Proof.
  revert acc. induction s as [| c s IH]; intros acc Hs Hacc; simpl in *; [assumption |].
  apply andb_prop in Hs as [Hc Hs]. apply IH; [assumption |]. simpl. now rewrite Hc.
Qed.

Lemma rev_acc_rev_acc (s a b : string) :
  rev_acc (rev_acc s a) b = rev_acc a (s ++ b).
Proof.
  revert a b. induction s as [| c s IH]; intros a b; simpl; [reflexivity |].
  now rewrite IH.
Qed.

Lemma append_nil_r (s : string) : s ++ "" = s.
Proof. induction s as [| c s IH]; simpl; congruence. Qed.

Lemma rev_involutive (s : string) : rev (rev s) = s.
Proof. unfold rev. rewrite rev_acc_rev_acc. simpl. apply append_nil_r. Qed.

(** A byte that is ASCII and not white space. *)
Definition solid (c : ascii) : bool := (code c <? 128) && negb (ascii_space c).

Lemma space_prefix_solid (c : ascii) (s : string) :
  solid c = true -> space_prefix (String c s) = 0%nat.
Proof.
  unfold solid. intros H. apply andb_prop in H as [Hc Hs].
  apply Z.ltb_lt in Hc. apply negb_true_iff in Hs.
  unfold space_prefix, space2, space3. rewrite Hs.
  assert (E1 : (code c =? 194) = false) by (apply Z.eqb_neq; lia).
  assert (E2 : (code c =? 225) = false) by (apply Z.eqb_neq; lia).
  assert (E3 : (code c =? 226) = false) by (apply Z.eqb_neq; lia).
  assert (E4 : (code c =? 227) = false) by (apply Z.eqb_neq; lia).
  rewrite E1, E2, E3, E4. simpl. destruct s as [| b [| c' s]]; reflexivity.
Qed.

Lemma space_suffix_solid (c : ascii) (r : string) :
  solid c = true -> space_suffix (String c r) = 0%nat.
Proof.
  unfold solid. intros H. apply andb_prop in H as [Hc Hs].
  apply Z.ltb_lt in Hc. apply negb_true_iff in Hs.
  unfold space_suffix, space2, space3, in_range. rewrite Hs.
  assert (E1 : (code c =? 133) = false) by (apply Z.eqb_neq; lia).
  assert (E2 : (code c =? 160) = false) by (apply Z.eqb_neq; lia).
  assert (E3 : (code c =? 128) = false) by (apply Z.eqb_neq; lia).
  assert (E4 : (128 <=? code c) = false) by (apply Z.leb_gt; lia).
  assert (E5 : (code c =? 168) = false) by (apply Z.eqb_neq; lia).
  assert (E6 : (code c =? 169) = false) by (apply Z.eqb_neq; lia).
  assert (E7 : (code c =? 175) = false) by (apply Z.eqb_neq; lia).
  assert (E8 : (code c =? 159) = false) by (apply Z.eqb_neq; lia).
  rewrite E1, E2, E3, E4, E5, E6, E7, E8. simpl.
  destruct r as [| b [| a r]]; rewrite ?andb_false_r; reflexivity.
Qed.

Lemma trim_with_zero (width : string -> nat) (fuel : nat) (s : string) :
  width s = 0%nat -> trim_with width fuel s = s.
Proof. intros H. destruct fuel; simpl; [reflexivity | now rewrite H]. Qed.

(** [TrimSpace] leaves a text without white space and without bytes
    outside ASCII as it is. *)
Lemma TrimSpace_solid (s : string) : forall_chars solid s = true -> TrimSpace s = s.
Proof.
  intros H. unfold TrimSpace.
  assert (H1 : trim_with space_prefix (String.length s) s = s).
  { apply trim_with_zero. destruct s as [| c s]; [reflexivity |].
    simpl in H. apply andb_prop in H as [Hc _]. now apply space_prefix_solid. }
  rewrite H1.
  assert (H2 : forall_chars solid (rev s) = true)
    by (apply forall_chars_rev_acc; [assumption | reflexivity]).
  rewrite trim_with_zero; [apply rev_involutive |].
  destruct (rev s) as [| c r]; [reflexivity |].
  simpl in H2. apply andb_prop in H2 as [Hc _]. now apply space_suffix_solid.
Qed.

Lemma remove_byte_absent (c : ascii) (s : string) :
  forall_chars (fun d => negb (Ascii.eqb c d)) s = true -> remove_byte c s = s.
Proof.
  induction s as [| d s IH]; simpl; [reflexivity |].
  intros H. apply andb_prop in H as [Hd Hs]. apply negb_true_iff in Hd.
  rewrite Hd. now rewrite IH.
Qed.

Lemma underscore_loop_plain (hex : bool) (s : string) :
  forall_chars (fun c => negb (Ascii.eqb c "_")) s = true ->
  forall last, last <> SawUnderscore -> underscore_loop hex s last = true.
Proof.
  induction s as [| c s IH]; simpl; intros H last Hlast.
  - destruct last; try reflexivity. now elim Hlast.
  - apply andb_prop in H as [Hc Hs]. apply negb_true_iff in Hc. rewrite Hc.
    destruct (is_digit c || hex && hex_letter c);
      [apply IH; [assumption | discriminate] |].
    destruct last; try (apply IH; [assumption | discriminate]). now elim Hlast.
Qed.

Lemma underscoreOK_plain (s : string) :
  forall_chars (fun c => negb (Ascii.eqb c "_")) s = true -> underscoreOK s = true.
Proof.
  intros H. unfold underscoreOK.
  set (s1 := match s with
             | String c s' => if Ascii.eqb c "-" || Ascii.eqb c "+" then s' else s
             | EmptyString => s
             end).
  assert (H1 : forall_chars (fun c => negb (Ascii.eqb c "_")) s1 = true).
  { subst s1. destruct s as [| c s']; [assumption |].
    destruct (Ascii.eqb c "-" || Ascii.eqb c "+"); [| assumption].
    simpl in H. now apply andb_prop in H as [_ H]. }
  clearbody s1.
  destruct s1 as [| a [| b s2]];
    try (apply underscore_loop_plain; [assumption | discriminate]).
  destruct (Ascii.eqb a "0" &&
            (Ascii.eqb (lower b) "b" || Ascii.eqb (lower b) "o" || Ascii.eqb (lower b) "x")).
  - apply underscore_loop_plain; [| discriminate].
    simpl in H1. apply andb_prop in H1 as [_ H1]. now apply andb_prop in H1 as [_ H1].
  - apply underscore_loop_plain; [assumption | discriminate].
Qed.

Ltac digit_cases H :=
  let E := fresh "E" in
  red in H;
  match type of H with
  | _ <= ?d <= _ =>
      assert (E : d = 0 \/ d = 1 \/ d = 2 \/ d = 3 \/ d = 4 \/ d = 5 \/ d = 6 \/
                  d = 7 \/ d = 8 \/ d = 9) by lia;
      clear H;
      repeat (destruct E as [E | E]; [subst d |]); [.. | subst d]
  end.

Lemma forall_chars_digits (p : ascii -> bool) (ds : list Z) :
  (forall d, is_digit_value d -> p (digit_char d) = true) ->
  Forall is_digit_value ds ->
  forall_chars p (string_of_digits ds) = true.
Proof.
  intros Hp. induction 1 as [| d ds Hd _ IH]; simpl; [reflexivity |].
  now rewrite Hp, IH.
Qed.

(** The text of a decimal number: sign, integer digits [ds], and the
    fraction digits [fs] after a point when there are any. *)
Definition decimal_text (neg : bool) (ds fs : list Z) : string :=
  sign_string neg ++ string_of_digits ds ++
  match fs with
  | [] => ""
  | _ => String "." (string_of_digits fs)
  end.

Lemma forall_chars_text (p : ascii -> bool) (neg : bool) (ds fs : list Z) :
  p "-"%char = true -> p "."%char = true ->
  (forall d, is_digit_value d -> p (digit_char d) = true) ->
  Forall is_digit_value ds -> Forall is_digit_value fs ->
  forall_chars p (decimal_text neg ds fs) = true.
Proof.
  intros Hm Hdot Hp Hds Hfs. unfold decimal_text.
  rewrite !forall_chars_app, (forall_chars_digits p ds Hp Hds).
  assert (forall_chars p (sign_string neg) = true) as ->
    by (destruct neg; simpl; [now rewrite Hm | reflexivity]).
  destruct fs; simpl; [reflexivity |].
  rewrite Hdot. apply (forall_chars_digits p _ Hp Hfs).
Qed.

(** The digit loop of [readFloat] on a run of decimal digits. *)
Lemma scan_digits (ds : list Z) :
  Forall is_digit_value ds ->
  forall rest mant sawdot sawdigits frac,
    scan_mantissa false (string_of_digits ds ++ rest) mant sawdot sawdigits frac =
    scan_mantissa false rest
      (fold_left (fun a d => a * 10 + d) ds mant) sawdot
      (match ds with [] => sawdigits | _ => true end)
      (if sawdot then frac + Z.of_nat (List.length ds) else frac).
Proof.
  induction 1 as [| d ds Hd Hds IH]; intros rest mant sawdot sawdigits frac.
  - simpl. destruct sawdot; [f_equal; lia | reflexivity].
  - change (string_of_digits (d :: ds) ++ rest)
      with (String (digit_char d) (string_of_digits ds ++ rest)).
    assert (Estep : forall s',
      scan_mantissa false (String (digit_char d) s') mant sawdot sawdigits frac =
      scan_mantissa false s' (mant * 10 + d) sawdot true
        (if sawdot then frac + 1 else frac)).
    { intros s'. digit_cases Hd; reflexivity. }
    rewrite Estep, IH. cbn [fold_left].
    replace (match ds with [] => true | _ => true end) with true by now destruct ds.
    destruct sawdot; [f_equal; cbn [List.length]; lia | reflexivity].
Qed.

Lemma hex_prefix_none (a : ascii) (rest : string) :
  (rest = "" \/ exists b r, rest = String b r /\ Ascii.eqb (lower b) "x" = false) ->
  hex_prefix (String a rest) = (false, String a rest).
Proof.
  intros [-> | (b & r & -> & Hb)]; [reflexivity |].
  unfold hex_prefix. destruct r; [reflexivity |].
  now rewrite Hb, andb_false_r.
Qed.

Definition fraction_text (fs : list Z) : string :=
  match fs with
  | [] => ""
  | _ => String "." (string_of_digits fs)
  end.

Lemma rest_head (ds fs : list Z) :
  Forall is_digit_value ds -> Forall is_digit_value fs ->
  let rest := string_of_digits ds ++ fraction_text fs in
  rest = "" \/ exists b r, rest = String b r /\ Ascii.eqb (lower b) "x" = false.
Proof.
  intros Hds Hfs rest. subst rest.
  destruct Hds as [| d ds Hd _].
  - destruct fs; [now left | right]. simpl. eexists; eexists. split; reflexivity.
  - right. simpl. eexists; eexists. split; [reflexivity |].
    digit_cases Hd; reflexivity.
Qed.

Ltac text_chars :=
  apply forall_chars_text;
  [ reflexivity | reflexivity
  | let d := fresh "d" in let H := fresh "H" in
    intros d H; digit_cases H; reflexivity
  | now constructor | assumption ].

Section DecimalText.

Variable neg : bool.
Variables (d : Z) (ds fs : list Z).
Hypothesis Hd : is_digit_value d.
Hypothesis Hds : Forall is_digit_value ds.
Hypothesis Hfs : Forall is_digit_value fs.

Let text : string := decimal_text neg (d :: ds) fs.

Lemma text_unfold :
  text = sign_string neg ++ String (digit_char d) (string_of_digits ds ++ fraction_text fs).
Proof. reflexivity. Qed.

Lemma text_special : special text = None.
Proof.
  rewrite text_unfold. clear Hds Hfs. destruct neg; digit_cases Hd; reflexivity.
Qed.

Lemma text_not_sentinel :
  String.eqb text "" = false /\ EqualFold text "not declared" = false.
Proof.
  rewrite text_unfold. clear Hds Hfs. destruct neg; digit_cases Hd; split; reflexivity.
Qed.

Lemma text_scan :
  scan_mantissa false
    (String (digit_char d) (string_of_digits ds ++ fraction_text fs)) 0 false false 0
  = (fold_left (fun a x => a * 10 + x) (d :: ds ++ fs)%list 0, true,
     Z.of_nat (List.length fs), "").
Proof.
  change (String (digit_char d) (string_of_digits ds ++ fraction_text fs))
    with (string_of_digits (d :: ds) ++ fraction_text fs).
  rewrite scan_digits by now constructor.
  change (d :: ds ++ fs)%list with ((d :: ds) ++ fs)%list.
  rewrite fold_left_app.
  destruct fs as [| f fs'] eqn:Efs.
  - reflexivity.
  - cbn [fraction_text].
    change (scan_mantissa false (String "." (string_of_digits (f :: fs'))) ?m false true 0)
      with (scan_mantissa false (string_of_digits (f :: fs')) m true true 0).
    rewrite <- (append_nil_r (string_of_digits (f :: fs'))).
    rewrite scan_digits by assumption. reflexivity.
Qed.

Lemma text_readFloat :
  readFloat text =
  Some {| num_neg := neg; num_hex := false;
          num_mant := fold_left (fun a x => a * 10 + x) (d :: ds ++ fs)%list 0;
          num_frac := Z.of_nat (List.length fs); num_exp := 0 |}.
Proof.
  assert (Hok : underscoreOK text = true).
  { apply underscoreOK_plain. text_chars. }
  assert (Hhex : hex_prefix (String (digit_char d) (string_of_digits ds ++ fraction_text fs))
                 = (false, String (digit_char d) (string_of_digits ds ++ fraction_text fs)))
    by (apply hex_prefix_none, rest_head; assumption).
  revert Hok. rewrite text_unfold. unfold readFloat.
  destruct neg; cbn [sign_string append].
  - change (Ascii.eqb "-" "+") with false. change (Ascii.eqb "-" "-") with true.
    cbv iota. rewrite Hhex, text_scan. cbn. now intros ->.
  - assert (E : (if Ascii.eqb (digit_char d) "+"
                 then (false, string_of_digits ds ++ fraction_text fs)
                 else if Ascii.eqb (digit_char d) "-"
                      then (true, string_of_digits ds ++ fraction_text fs)
                      else (false, String (digit_char d)
                                     (string_of_digits ds ++ fraction_text fs)))
                = (false, String (digit_char d) (string_of_digits ds ++ fraction_text fs))).
    { clear Hhex Hds Hfs. digit_cases Hd; reflexivity. }
    rewrite E, Hhex, text_scan. cbn. now intros ->.
Qed.

(** Reading the text back: the value parsed is the fraction that the
    digits denote, rounded to binary64. *)
Lemma text_quarterValueToFloat64 :
  quarterValueToFloat64 text =
  let m := fold_left (fun a x => a * 10 + x) (d :: ds ++ fs)%list 0 in
  let '(a, b) :=
    match fs with
    | [] => (m, 1)
    | _ => (m, 10 ^ Z.of_nat (List.length fs))
    end in
  match round_float64 neg a b with
  | Some sf => SF2Prim sf
  | None => nan
  end.
Proof.
  unfold quarterValueToFloat64.
  assert (Htrim : TrimSpace text = text).
  { apply TrimSpace_solid. text_chars. }
  assert (Hcomma : remove_byte "," text = text).
  { apply remove_byte_absent. text_chars. }
  destruct text_not_sentinel as [He Hf].
  rewrite Htrim, He, Hf, Hcomma. cbn [orb].
  unfold ParseFloat. rewrite text_special, text_readFloat.
  unfold number_fraction. cbn [num_hex num_exp num_frac num_mant num_neg].
  destruct fs as [| f fs'].
  - change (0 <=? 0 - Z.of_nat (List.length (@nil Z))) with true. cbv iota beta.
    change (10 ^ (0 - Z.of_nat (List.length (@nil Z)))) with 1. rewrite Z.mul_1_r.
    now destruct (round_float64 neg _ 1).
  - replace (0 <=? 0 - Z.of_nat (List.length (f :: fs'))) with false
      by (symmetry; apply Z.leb_gt; cbn [List.length]; lia).
    replace (- (0 - Z.of_nat (List.length (f :: fs'))))
      with (Z.of_nat (List.length (f :: fs'))) by lia.
    cbv iota beta.
    now destruct (round_float64 neg _ (10 ^ Z.of_nat (List.length (f :: fs')))).
Qed.

End DecimalText.

(** *** Trimming the two decimals *)

Lemma TrimRight_app_nonempty (a b cutset : string) (x : ascii) (t : string) :
  TrimRight b cutset = String x t -> TrimRight (a ++ b) cutset = a ++ String x t.
Proof.
  intros H. induction a as [| y a IH]; [exact H |].
  cbn [append TrimRight]. rewrite IH. now destruct a.
Qed.

Lemma TrimRight_digits (ds : list Z) :
  Forall is_digit_value ds ->
  TrimRight (string_of_digits ds) "." = string_of_digits ds.
Proof.
  induction 1 as [| d ds Hd _ IH]; [reflexivity |].
  cbn [string_of_digits TrimRight]. rewrite IH.
  destruct (string_of_digits ds); [| reflexivity].
  digit_cases Hd; reflexivity.
Qed.

(** The fraction digits that remain after the trailing zeros are
    trimmed. *)
Definition frac_digits (k : Z) : list Z :=
  let d1 := k mod 100 / 10 in
  let d2 := k mod 10 in
  if d2 =? 0 then (if d1 =? 0 then [] else [d1]) else [d1; d2].

Lemma frac_digits_valid (k : Z) : Forall is_digit_value (frac_digits k).
Proof.
  unfold frac_digits.
  assert (H1 : is_digit_value (k mod 100 / 10)).
  { red. pose proof (Z.mod_pos_bound k 100 ltac:(lia)).
    split; [apply Z.div_pos; lia | apply Z.lt_succ_r, Z.div_lt_upper_bound; lia]. }
  assert (H2 : is_digit_value (k mod 10))
    by (red; pose proof (Z.mod_pos_bound k 10 ltac:(lia)); lia).
  destruct (k mod 10 =? 0); [destruct (k mod 100 / 10 =? 0) |];
    repeat (constructor; try assumption).
Qed.

Lemma trim_zeros_tail (d1 d2 : Z) :
  is_digit_value d1 -> is_digit_value d2 ->
  TrimRight (String "." (string_of_digits [d1; d2])) "0" =
  String "." (string_of_digits
                (if d2 =? 0 then (if d1 =? 0 then [] else [d1]) else [d1; d2])).
Proof. intros H1 H2. digit_cases H1; digit_cases H2; reflexivity. Qed.

(** [formatFloat] on [k] hundredths: the integer digits, then the
    fraction digits that are left, if any, after a point. *)
Lemma trim_fixed2 (neg : bool) (k : Z) :
  0 <= k ->
  TrimRight (TrimRight (fixed2 neg k) "0") "." =
  decimal_text neg (digits_of (k / 100)) (frac_digits k).
Proof.
  intros Hk. unfold fixed2, decimal_text.
  destruct (digits_of_spec (k / 100) ltac:(apply Z.div_pos; lia))
    as (d & ds & -> & Hall & _).
  assert (H1 : is_digit_value (k mod 100 / 10)).
  { red. pose proof (Z.mod_pos_bound k 100 ltac:(lia)).
    split; [apply Z.div_pos; lia | apply Z.lt_succ_r, Z.div_lt_upper_bound; lia]. }
  assert (H2 : is_digit_value (k mod 10))
    by (red; pose proof (Z.mod_pos_bound k 10 ltac:(lia)); lia).
  change ("." ++ string_of_digits [k mod 100 / 10; k mod 10])
    with (String "." (string_of_digits [k mod 100 / 10; k mod 10])).
  pose proof (trim_zeros_tail _ _ H1 H2) as Ht. fold (frac_digits k) in Ht.
  rewrite (TrimRight_app_nonempty (sign_string neg)
             (string_of_digits (d :: ds) ++ String "." _) "0" (digit_char d)
             (string_of_digits ds ++ String "." (string_of_digits (frac_digits k)))).
  2:{ apply (TrimRight_app_nonempty (string_of_digits (d :: ds))). exact Ht. }
  pose proof (frac_digits_valid k) as Hf.
  destruct (frac_digits k) as [| f fs] eqn:Ef.
  - apply TrimRight_app_nonempty.
    change (String (digit_char d) (string_of_digits ds ++ String "." (string_of_digits [])))
      with (string_of_digits (d :: ds) ++ String "." "").
    rewrite append_nil_r.
    assert (E : forall a, TrimRight (a ++ String "." "") "." = TrimRight a ".").
    { induction a as [| y a IH]; [reflexivity |]. cbn [append TrimRight]. now rewrite IH. }
    rewrite E. now apply TrimRight_digits.
  - apply TrimRight_app_nonempty.
    apply (TrimRight_app_nonempty (string_of_digits (d :: ds))
             (String "." (string_of_digits (f :: fs))) "." "."
             (string_of_digits (f :: fs))).
    cbn [TrimRight]. rewrite (TrimRight_digits (f :: fs) Hf). reflexivity.
Qed.

(** ** The value of a binary64 number *)

(** The rational number that a finite binary64 number denotes. *)
Definition sf_value (sf : spec_float) : option Q :=
  match sf with
  | S754_zero _ => Some 0%Q
  | S754_finite s m e =>
      Some (inject_Z (if s then Zneg m else Zpos m) * Qpower 2 e)%Q
  | _ => None
  end.

Definition float_value (f : float) : option Q := sf_value (Prim2SF f).

Definition unit_den : positive := (2 ^ 1074)%positive.

Definition signed_mag (sf : spec_float) : Z :=
  if sf_sign sf then - sf_mag sf else sf_mag sf.

Lemma unit_den_pow : Zpos unit_den = 2 ^ 1074.
Proof. unfold unit_den. now rewrite Pos2Z.inj_pow. Qed.

Lemma sf_value_scaled (sf : spec_float) :
  sf_finite sf = true -> valid_binary sf = true ->
  exists v, sf_value sf = Some v /\ (v == signed_mag sf # unit_den)%Q.
Proof.
  destruct sf as [s | s | | s m e]; try discriminate; intros _ Hv.
  - exists 0%Q. split; [reflexivity |]. unfold signed_mag. now destruct s.
  - apply valid_binary_elim in Hv as [_ He].
    eexists. split; [reflexivity |].
    set (M := if s then Z.neg m else Z.pos m).
    assert (EM : signed_mag (S754_finite s m e) = M * 2 ^ (e + 1074)).
    { unfold signed_mag, M. cbn [sf_sign sf_mag]. destruct s; lia. }
    rewrite EM, (Qmake_Qdiv (M * 2 ^ (e + 1074)) unit_den), unit_den_pow, inject_Z_mult.
    rewrite !Zpower_Qpower by lia.
    change (inject_Z 2) with 2%Q.
    replace e with ((e + 1074) - 1074) at 1 by lia.
    rewrite Qpower_minus by discriminate.
    unfold Qdiv. ring.
Qed.

Lemma is_finite_sf (x : float) : is_finite x = true -> sf_finite (Prim2SF x) = true.
Proof.
  unfold is_finite, is_nan, is_infinity. rewrite !eqb_spec, abs_spec.
  destruct (Prim2SF x) as [s | s | | s m e]; try reflexivity.
  - destruct s; discriminate.
  - discriminate.
Qed.

(** The round trip on magnitudes, in rational numbers. *)
Lemma close_values (s : bool) (X Y : Z) (vx vy : Q) :
  (vx == (if s then - X else X) # unit_den)%Q ->
  (vy == (if s then - Y else Y) # unit_den)%Q ->
  100 * Z.abs (Y - X) <= 2 ^ 1074 ->
  (Qabs (vy - vx) <= 1 # 100)%Q.
Proof.
  intros -> -> H. rewrite <- unit_den_pow in H.
  unfold Qminus, Qplus, Qopp, Qabs, Qle. cbn [Qnum Qden].
  rewrite Pos2Z.inj_mul. destruct s; nia.
Qed.

(** ** The round trip through formatFloat and quarterValueToFloat64 *)

(** The fraction that the digits of the formatted text denote is
    [k / 100]. *)
Lemma text_fraction (k d : Z) (ds : list Z) :
  0 <= k -> horner (d :: ds) = k / 100 ->
  let m := fold_left (fun a x => a * 10 + x) (d :: ds ++ frac_digits k)%list 0 in
  let ab :=
    match frac_digits k with
    | [] => (m, 1)
    | _ => (m, 10 ^ Z.of_nat (List.length (frac_digits k)))
    end in
  0 <= fst ab /\ 0 < snd ab /\ 100 * fst ab = k * snd ab.
Proof.
  intros Hk Hh m ab. subst ab m.
  change (d :: ds ++ frac_digits k)%list with ((d :: ds) ++ frac_digits k)%list.
  rewrite fold_left_app. fold (horner (d :: ds)). rewrite Hh.
  unfold frac_digits.
  assert (Hsplit : k mod 100 = k mod 10 + 10 * (k mod 100 / 10)).
  { pose proof (Z.rem_mul_r k 10 10 ltac:(lia) ltac:(lia)) as H.
    change (10 * 10) with 100 in H.
    pose proof (Z.mod_pos_bound k 10 ltac:(lia)).
    pose proof (Z.mod_pos_bound (k / 10) 10 ltac:(lia)).
    assert (E : k mod 100 / 10 = (k / 10) mod 10).
    { rewrite H. symmetry. apply (Z.div_unique_pos _ 10 _ (k mod 10)); lia. }
    rewrite E. exact H. }
  pose proof (Z.div_mod k 100 ltac:(lia)) as Hdm.
  pose proof (Z.mod_pos_bound k 100 ltac:(lia)) as Hr.
  pose proof (Z.mod_pos_bound k 10 ltac:(lia)) as Hr10.
  assert (Hq : 0 <= k / 100) by (apply Z.div_pos; lia).
  assert (Hd1 : 0 <= k mod 100 / 10) by (apply Z.div_pos; lia).
  destruct (Z.eqb_spec (k mod 10) 0) as [E2 | E2];
    [destruct (Z.eqb_spec (k mod 100 / 10) 0) as [E1 | E1] |];
    cbn [fold_left List.length fst snd Z.of_nat Pos.of_succ_nat Pos.succ];
    try change (10 ^ 1) with 10; try change (10 ^ 2) with 100;
    set (q := k / 100) in *; set (r := k mod 100) in *;
    set (d1 := r / 10) in *; set (d2 := k mod 10) in *; lia.
Qed.

Lemma frac_digits_shape (k : Z) :
  (List.length (frac_digits k) <= 2)%nat /\ last (frac_digits k) 1 <> 0.
Proof.
  unfold frac_digits.
  destruct (Z.eqb_spec (k mod 10) 0); [destruct (Z.eqb_spec (k mod 100 / 10) 0) |];
    cbn [List.length last]; split; lia.
Qed.

Lemma formatFloat_finite (x : float) (s : bool) (k : Z) :
  0 <= k -> FormatFloat_f2 x = fixed2 s k ->
  formatFloat x = decimal_text s (digits_of (k / 100)) (frac_digits k).
Proof. intros Hk E. unfold formatFloat. rewrite E. now apply trim_fixed2. Qed.

(** C9.  For every finite [x], [formatFloat x] is the text of a decimal
    number with at most two fraction digits, none when they are all zero
    and without a trailing zero; reading that text back with
    [quarterValueToFloat64] gives a finite number whose value is within
    0.01 of the value of [x].  1500 is rendered as "1500" and 1500.5 as
    "1500.5". *)
Theorem formatFloat_roundtrip (x : float) :
  is_finite x = true ->
  (exists (neg : bool) (k : Z),
      0 <= k /\
      formatFloat x = decimal_text neg (digits_of (k / 100)) (frac_digits k) /\
      (List.length (frac_digits k) <= 2)%nat /\ last (frac_digits k) 1 <> 0) /\
  (exists vx vy : Q,
      float_value x = Some vx /\
      float_value (quarterValueToFloat64 (formatFloat x)) = Some vy /\
      (Qabs (vy - vx) <= 1 # 100)%Q) /\
  formatFloat 1500 = "1500" /\
  formatFloat 1500.5 = "1500.5".
Proof.
  intros Hfin. apply is_finite_sf in Hfin.
  pose proof (Prim2SF_valid x) as Hv.
  split; [| split; [| split; reflexivity]].
  - unfold formatFloat, FormatFloat_f2.
    destruct (Prim2SF x) as [s | s | | s m e]; try discriminate Hfin.
    + exists s, 0. split; [lia |]. split; [now apply trim_fixed2 |].
      apply frac_digits_shape.
    + exists s, (hundredths (Zpos m) e).
      pose proof (hundredths_nonneg m e) as Hk.
      split; [assumption |]. split; [now apply trim_fixed2 |].
      apply frac_digits_shape.
  - unfold float_value.
    destruct (Prim2SF x) as [s | s | | s m e] eqn:Hsf; try discriminate Hfin.
    + exists 0%Q, 0%Q.
      assert (E : formatFloat x = if s then "-0" else "0").
      { unfold formatFloat, FormatFloat_f2. rewrite Hsf. now destruct s. }
      rewrite E. split; [reflexivity |]. split; [now destruct s | discriminate].
    + apply valid_binary_elim in Hv as Hme. destruct Hme as [Hm He].
      set (k := hundredths (Zpos m) e).
      pose proof (hundredths_nonneg m e) as Hk. fold k in Hk.
      assert (E : formatFloat x = decimal_text s (digits_of (k / 100)) (frac_digits k)).
      { apply formatFloat_finite; [assumption |].
        unfold FormatFloat_f2. now rewrite Hsf. }
      destruct (digits_of_spec (k / 100) ltac:(apply Z.div_pos; lia))
        as (d & ds & Ed & Hall & Hh & _).
      rewrite E, Ed.
      inversion Hall as [| ? ? Hd Hds]; subst.
      rewrite (text_quarterValueToFloat64 s d ds (frac_digits k) Hd Hds
                 (frac_digits_valid k)).
      pose proof (text_fraction k d ds Hk Hh) as Hab. cbv zeta in Hab |- *.
      destruct (match frac_digits k with
                | [] => (fold_left (fun a x => a * 10 + x) (d :: ds ++ frac_digits k)%list 0, 1)
                | _ :: _ =>
                    (fold_left (fun a x => a * 10 + x) (d :: ds ++ frac_digits k)%list 0,
                     10 ^ Z.of_nat (List.length (frac_digits k)))
                end) as [a b].
      cbn [fst snd] in Hab. destruct Hab as (Ha & Hb & Hab).
      destruct (roundtrip_arith m e a b Hm He Ha Hb Hab) as [Hclose Hrange].
      destruct (round_float64_ok s a b Ha Hb Hrange)
        as (sf & -> & Hvalid & Hsfin & Hsign & Hmag).
      rewrite (Prim2SF_SF2Prim sf Hvalid).
      destruct (sf_value_scaled (S754_finite s m e) eq_refl Hv) as (vx & Evx & Hvx).
      destruct (sf_value_scaled sf Hsfin Hvalid) as (vy & Evy & Hvy).
      exists vx, vy. split; [exact Evx |]. split; [exact Evy |].
      apply (close_values s (Zpos m * 2 ^ (e + 1074)) (round_mag a b)).
      * rewrite Hvx. unfold signed_mag. reflexivity.
      * rewrite Hvy. unfold signed_mag. rewrite Hsign, Hmag. reflexivity.
      * exact Hclose.
Qed.

Lemma formatFloat_roundtrip_witness :
  exists vx vy : Q,
    float_value 1500.5 = Some vx /\
    float_value (quarterValueToFloat64 (formatFloat 1500.5)) = Some vy /\
    (Qabs (vy - vx) <= 1 # 100)%Q.
Proof.
  destruct (formatFloat_roundtrip 1500.5) as (_ & H & _).
  - reflexivity.
  - exact H.
Defined.

(** * Further functions of the sources *)

(** ** types.go: [extractJSONFromBody] *)

Definition dquote : ascii := "034"%char.
Definition backslash : ascii := "092"%char.

(** [bytes.IndexByte b c]: the index of the first [c] in [b], or -1. *)
Fixpoint IndexByte (b : string) (c : ascii) : Z :=
  match b with
  | EmptyString => -1
  | String d b' =>
      if Ascii.eqb d c then 0
      else let i := IndexByte b' c in if i =? -1 then -1 else i + 1
  end.

(** The slice expression [b[lo:hi]] for [0 <= lo <= hi <= len(b)]. *)
Definition bytes_slice (b : string) (lo hi : Z) : string :=
  substring (Z.to_nat lo) (Z.to_nat (hi - lo)) b.

(** The balance loop of [extractJSONFromBody], started at index [i] with
    [s] the bytes from [i] on.  It yields the index at which the function
    returns, or [None] when the loop runs off the end of the body. *)
Fixpoint balance_scan (open close : ascii) (s : string) (i depth : Z)
    (inString escapeNext : bool) : option Z :=
  match s with
  | EmptyString => None
  | String c s' =>
      if inString then
        if escapeNext then balance_scan open close s' (i + 1) depth true false
        else if Ascii.eqb c backslash then
          balance_scan open close s' (i + 1) depth true true
        else if Ascii.eqb c dquote then
          balance_scan open close s' (i + 1) depth false escapeNext
        else balance_scan open close s' (i + 1) depth true escapeNext
      else if Ascii.eqb c dquote then
        balance_scan open close s' (i + 1) depth true escapeNext
      else if Ascii.eqb c open then
        balance_scan open close s' (i + 1) (depth + 1) inString escapeNext
      else if Ascii.eqb c close then
        if depth - 1 =? 0 then Some i
        else balance_scan open close s' (i + 1) (depth - 1) inString escapeNext
      else balance_scan open close s' (i + 1) depth inString escapeNext
  end.

Definition json_start (b : string) : Z :=
  let idxObj := IndexByte b "{" in
  let idxArr := IndexByte b "[" in
  if idxObj =? -1 then idxArr
  else if idxArr =? -1 then idxObj
  else if idxObj <? idxArr then idxObj else idxArr.

Definition closing (open : ascii) : ascii :=
  if Ascii.eqb open "{" then "}"%char else "]"%char.

Definition extractJSONFromBody (b : string) : result string :=
  let start := json_start b in
  if start =? -1 then Err "no JSON start delimiter found"
  else
    match String.get (Z.to_nat start) b with
    | None => Err "index out of range"
    | Some open =>
        let close := closing open in
        match balance_scan open close (drop (Z.to_nat start) b) start 0 false false with
        | Some i => Ok (TrimSpace (bytes_slice b start (i + 1)))
        | None => Err "could not find matching JSON end"
        end
    end.

Definition html_wrapped : string :=
  "<html><body><pre>{'a': [1, {'b': 2}], 'c': {}} trailing } text</pre></body></html>".

Example extractJSONFromBody_html :
  extractJSONFromBody html_wrapped = Ok "{'a': [1, {'b': 2}], 'c': {}}"
  /\ extractJSONFromBody "<p>[1, [2, 3]" = Err "could not find matching JSON end"
  /\ extractJSONFromBody "<p>nothing</p>" = Err "no JSON start delimiter found"
  /\ extractJSONFromBody ("x [" ++ String dquote ("]" ++ String dquote "] y"))
     = Ok ("[" ++ String dquote ("]" ++ String dquote "]")).
Proof. repeat split. Qed.

(** *** Properties of [extractJSONFromBody] *)

Lemma IndexByte_lower (b : string) (c : ascii) : -1 <= IndexByte b c.
Proof.
  induction b as [| d b IH]; simpl; [lia |].
  destruct (Ascii.eqb d c); [lia |].
  destruct (IndexByte b c =? -1) eqn:E; lia.
Qed.

Lemma IndexByte_none (b : string) (c : ascii) :
  IndexByte b c = -1 <-> mem c b = false.
Proof.
  induction b as [| d b IH]; simpl; [tauto |].
  rewrite (Ascii.eqb_sym c d).
  destruct (Ascii.eqb d c); simpl.
  - split; [lia | discriminate].
  - pose proof (IndexByte_lower b c) as Hl.
    destruct (IndexByte b c =? -1) eqn:E.
    + apply Z.eqb_eq in E. tauto.
    + apply Z.eqb_neq in E. rewrite <- IH. split; lia.
Qed.

Lemma IndexByte_found (b : string) (c : ascii) (i : Z) :
  IndexByte b c = i -> i <> -1 ->
  exists pre suf, b = pre ++ String c suf /\ Z.of_nat (String.length pre) = i /\
                  mem c pre = false.
Proof.
  revert i. induction b as [| d b IH]; simpl; intros i Hi Hne; [lia |].
  destruct (Ascii.eqb d c) eqn:Edc.
  - apply Ascii.eqb_eq in Edc. subst d. exists "", b. simpl. auto.
  - destruct (IndexByte b c =? -1) eqn:E; [lia |].
    apply Z.eqb_neq in E.
    destruct (IH _ eq_refl E) as (pre & suf & -> & Hlen & Hmem).
    exists (String d pre), suf. simpl. rewrite (Ascii.eqb_sym c d), Edc, Hmem.
    repeat split. lia.
Qed.

Lemma mem_app (c : ascii) (a b : string) :
  mem c (a ++ b) = mem c a || mem c b.
Proof.
  induction a as [| d a IH]; simpl; [reflexivity |].
  rewrite IH. now rewrite orb_assoc.
Qed.

(** Before the first occurrence there is none. *)
Lemma IndexByte_before (pre s : string) (c : ascii) :
  Z.of_nat (String.length pre) <= IndexByte (pre ++ s) c -> mem c pre = false.
Proof.
  revert s. induction pre as [| d pre IH]; intros s; simpl; [reflexivity |].
  rewrite (Ascii.eqb_sym c d).
  destruct (Ascii.eqb d c); simpl; [lia |].
  destruct (IndexByte (pre ++ s) c =? -1) eqn:E; [lia |].
  intros H. apply (IH s). lia.
Qed.

(** The start index is -1 or the length of a prefix free of both
    delimiters that is followed by one of them. *)
Lemma json_start_none (b : string) :
  json_start b = -1 <-> mem "{" b = false /\ mem "[" b = false.
Proof.
  unfold json_start. rewrite <- !IndexByte_none.
  destruct (IndexByte b "{" =? -1) eqn:E1.
  - apply Z.eqb_eq in E1. tauto.
  - apply Z.eqb_neq in E1.
    destruct (IndexByte b "[" =? -1) eqn:E2.
    + tauto.
    + apply Z.eqb_neq in E2.
      destruct (IndexByte b "{" <? IndexByte b "["); tauto.
Qed.

Definition is_open (c : ascii) : bool := Ascii.eqb c "{" || Ascii.eqb c "[".

Lemma json_start_found (b : string) :
  json_start b <> -1 ->
  exists pre open suf,
    b = pre ++ String open suf /\
    Z.of_nat (String.length pre) = json_start b /\
    is_open open = true /\ mem "{" pre = false /\ mem "[" pre = false.
Proof.
  unfold json_start.
  destruct (IndexByte b "{" =? -1) eqn:E1.
  - apply Z.eqb_eq in E1. intros H.
    destruct (IndexByte_found b "[" _ eq_refl H) as (pre & suf & Hb & Hlen & Hm).
    exists pre, "["%char, suf. repeat split; auto.
    apply IndexByte_none in E1. rewrite Hb, mem_app in E1.
    now apply orb_false_iff in E1.
  - apply Z.eqb_neq in E1.
    destruct (IndexByte b "[" =? -1) eqn:E2.
    + apply Z.eqb_eq in E2. intros _.
      destruct (IndexByte_found b "{" _ eq_refl E1) as (pre & suf & Hb & Hlen & Hm).
      exists pre, "{"%char, suf. repeat split; auto.
      apply IndexByte_none in E2. rewrite Hb, mem_app in E2.
      now apply orb_false_iff in E2.
    + apply Z.eqb_neq in E2.
      destruct (IndexByte b "{" <? IndexByte b "[") eqn:E3; intros _.
      * apply Z.ltb_lt in E3.
        destruct (IndexByte_found b "{" _ eq_refl E1) as (pre & suf & Hb & Hlen & Hm).
        exists pre, "{"%char, suf. repeat split; auto.
        apply (IndexByte_before pre (String "{" suf)). rewrite <- Hb. lia.
      * apply Z.ltb_ge in E3.
        destruct (IndexByte_found b "[" _ eq_refl E2) as (pre & suf & Hb & Hlen & Hm).
        exists pre, "["%char, suf. repeat split; auto.
        apply (IndexByte_before pre (String "[" suf)). rewrite <- Hb. lia.
Qed.

(** The loop returns at a closing byte; what it read up to there decides
    the outcome, whatever follows and wherever the loop started. *)
Lemma balance_scan_split (o c : ascii) (s : string) (i d : Z) (inS e : bool) (j : Z) :
  balance_scan o c s i d inS e = Some j ->
  exists mid post,
    s = mid ++ String c post /\ j = i + Z.of_nat (String.length mid) /\
    forall t i', balance_scan o c (mid ++ String c t) i' d inS e
                 = Some (i' + Z.of_nat (String.length mid)).
Proof.
  revert i d inS e j.
  induction s as [| ch s IH]; intros i d inS e j H; simpl in H; [discriminate |].
  assert (Hrec : forall d' inS' e',
             balance_scan o c s (i + 1) d' inS' e' = Some j ->
             (forall t i', balance_scan o c (String ch t) i' d inS e
                           = balance_scan o c t (i' + 1) d' inS' e') ->
             exists mid post,
               String ch s = mid ++ String c post /\
               j = i + Z.of_nat (String.length mid) /\
               forall t i', balance_scan o c (mid ++ String c t) i' d inS e
                            = Some (i' + Z.of_nat (String.length mid))).
  { intros d' inS' e' Hs Hstep.
    destruct (IH _ _ _ _ _ Hs) as (mid & post & -> & -> & Hall).
    exists (String ch mid), post. split; [reflexivity |].
    split; [simpl String.length; lia |].
    intros t i'. change (String ch mid ++ String c t) with (String ch (mid ++ String c t)).
    rewrite Hstep, Hall. f_equal. simpl String.length. lia. }
  destruct inS.
  - destruct e.
    + apply (Hrec _ _ _ H). reflexivity.
    + destruct (Ascii.eqb ch backslash) eqn:E1.
      * apply (Hrec _ _ _ H). intros. simpl. now rewrite E1.
      * destruct (Ascii.eqb ch dquote) eqn:E2;
          apply (Hrec _ _ _ H); intros; simpl; now rewrite E1, E2.
  - destruct (Ascii.eqb ch dquote) eqn:E1.
    + apply (Hrec _ _ _ H). intros. simpl. now rewrite E1.
    + destruct (Ascii.eqb ch o) eqn:E2.
      * apply (Hrec _ _ _ H). intros. simpl. now rewrite E1, E2.
      * destruct (Ascii.eqb ch c) eqn:E3.
        -- destruct (d - 1 =? 0) eqn:E4.
           ++ injection H as <-. apply Ascii.eqb_eq in E3. subst ch.
              exists "", s. split; [reflexivity |]. split; [simpl; lia |].
              intros t i'. simpl. rewrite E1, E2, Ascii.eqb_refl, E4. f_equal. lia.
           ++ apply (Hrec _ _ _ H). intros. simpl. now rewrite E1, E2, E3, E4.
        -- apply (Hrec _ _ _ H). intros. simpl. now rewrite E1, E2, E3.
Qed.

Lemma substring_skip (pre s : string) (n : nat) :
  substring (String.length pre) n (pre ++ s) = substring 0 n s.
Proof. induction pre as [| c pre IH]; simpl; auto. Qed.

Lemma substring_prefix (x y : string) :
  substring 0 (String.length x) (x ++ y) = x.
Proof.
  induction x as [| c x IH]; simpl.
  - destruct y; reflexivity.
  - now rewrite IH.
Qed.

Lemma get_skip (pre s : string) (c : ascii) :
  String.get (String.length pre) (pre ++ String c s) = Some c.
Proof. induction pre as [| d pre IH]; simpl; auto. Qed.

Lemma drop_skip (pre s : string) : drop (String.length pre) (pre ++ s) = s.
Proof. induction pre as [| d pre IH]; simpl; auto. Qed.

Lemma string_length_app (a b : string) :
  String.length (a ++ b) = (String.length a + String.length b)%nat.
Proof. induction a as [| c a IH]; simpl; congruence. Qed.

Lemma app_assoc_string (a b c : string) : (a ++ b) ++ c = a ++ (b ++ c).
Proof. induction a as [| d a IH]; simpl; congruence. Qed.

Lemma rev_acc_app (x y acc : string) :
  rev_acc (x ++ y) acc = rev_acc y (rev_acc x acc).
Proof. revert acc. induction x as [| c x IH]; intros acc; simpl; auto. Qed.

(** [TrimSpace] leaves a text alone that begins and ends with a solid
    byte. *)
Lemma TrimSpace_ends (a z : ascii) (mid : string) :
  solid a = true -> solid z = true ->
  TrimSpace (String a (mid ++ String z "")) = String a (mid ++ String z "").
Proof.
  intros Ha Hz.
  assert (Hrev : rev (String a (mid ++ String z "")) = String z (rev (String a mid))).
  { change (String a (mid ++ String z "")) with (String a mid ++ String z "").
    unfold rev. now rewrite rev_acc_app. }
  unfold TrimSpace.
  rewrite (trim_with_zero space_prefix _ _ (space_prefix_solid a _ Ha)).
  cbv zeta. rewrite Hrev.
  rewrite (trim_with_zero space_suffix _ _ (space_suffix_solid z _ Hz)).
  rewrite <- Hrev. apply rev_involutive.
Qed.

Lemma is_open_cases (o : ascii) :
  is_open o = true -> o = "{"%char \/ o = "["%char.
Proof.
  unfold is_open. intros H. apply orb_prop in H as [H | H];
    apply Ascii.eqb_eq in H; auto.
Qed.

(** The shape of a successful extraction, from which the properties
    below are read. *)
Lemma extractJSONFromBody_shape (b r : string) :
  extractJSONFromBody b = Ok r ->
  exists pre open mid post,
    b = pre ++ String open (mid ++ String (closing open) post) /\
    r = String open (mid ++ String (closing open) "") /\
    is_open open = true /\ mem "{" pre = false /\ mem "[" pre = false /\
    (forall t i, balance_scan open (closing open)
                   (String open (mid ++ String (closing open) t)) i 0 false false
                 = Some (i + 1 + Z.of_nat (String.length mid))).
Proof.
  unfold extractJSONFromBody.
  destruct (json_start b =? -1) eqn:Es; [discriminate |].
  apply Z.eqb_neq in Es.
  destruct (json_start_found b Es) as (pre & open & suf & Hb & Hlen & Hopen & Hm1 & Hm2).
  rewrite <- Hlen, Nat2Z.id.
  replace (String.get (String.length pre) b) with (Some open)
    by (now rewrite Hb, get_skip).
  replace (drop (String.length pre) b) with (String open suf)
    by (now rewrite Hb, drop_skip).
  destruct (balance_scan _ _ _ _ _ _ _) as [j |] eqn:Escan; [| discriminate].
  intros H. injection H as <-.
  destruct (balance_scan_split _ _ _ _ _ _ _ _ Escan) as (mid0 & post & Hsuf & Hj & Hall).
  assert (Hne : open <> closing open).
  { destruct (is_open_cases _ Hopen) as [-> | ->]; discriminate. }
  destruct mid0 as [| o' mid].
  { simpl in Hsuf. injection Hsuf as Ho _. contradiction. }
  simpl in Hsuf. injection Hsuf as <- Hsuf. subst suf.
  exists pre, open, mid, post.
  split; [exact Hb |].
  split.
  - unfold bytes_slice. subst j b.
    rewrite Nat2Z.id.
    replace (Z.to_nat (_ - _))
      with (String.length (String open (mid ++ String (closing open) "")))
      by (simpl String.length; rewrite string_length_app; simpl String.length; lia).
    rewrite substring_skip.
    replace (String open (mid ++ String (closing open) post))
      with (String open (mid ++ String (closing open) "") ++ post)
      by (simpl; now rewrite app_assoc_string).
    rewrite substring_prefix.
    apply TrimSpace_ends.
    + destruct (is_open_cases _ Hopen) as [-> | ->]; reflexivity.
    + destruct (is_open_cases _ Hopen) as [-> | ->]; reflexivity.
  - repeat split; auto.
    intros t i. specialize (Hall t i). simpl in Hall |- *. rewrite Hall.
    f_equal. lia.
Qed.

(** X1. [extractJSONFromBody] reports "no JSON start delimiter found"
    exactly for the bodies in which neither an opening brace nor an
    opening bracket occurs. *)
Theorem extractJSONFromBody_no_delimiter (b : string) :
  extractJSONFromBody b = Err "no JSON start delimiter found" <->
  mem "{" b = false /\ mem "[" b = false.
Proof.
  rewrite <- json_start_none. unfold extractJSONFromBody.
  destruct (json_start b =? -1) eqn:Es.
  - apply Z.eqb_eq in Es. tauto.
  - apply Z.eqb_neq in Es. split; [| tauto].
    destruct (String.get _ b); [| discriminate].
    destruct (balance_scan _ _ _ _ _ _ _); discriminate.
Qed.

(** X2. A text that [extractJSONFromBody] returns is a contiguous part
    of the body.  It starts at the first opening brace or bracket of the
    body (none occurs before it) and it ends with the closing byte of
    the same kind. *)
Theorem extractJSONFromBody_slice (b r : string) :
  extractJSONFromBody b = Ok r ->
  exists pre open mid post,
    b = pre ++ r ++ post /\
    mem "{" pre = false /\ mem "[" pre = false /\
    is_open open = true /\
    r = String open (mid ++ String (closing open) "").
Proof.
  intros H.
  destruct (extractJSONFromBody_shape b r H)
    as (pre & open & mid & post & Hb & Hr & Hopen & Hm1 & Hm2 & _).
  exists pre, open, mid, post. repeat split; auto.
  rewrite Hb, Hr. simpl. now rewrite app_assoc_string.
Qed.

Lemma extractJSONFromBody_slice_witness :
  exists pre open mid post,
    html_wrapped = pre ++ "{'a': [1, {'b': 2}], 'c': {}}" ++ post /\
    mem "{" pre = false /\ mem "[" pre = false /\
    is_open open = true /\
    "{'a': [1, {'b': 2}], 'c': {}}" = String open (mid ++ String (closing open) "").
Proof. apply (extractJSONFromBody_slice html_wrapped). reflexivity. Defined.

Lemma json_start_open (open : ascii) (s : string) :
  is_open open = true -> json_start (String open s) = 0.
Proof.
  intros H. unfold json_start.
  destruct (is_open_cases _ H) as [-> | ->]; simpl.
  - pose proof (IndexByte_lower s "[") as Hl.
    destruct (IndexByte s "[" =? -1) eqn:E; [reflexivity |].
    apply Z.eqb_neq in E.
    destruct (IndexByte s "[" + 1 =? -1) eqn:E1; [reflexivity |].
    destruct (0 <? IndexByte s "[" + 1) eqn:E2; [reflexivity |].
    apply Z.ltb_ge in E2. lia.
  - pose proof (IndexByte_lower s "{") as Hl.
    destruct (IndexByte s "{" =? -1) eqn:E; [reflexivity |].
    apply Z.eqb_neq in E.
    destruct (IndexByte s "{" + 1 =? -1) eqn:E1; [apply Z.eqb_eq in E1; lia |].
    destruct (IndexByte s "{" + 1 <? 0) eqn:E2; [| reflexivity].
    apply Z.ltb_lt in E2. lia.
Qed.

(** Extraction is idempotent: a text that [extractJSONFromBody] returns
    is returned unchanged when the function is applied to it. *)
Lemma extractJSONFromBody_idempotent (b r : string) :
  extractJSONFromBody b = Ok r -> extractJSONFromBody r = Ok r.
Proof.
  intros H.
  destruct (extractJSONFromBody_shape b r H)
    as (pre & open & mid & post & Hb & Hr & Hopen & Hm1 & Hm2 & Hall).
  clear H Hb. subst r. unfold extractJSONFromBody.
  rewrite (json_start_open _ _ Hopen).
  change (0 =? -1) with false. cbv iota.
  change (Z.to_nat 0) with 0%nat.
  change (String.get 0 (String open (mid ++ String (closing open) ""))) with (Some open).
  cbv iota beta zeta. change (drop 0 ?x) with x.
  rewrite (Hall "" 0). f_equal.
  unfold bytes_slice. change (Z.to_nat 0) with 0%nat.
  replace (Z.to_nat _)
    with (String.length (String open (mid ++ String (closing open) "")))
    by (simpl String.length; rewrite string_length_app; simpl String.length; lia).
  rewrite <- (append_nil_r (String open (mid ++ String (closing open) ""))) at 2.
  rewrite substring_prefix.
  apply TrimSpace_ends; destruct (is_open_cases _ Hopen) as [-> | ->]; reflexivity.
Qed.

Fixpoint count_byte (c : ascii) (s : string) : Z :=
  match s with
  | EmptyString => 0
  | String d s' => (if Ascii.eqb d c then 1 else 0) + count_byte c s'
  end.

Lemma count_byte_app (c : ascii) (a b : string) :
  count_byte c (a ++ b) = count_byte c a + count_byte c b.
Proof. induction a as [| d a IH]; simpl; lia. Qed.

(** Without string literals the loop counts brackets: from depth [d] it
    stops at the first closing byte that brings the depth to zero. *)
Lemma balance_scan_plain (o c : ascii) (s : string) (i d : Z) (e : bool) (j : Z) :
  o <> c -> mem dquote s = false -> 1 <= d ->
  balance_scan o c s i d false e = Some j ->
  exists mid post,
    s = mid ++ String c post /\ j = i + Z.of_nat (String.length mid) /\
    d + count_byte o mid - count_byte c mid = 1 /\
    forall p q, mid = p ++ q -> 1 <= d + count_byte o p - count_byte c p.
Proof.
  intros Hoc. revert i d j.
  induction s as [| ch s IH]; intros i d j Hq Hd H; cbn [balance_scan] in H;
    [discriminate |].
  cbn [mem] in Hq. apply orb_false_iff in Hq as [Hq1 Hq].
  rewrite (Ascii.eqb_sym ch dquote), Hq1 in H.
  assert (Hrec : forall d', 1 <= d' ->
             d' = d + (if Ascii.eqb ch o then 1 else 0) - (if Ascii.eqb ch c then 1 else 0) ->
             balance_scan o c s (i + 1) d' false e = Some j ->
             exists mid post,
               String ch s = mid ++ String c post /\
               j = i + Z.of_nat (String.length mid) /\
               d + count_byte o mid - count_byte c mid = 1 /\
               forall p q, mid = p ++ q -> 1 <= d + count_byte o p - count_byte c p).
  { intros d' Hd' Ed' Hs.
    destruct (IH _ _ _ Hq Hd' Hs) as (mid & post & -> & -> & Hbal & Hpre).
    exists (String ch mid), post. split; [reflexivity |].
    split; [simpl String.length; lia |].
    split; [simpl; lia |].
    intros p q Hpq. destruct p as [| ch' p]; [simpl; lia |].
    simpl in Hpq. injection Hpq as <- Hpq. specialize (Hpre _ _ Hpq). simpl. lia. }
  destruct (Ascii.eqb ch o) eqn:E2.
  - assert (E3 : Ascii.eqb ch c = false).
    { apply Ascii.eqb_eq in E2. subst ch. now apply Ascii.eqb_neq. }
    apply (Hrec (d + 1)); [lia | rewrite E3; lia | exact H].
  - destruct (Ascii.eqb ch c) eqn:E3.
    + destruct (d - 1 =? 0) eqn:E4.
      * apply Z.eqb_eq in E4. injection H as <-. apply Ascii.eqb_eq in E3. subst ch.
        exists "", s. repeat split; simpl; try lia.
        intros p q Hpq. destruct p; [simpl; lia | discriminate].
      * apply Z.eqb_neq in E4. apply (Hrec (d - 1)); [lia | lia | exact H].
    + apply (Hrec d); [lia | lia | exact H].
Qed.

Lemma app_inj_length (a a' b b' : string) :
  a ++ b = a' ++ b' -> String.length a = String.length a' -> a = a' /\ b = b'.
Proof.
  revert a'. induction a as [| c a IH]; intros [| c' a'] H Hlen; simpl in *;
    try discriminate; auto.
  injection H as <- H. injection Hlen as Hlen.
  destruct (IH _ H Hlen) as [-> ->]. auto.
Qed.

(** A proper prefix of [mid ++ [c]] is a prefix of [mid]. *)
Lemma prefix_of_snoc (mid p q : string) (c : ascii) :
  mid ++ String c "" = p ++ q -> q <> "" -> exists q', mid = p ++ q'.
Proof.
  revert p. induction mid as [| d mid IH]; intros p H Hq.
  - destruct p as [| d p]; [exists ""; reflexivity |].
    simpl in H. injection H as _ H.
    destruct p; [destruct q; [contradiction | discriminate] | discriminate].
  - destruct p as [| d' p]; [exists (String d mid); reflexivity |].
    simpl in H. injection H as <- H.
    destruct (IH _ H Hq) as (q' & ->). exists q'. reflexivity.
Qed.

(** X3. On a body without double quotes the returned text is the
    shortest balanced run that starts at the first delimiter: it holds as
    many opening as closing bytes of the delimiter's kind, and every
    proper non-empty prefix of it holds more opening than closing
    ones. *)
Theorem extractJSONFromBody_balanced (b r : string) :
  mem dquote b = false ->
  extractJSONFromBody b = Ok r ->
  exists open,
    is_open open = true /\ HasPrefix r (String open "") = true /\
    count_byte open r = count_byte (closing open) r /\
    forall p q, r = p ++ q -> p <> "" -> q <> "" ->
                count_byte (closing open) p < count_byte open p.
Proof.
  intros Hq H.
  destruct (extractJSONFromBody_shape b r H)
    as (pre & open & mid & post & Hb & Hr & Hopen & Hm1 & Hm2 & Hall).
  assert (Hne : open <> closing open).
  { destruct (is_open_cases _ Hopen) as [-> | ->]; discriminate. }
  assert (Hoq : Ascii.eqb open dquote = false).
  { destruct (is_open_cases _ Hopen) as [-> | ->]; reflexivity. }
  assert (Hcq : Ascii.eqb dquote (closing open) = false).
  { destruct (is_open_cases _ Hopen) as [-> | ->]; reflexivity. }
  assert (Hco : Ascii.eqb (closing open) open = false).
  { apply Ascii.eqb_neq. congruence. }
  assert (Hoc : Ascii.eqb open (closing open) = false).
  { now apply Ascii.eqb_neq. }
  assert (Hmid : mem dquote (mid ++ String (closing open) "") = false).
  { rewrite Hb in Hq. rewrite mem_app in Hq. apply orb_false_iff in Hq as [_ Hq].
    cbn [mem] in Hq. apply orb_false_iff in Hq as [_ Hq].
    rewrite mem_app in Hq |- *. apply orb_false_iff in Hq as [Hq1 Hq2].
    rewrite Hq1. cbn [mem]. now rewrite Hcq. }
  specialize (Hall "" 0). cbn [balance_scan] in Hall.
  rewrite Hoq, Ascii.eqb_refl in Hall.
  destruct (balance_scan_plain _ _ _ _ (0 + 1) _ _ Hne Hmid ltac:(lia) Hall)
    as (mid' & post' & Hsplit & Hlen & Hbal & Hpre).
  assert (Hsame : mid = mid').
  { apply (app_inj_length _ _ _ _ Hsplit). lia. }
  subst mid'. clear Hsplit Hlen.
  exists open. split; [exact Hopen |].
  split.
  { rewrite Hr. cbn [HasPrefix]. rewrite Ascii.eqb_refl.
    now destruct (mid ++ String (closing open) ""). }
  split.
  - rewrite Hr. cbn [count_byte]. rewrite !count_byte_app. cbn [count_byte].
    rewrite !Ascii.eqb_refl, Hoc, Hco. lia.
  - intros p q Hpq Hp Hq'. rewrite Hr in Hpq.
    destruct p as [| ch p]; [contradiction |].
    simpl in Hpq. injection Hpq as <- Hpq.
    destruct (prefix_of_snoc _ _ _ _ Hpq Hq') as (q' & Hmq).
    specialize (Hpre _ _ Hmq). cbn [count_byte]. rewrite Ascii.eqb_refl, Hoc. lia.
Qed.

Lemma extractJSONFromBody_balanced_witness :
  exists open,
    is_open open = true /\
    HasPrefix "{'a': [1, {'b': 2}], 'c': {}}" (String open "") = true /\
    count_byte open "{'a': [1, {'b': 2}], 'c': {}}"
    = count_byte (closing open) "{'a': [1, {'b': 2}], 'c': {}}" /\
    forall p q, "{'a': [1, {'b': 2}], 'c': {}}" = p ++ q -> p <> "" -> q <> "" ->
                count_byte (closing open) p < count_byte open p.
Proof. apply (extractJSONFromBody_balanced html_wrapped); reflexivity. Defined.


(** ** types.go: more on [chooseBestDump], [findQuarterKey] and [normalize] *)

(** X4. The answer of [chooseBestDump] does not depend on the order in
    which the group mapping is visited as soon as one group beats the
    others: if every candidate group other than [m] scores strictly less
    than [m], then [m] is returned for every visiting order. *)
Theorem chooseBestDump_strict_max (qd qd' : object) (qOrder : list string)
    (k : string) (m : object) :
  Permutation qd qd' ->
  In (k, JObject m) qd ->
  (forall k' m', In (k', JObject m') qd ->
                 m' = m \/
                 dump_score (map normalize qOrder) m' < dump_score (map normalize qOrder) m) ->
  chooseBestDump qd' qOrder = Some m.
Proof.
  intros Hperm Hin Hmax. unfold chooseBestDump.
  pose proof (chooseBestDump_inv qd' qOrder) as
    [(_ & _ & Hno) | (k0 & m0 & l1 & l2 & Hqd & Hm & _ & _ & Hlt & Hle)].
  - apply (Permutation_in _ Hperm) in Hin. apply Hno in Hin. discriminate Hin.
  - rewrite Hm. f_equal.
    assert (Hin0 : In (k0, JObject m0) qd).
    { apply (Permutation_in _ (Permutation_sym Hperm)). rewrite Hqd.
      apply in_app_iff. right. left. reflexivity. }
    destruct (Hmax _ _ Hin0) as [E | Hless]; [exact E |].
    apply (Permutation_in _ Hperm) in Hin. rewrite Hqd in Hin.
    apply in_app_iff in Hin as [Hin | [Heq | Hin]].
    + specialize (Hlt _ _ Hin). lia.
    + injection Heq as _ E. exact E.
    + specialize (Hle _ _ Hin). lia.
Qed.

Definition two_groups : object :=
  [("consolidated", JObject [("Q1 FY24", JNull); ("Q2 FY24", JNull)]);
   ("standalone", JObject [("Q1 FY24", JNull)])].

Lemma chooseBestDump_strict_max_witness :
  chooseBestDump (List.rev two_groups) ["Q1 FY24"; "Q2 FY24"]
  = Some [("Q1 FY24", JNull); ("Q2 FY24", JNull)].
Proof.
  apply (chooseBestDump_strict_max two_groups (List.rev two_groups) _ "consolidated").
  - apply Permutation_rev.
  - left. reflexivity.
  - intros k' m' [H | [H | []]]; injection H as _ <-; [left | right]; reflexivity.
Defined.

(** With two groups of equal score the visiting order decides. *)
Example chooseBestDump_tie_depends_on_order :
  chooseBestDump [("a", JObject [("Q1", JNull)]); ("b", JObject [("Q1", JBool true)])] ["Q1"]
  = Some [("Q1", JNull)] /\
  chooseBestDump [("b", JObject [("Q1", JBool true)]); ("a", JObject [("Q1", JNull)])] ["Q1"]
  = Some [("Q1", JBool true)].
Proof. split; reflexivity. Qed.

Lemma find_first {A : Type} (p : A -> bool) (l : list A) (x : A) :
  In x l -> p x = true -> (forall y, In y l -> p y = true -> y = x) ->
  find p l = Some x.
Proof.
  intros Hin Hp Huniq.
  destruct (find p l) as [y |] eqn:E.
  - apply find_some in E as [Hy Hpy]. f_equal. now apply Huniq.
  - pose proof (List.find_none p l E x Hin) as Hf. congruence.
Qed.

(** X5. In [findQuarterKey] an exact match after normalization takes
    precedence over containment, and the answer does not depend on the
    order of the two loops when exactly one key normalizes to the wanted
    label: that key is returned for all visiting orders. *)
Theorem findQuarterKey_exact_unique (d : object) (pass1 pass2 : list string)
    (q k : string) :
  Permutation (keys d) pass1 ->
  In k (keys d) ->
  normalize k = normalize q ->
  (forall k', In k' (keys d) -> normalize k' = normalize q -> k' = k) ->
  findQuarterKey_passes pass1 pass2 q = k.
Proof.
  intros Hperm Hin Hk Huniq. unfold findQuarterKey_passes.
  rewrite (find_first _ pass1 k); [reflexivity | | |].
  - now apply (Permutation_in _ Hperm).
  - rewrite Hk. apply String.eqb_refl.
  - intros y Hy Hp. apply String.eqb_eq in Hp.
    apply Huniq; [| congruence].
    now apply (Permutation_in _ (Permutation_sym Hperm)).
Qed.

Lemma findQuarterKey_exact_unique_witness :
  findQuarterKey_passes ["Q1 FY24-25"; "Q1 FY24"] ["Q1 FY24-25"; "Q1 FY24"] "q1fy24"
  = "Q1 FY24".
Proof.
  apply (findQuarterKey_exact_unique
           [("Q1 FY24", JNull); ("Q1 FY24-25", JNull)]).
  - apply perm_swap.
  - left. reflexivity.
  - reflexivity.
  - intros k' [<- | [<- | []]] H; [reflexivity | discriminate H].
Defined.

Definition alnum_lower (c : ascii) : bool := is_lower c || is_digit c.

Lemma lower_is_lower (c : ascii) : is_upper c = true -> alnum_lower (lower c) = true.
Proof.
  destruct c as [[] [] [] [] [] [] [] []]; vm_compute; intros H;
    first [reflexivity | discriminate H].
Qed.

Lemma alnum_lower_not_upper (c : ascii) : alnum_lower c = true -> is_upper c = false.
Proof.
  destruct c as [[] [] [] [] [] [] [] []]; vm_compute; intros H;
    first [reflexivity | discriminate H].
Qed.

Lemma normalize_alphabet_upto (n : nat) :
  forall s, (String.length s <= n)%nat -> forall_chars alnum_lower (normalize s) = true.
Proof.
  induction n as [| n IH]; intros s Hlen.
  - destruct s; [reflexivity | simpl in Hlen; lia].
  - destruct s as [| c s1]; [reflexivity |].
    simpl in Hlen. cbn [normalize].
    destruct (is_upper c) eqn:Eu.
    { cbn [forall_chars]. rewrite (lower_is_lower _ Eu). apply IH. lia. }
    destruct (is_lower c || is_digit c) eqn:El.
    { cbn [forall_chars]. unfold alnum_lower at 1. rewrite El. apply IH. lia. }
    destruct s1 as [| b s2]; [reflexivity |].
    simpl in Hlen.
    destruct ((code c =? 196) && (code b =? 176)).
    { cbn [forall_chars]. apply IH. lia. }
    destruct s2 as [| a s3]; [apply IH; simpl; lia |].
    simpl in Hlen.
    destruct ((code c =? 226) && (code b =? 132) && (code a =? 170)).
    { cbn [forall_chars]. apply IH. lia. }
    apply IH. simpl. lia.
Qed.

Lemma normalize_fixed (t : string) :
  forall_chars alnum_lower t = true -> normalize t = t.
Proof.
  induction t as [| c t IH]; intros H; [reflexivity |].
  cbn [forall_chars] in H. apply andb_prop in H as [Hc Ht].
  cbn [normalize]. rewrite (alnum_lower_not_upper _ Hc).
  unfold alnum_lower in Hc. rewrite Hc. now rewrite IH.
Qed.

(** X6. [normalize] yields only lower-case ASCII letters and digits, and
    it is idempotent: a normalized label is its own normal form. *)
Theorem normalize_idempotent (s : string) :
  forall_chars alnum_lower (normalize s) = true /\
  normalize (normalize s) = normalize s.
Proof.
  assert (H : forall_chars alnum_lower (normalize s) = true)
    by (apply (normalize_alphabet_upto (String.length s)); lia).
  split; [exact H | now apply normalize_fixed].
Qed.


(** ** types.go and main.go: what every record of the pipeline satisfies *)

Lemma formatFloat_nonempty (f : float) : formatFloat f <> "".
Proof.
  assert (Hfix : forall s k, 0 <= k ->
             TrimRight (TrimRight (fixed2 s k) "0") "." <> "").
  { intros s k Hk. rewrite trim_fixed2 by assumption. unfold decimal_text.
    destruct (digits_of_spec (k / 100)) as (d & ds & -> & _).
    { apply Z.div_pos; lia. }
    destruct s; discriminate. }
  unfold formatFloat, FormatFloat_f2. cbv zeta.
  destruct (Prim2SF f) as [s | s | | s m e].
  - apply Hfix. lia.
  - destruct s; discriminate.
  - discriminate.
  - apply Hfix, hundredths_nonneg.
Qed.

(** The alignment of the display and the numeric arrays of a record. *)
Record aligned (cr : CompanyResult) : Prop := {
  aligned_quarters : (List.length (Quarters cr) <= 4)%nat;
  aligned_revenue : List.length (Revenue cr) = List.length (Quarters cr);
  aligned_netprofit : List.length (NetProfit cr) = List.length (Quarters cr);
  aligned_revenue_nums : RevenueNums cr = map quarterValueToFloat64 (Revenue cr);
  aligned_netprofit_nums : NetProfitNums cr = map quarterValueToFloat64 (NetProfit cr);
  aligned_revenue_text : Forall (fun v => v <> "") (Revenue cr);
  aligned_netprofit_text : Forall (fun v => v <> "") (NetProfit cr);
}.

Section Aligned.

Variable Marshal : JSON -> string.
Variable json_decode : string -> option JSON.
Variable FetchTrendSearch : string -> result (list TrendItem).
Variable ExtractFundamentalsURLFromPage : string -> result string.
Variable http_get : string -> string -> result string.

Lemma valueFromMap_nonempty (m : object) (ks : list string) :
  valueFromMap Marshal m ks <> "".
Proof.
  induction ks as [| k ks IH]; cbn [valueFromMap]; [discriminate |].
  destruct (lookup m k) as [[| b | f | s | a | o] |]; try exact IH.
  - destruct (0 <? String.length (Marshal (JBool b)))%nat eqn:E; [| exact IH].
    intros H. rewrite H in E. discriminate E.
  - apply formatFloat_nonempty.
  - destruct (ParseFloat s); [apply formatFloat_nonempty |].
    destruct (String.eqb_spec s ""); [exact IH | assumption].
  - destruct (0 <? String.length (Marshal (JArray a)))%nat eqn:E; [| exact IH].
    intros H. rewrite H in E. discriminate E.
  - destruct (0 <? String.length (Marshal (JObject o)))%nat eqn:E; [| exact IH].
    intros H. rewrite H in E. discriminate E.
Qed.

Lemma read_quarter_nonempty (dump : option object) (q : string) :
  fst (read_quarter Marshal dump q) <> "" /\ snd (read_quarter Marshal dump q) <> "".
Proof.
  unfold read_quarter.
  destruct dump as [d |]; [| split; discriminate].
  destruct (as_object (lookup d q)).
  { split; apply valueFromMap_nonempty. }
  destruct (negb (String.eqb (findQuarterKey d q) "")); [| split; discriminate].
  destruct (as_object (lookup d (findQuarterKey d q))).
  - split; apply valueFromMap_nonempty.
  - split; discriminate.
Qed.

Lemma parse_aligned (shortName fundJSON : string) :
  aligned (ParseCompanyFundamentals Marshal json_decode shortName fundJSON).
Proof.
  unfold ParseCompanyFundamentals.
  destruct (Unmarshal_root json_decode fundJSON) as [root |].
  2:{ constructor; cbn; auto. }
  set (body := match root with Some r => as_object (lookup r "body") | None => None end).
  set (qOrder := match body with
                 | Some b => match as_array (lookup b "quarterlyOrder") with
                             | Some qo => string_items qo
                             | None => []
                             end
                 | None => []
                 end).
  set (dump := match body with
               | Some b => match lookup b "quarterlyDataDump" with
                           | Some (JObject qd) => chooseBestDump qd qOrder
                           | _ => None
                           end
               | None => None
               end).
  set (max := if (List.length qOrder <? 4)%nat then List.length qOrder else 4%nat).
  set (qs := firstn max qOrder).
  assert (Hqs : (List.length qs <= 4)%nat).
  { subst qs max. rewrite length_firstn.
    destruct (Nat.ltb_spec (List.length qOrder) 4); lia. }
  rewrite pad_loop_spec by (cbn [Quarters]; lia).
  cbn [Quarters Revenue NetProfit RevenueNums NetProfitNums Company LongName].
  constructor; cbn [Quarters Revenue NetProfit RevenueNums NetProfitNums].
  - rewrite length_app, repeat_length. lia.
  - now rewrite !length_app, !length_map, !repeat_length.
  - now rewrite !length_app, !length_map, !repeat_length.
  - reflexivity.
  - reflexivity.
  - apply Forall_app. split.
    + apply Forall_forall. intros v Hv.
      apply in_map_iff in Hv as (e & <- & He).
      apply in_map_iff in He as (q & <- & _). apply read_quarter_nonempty.
    + apply Forall_forall. intros v Hv. apply repeat_spec in Hv. subst v. discriminate.
  - apply Forall_app. split.
    + apply Forall_forall. intros v Hv.
      apply in_map_iff in Hv as (e & <- & He).
      apply in_map_iff in He as (q & <- & _). apply read_quarter_nonempty.
    + apply Forall_forall. intros v Hv. apply repeat_spec in Hv. subst v. discriminate.
Qed.

(** X7. Whatever the payload, the record that [ParseCompanyFundamentals]
    returns is aligned: it has at most four quarters, as many revenue and
    net-profit texts as quarters, no text is empty, and each numeric array
    is the reading by [quarterValueToFloat64] of the texts at the same
    indices.  Each of the five arrays has four entries when the payload
    decodes into a map, and none when it does not. *)
Theorem ParseCompanyFundamentals_aligned (shortName fundJSON : string) :
  let cr := ParseCompanyFundamentals Marshal json_decode shortName fundJSON in
  aligned cr /\
  Company cr = shortName /\
  List.length (RevenueNums cr) = List.length (Quarters cr) /\
  List.length (NetProfitNums cr) = List.length (Quarters cr) /\
  List.length (Quarters cr) =
    match Unmarshal_root json_decode fundJSON with
    | Some _ => 4%nat
    | None => 0%nat
    end.
Proof.
  intros cr. subst cr.
  pose proof (parse_aligned shortName fundJSON) as Ha.
  pose proof (ParseCompanyFundamentals_slots Marshal json_decode shortName fundJSON) as Hs.
  cbv zeta in Hs.
  split; [exact Ha |]. split.
  { unfold ParseCompanyFundamentals.
    destruct (Unmarshal_root json_decode fundJSON); [| reflexivity].
    cbn [Company]. now rewrite pad_loop_spec by (cbn [Quarters]; rewrite length_firstn; lia). }
  destruct Ha as [_ H2 H3 H4 H5 _ _].
  rewrite H4, H5, !length_map, H2, H3.
  split; [reflexivity |]. split; [reflexivity |].
  destruct (Unmarshal_root json_decode fundJSON).
  - now destruct Hs as (-> & _).
  - now destruct Hs as (-> & _).
Qed.

(** A record that a worker sends carries the short and the long name of
    its entity, and it is aligned. *)
Lemma worker_record (itm : BSEItem) (cr : CompanyResult) :
  worker Marshal json_decode FetchTrendSearch ExtractFundamentalsURLFromPage http_get itm
  = Ok cr ->
  Company cr = ShortName itm /\ LongName cr = LongName_ itm /\ aligned cr.
Proof.
  unfold worker.
  destruct (FetchTrendSearch (ShortName itm)) as [[| tr trs] | e]; try discriminate.
  destruct (ExtractFundamentalsURLFromPage _) as [fundURL | e]; [| discriminate].
  destruct (FetchFundamentalsJSON http_get fundURL _) as [fundJSON | e]; [| discriminate].
  intros H. injection H as <-.
  pose proof (parse_aligned (ShortName itm) fundJSON) as [H1 H2 H3 H4 H5 H6 H7].
  cbn [Company LongName]. split; [| split].
  - unfold ParseCompanyFundamentals.
    destruct (Unmarshal_root json_decode fundJSON); [| reflexivity].
    cbn [Company]. now rewrite pad_loop_spec by (cbn [Quarters]; rewrite length_firstn; lia).
  - reflexivity.
  - constructor; cbn [Quarters Revenue NetProfit RevenueNums NetProfitNums]; assumption.
Qed.

End Aligned.

Definition acme_sent : CompanyResult :=
  {| Company := "ACME"; LongName := "Acme Ltd";
     Quarters := ["Q1"; "Q2"; "Q3"; "Q4"];
     Revenue := ["110"; "100"; not_declared; not_declared];
     NetProfit := ["7"; "5"; not_declared; not_declared];
     RevenueNums := [110%float; 100%float; nan; nan];
     NetProfitNums := [7%float; 5%float; nan; nan] |}.

Lemma acme_sent_aligned : aligned acme_sent.
Proof.
  apply (worker_record Marshal_outline (fun _ => Some acme_document)
           (fun _ => Ok [sample_trend]) (fun _ => Ok "https://trendlyne.com/f/")
           (fun _ _ => Ok "{}") sample_item).
  vm_compute. reflexivity.
Qed.

(** ** main.go: bounds that the batch keeps *)

Section Admission.

Variable Marshal : JSON -> string.
Variable json_decode : string -> option JSON.
Variable FetchTrendSearch : string -> result (list TrendItem).
Variable ExtractFundamentalsURLFromPage : string -> result string.
Variable http_get : string -> string -> result string.

Abbreviation worker' :=
  (worker Marshal json_decode FetchTrendSearch ExtractFundamentalsURLFromPage http_get).
Abbreviation step' :=
  (step Marshal json_decode FetchTrendSearch ExtractFundamentalsURLFromPage http_get).
Abbreviation steps' :=
  (steps Marshal json_decode FetchTrendSearch ExtractFundamentalsURLFromPage http_get).
Abbreviation reachable' :=
  (reachable Marshal json_decode FetchTrendSearch ExtractFundamentalsURLFromPage http_get).

Lemma sem_bound_step (s s' : state) :
  (sem s <= maxConcurrent)%nat -> step' s s' -> (sem s' <= maxConcurrent)%nat.
Proof.
  intros Hs Hstep.
  inversion Hstep as
    [ itm rest s0 Htodo Hlt | itm ws1 ws2 s0 Hws Hroom Hopen
    | itm ws1 ws2 n s0 Hws Hsem | itm ws1 ws2 n s0 Hws Hw
    | s0 Htodo Hc | s0 Hc Hw | r rest s0 Hc Hf Hch | s0 Hc Hf Hch ];
    subst; cbn [sem]; lia.
Qed.

Lemma sem_bound_steps (n : nat) (s s' : state) :
  (sem s <= maxConcurrent)%nat -> steps' n s s' -> (sem s' <= maxConcurrent)%nat.
Proof.
  intros Hs Hsteps. induction Hsteps as [| n s1 s2 s3 H12 _ IH]; [assumption |].
  apply IH. now apply (sem_bound_step s1).
Qed.

(** X8. Admission control: in every state that the batch can reach, at
    most [maxConcurrent] = 20 goroutines hold a token of the semaphore,
    that is, are between their start and the release in their deferred
    call; and the results channel never holds more values than there are
    items. *)
Theorem batch_admission (items : list BSEItem) (s : state) :
  reachable' items s ->
  (List.length (filter holds_token (workers s)) <= 20)%nat /\
  (List.length (resultsCh s) <= List.length items)%nat.
Proof.
  intros Hreach.
  pose proof (inv_reachable _ _ _ _ _ items s Hreach) as [Hsem _ _ Hperm _ _ _ _].
  destruct Hreach as [n Hn].
  split.
  - rewrite <- Hsem. change 20%nat with maxConcurrent.
    apply (sem_bound_steps n (init items)); [cbn; unfold maxConcurrent; lia | exact Hn].
  - apply Permutation_length in Hperm.
    rewrite !length_app, !length_map in Hperm. lia.
Qed.

(** X9. A goroutine that has its result ready is never blocked on the
    results channel: in every reachable state the send of a working
    goroutine is enabled, the buffer has room and the channel is not
    closed. *)
Theorem send_never_blocks (items : list BSEItem) (s : state)
    (itm : BSEItem) (ws1 ws2 : list (BSEItem * wphase)) :
  reachable' items s ->
  workers s = (ws1 ++ (itm, Working) :: ws2)%list ->
  (List.length (resultsCh s) < capacity s)%nat /\
  closer s <> Closed /\
  exists s', step' s s' /\
             resultsCh s' = (resultsCh s ++ [worker' itm])%list /\
             workers s' = (ws1 ++ (itm, Sent) :: ws2)%list.
Proof.
  intros Hreach Hws.
  pose proof (inv_reachable _ _ _ _ _ items s Hreach) as Hinv.
  assert (Hroom := room_for_unsent _ _ _ _ _ items s itm ws1 ws2 Hinv Hws).
  assert (Hopen : closer s <> Closed).
  { intros Hc. apply (inv_closed _ _ _ _ _ _ _ Hinv) in Hc.
    rewrite Hc in Hws. now destruct ws1. }
  split; [exact Hroom |]. split; [exact Hopen |].
  eexists. split; [eapply step_send; eassumption |]. split; reflexivity.
Qed.

End Admission.

Lemma batch_admission_witness :
  let s1 :=
    {| todo := []; workers := [(sample_item, Working)]; sem := 1; wg := 1;
       capacity := 1; resultsCh := []; closer := NotStarted; received := [];
       results := []; finished := false |} in
  (List.length (filter holds_token (workers s1)) <= 20)%nat /\
  (List.length (resultsCh s1) <= List.length [sample_item])%nat.
Proof.
  apply (batch_admission Marshal_outline (fun _ => None) (fun _ => Ok [])
           (fun _ => Ok "") (fun _ _ => Ok "") [sample_item]).
  exists 1%nat. eapply steps_next; [| apply steps_refl].
  apply (step_dispatch _ _ _ _ _ sample_item [] (init [sample_item]));
    [reflexivity | cbn; unfold maxConcurrent; lia].
Defined.

Lemma send_never_blocks_witness :
  let s1 :=
    {| todo := []; workers := [(sample_item, Working)]; sem := 1; wg := 1;
       capacity := 1; resultsCh := []; closer := NotStarted; received := [];
       results := []; finished := false |} in
  (List.length (resultsCh s1) < capacity s1)%nat /\ closer s1 <> Closed.
Proof.
  intros s1.
  destruct (send_never_blocks Marshal_outline (fun _ => None) (fun _ => Ok [])
              (fun _ => Ok "") (fun _ _ => Ok "") [sample_item] s1 sample_item [] [])
    as (H1 & H2 & _).
  - exists 1%nat. eapply steps_next; [| apply steps_refl].
    apply (step_dispatch _ _ _ _ _ sample_item [] (init [sample_item]));
      [reflexivity | cbn; unfold maxConcurrent; lia].
  - reflexivity.
  - split; assumption.
Defined.


(** ** report.go: the cells of the table *)

(** [strconv.FormatFloat(f, 'f', prec, 64)], which the verb [%.<prec>f]
    of [fmt.Sprintf] prints: the value rounded to [prec] decimals, ties
    to even on the exact binary value. *)
Definition scaled (prec : nat) (m e : Z) : Z :=
  let p := 10 ^ Z.of_nat prec in
  if 0 <=? e then m * 2 ^ e * p else rne_div (m * p) (2 ^ (- e)).

(** The [prec] low decimal digits of [r], most significant first. *)
Fixpoint fraction (prec : nat) (r : Z) : list Z :=
  match prec with
  | O => []
  | S p => (r / 10 ^ Z.of_nat p) mod 10 :: fraction p r
  end.

Definition fixed (prec : nat) (neg : bool) (k : Z) : string :=
  sign_string neg ++ string_of_digits (digits_of (k / 10 ^ Z.of_nat prec)) ++
  match prec with
  | O => ""
  | _ => String "." (string_of_digits (fraction prec k))
  end.

Definition FormatFloat_f (prec : nat) (f : float) : string :=
  match Prim2SF f with
  | S754_nan => "NaN"
  | S754_infinity false => "+Inf"
  | S754_infinity true => "-Inf"
  | S754_zero s => fixed prec s 0
  | S754_finite s m e => fixed prec s (scaled prec (Zpos m) e)
  end.

#[local] Open Scope float_scope.

Definition fmtPercentChange (curr prev : float) : string :=
  if (is_nan curr || is_nan prev)%bool then "N/A"
  else if prev =? 0 then "N/A (prev=0)"
  else
    let pct := (curr - prev) / abs prev * 100 in
    (FormatFloat_f 2 pct ++ "%")%string.

Definition pctColorClass (curr prev : float) : string :=
  if (is_nan curr || is_nan prev)%bool then "neutral"
  else if prev =? 0 then
    if curr =? 0 then "neutral"
    else if 0 <? curr then "positive"
    else "negative"
  else
    let pct := (curr - prev) / abs prev * 100 in
    if 0.5 <? pct then "positive"
    else if pct <? -0.5 then "negative"
    else "neutral".

Definition numSortValue (v : float) : string :=
  if is_nan v then "" else FormatFloat_f 6 v.

#[local] Close Scope float_scope.

Example FormatFloat_f_values :
  FormatFloat_f 6 10%float = "10.000000" /\
  FormatFloat_f 6 (-0.5)%float = "-0.500000" /\
  FormatFloat_f 6 0x1p-20%float = "0.000001" /\
  FormatFloat_f 6 0x1p-21%float = "0.000000" /\
  FormatFloat_f 6 0x1.8p-1%float = "0.750000" /\
  FormatFloat_f 2 0x1.8p-1%float = "0.75" /\
  FormatFloat_f 0 2.5%float = "2" /\
  FormatFloat_f 0 3.5%float = "4" /\
  fmtPercentChange 110 100 = "10.00%" /\
  fmtPercentChange 90 100 = "-10.00%" /\
  fmtPercentChange 1 0 = "N/A (prev=0)" /\
  pctColorClass 1 0 = "positive" /\
  numSortValue (pctOrNaN 110 100) = "10.000000".
Proof. vm_compute. repeat split. Qed.

(** The general formatter agrees with [FormatFloat_f2] at two
    decimals. *)
Lemma FormatFloat_f_two (f : float) : FormatFloat_f 2 f = FormatFloat_f2 f.
Proof.
  assert (Hfix : forall s k, fixed 2 s k = fixed2 s k).
  { intros s k. unfold fixed, fixed2, fraction.
    change (10 ^ Z.of_nat 2) with 100. change (10 ^ Z.of_nat 1) with 10.
    change (10 ^ Z.of_nat 0) with 1.
    rewrite Z.div_1_r.
    replace (k / 10 mod 10) with (k mod 100 / 10); [reflexivity |].
    change 100 with (10 * 10).
    rewrite Z.rem_mul_r by lia.
    rewrite (Z.add_comm (k mod 10)), Z.mul_comm, Z.div_add_l by lia.
    rewrite (Z.div_small (k mod 10) 10) by (apply Z.mod_pos_bound; lia). lia. }
  unfold FormatFloat_f, FormatFloat_f2.
  destruct (Prim2SF f) as [s | s | | s m e].
  - apply Hfix.
  - reflexivity.
  - reflexivity.
  - rewrite Hfix. reflexivity.
Qed.

Lemma fixed_nonempty (prec : nat) (neg : bool) (k : Z) : fixed (S prec) neg k <> "".
Proof.
  unfold fixed. destruct (sign_string neg); [| discriminate].
  destruct (string_of_digits _); discriminate.
Qed.

Lemma FormatFloat_f_nonempty (prec : nat) (f : float) : FormatFloat_f (S prec) f <> "".
Proof.
  unfold FormatFloat_f.
  destruct (Prim2SF f) as [s | [] | | s m e]; try discriminate; apply fixed_nonempty.
Qed.

Lemma rev_snoc (s : string) (c : ascii) : rev (s ++ String c "") = String c (rev s).
Proof. unfold rev. now rewrite rev_acc_app. Qed.

Lemma percent_text_not_na (s : string) :
  s ++ "%" <> "N/A" /\ s ++ "%" <> "N/A (prev=0)".
Proof.
  split; intros H; apply (f_equal rev) in H; rewrite rev_snoc in H; discriminate H.
Qed.

Lemma numSortValue_empty (v : float) : numSortValue v = "" <-> is_nan v = true.
Proof.
  unfold numSortValue. destruct (is_nan v); split; try reflexivity; try discriminate.
  intros H. now apply FormatFloat_f_nonempty in H.
Qed.

(** X10. The text, the sort key and the colour of a percent-change
    cell agree.  The text is "N/A" exactly when an input is NaN and
    "N/A (prev=0)" exactly when no input is NaN and the previous value
    is zero; in both cases the sort key is empty, and for a NaN input the
    colour is neutral.  In every other case the text is the value of
    [pctOrNaN], printed with two decimals and a percent sign.  A sort key
    is empty exactly for NaN. *)
Theorem change_cell_consistent (curr prev : float) :
  let text := fmtPercentChange curr prev in
  let key := numSortValue (pctOrNaN curr prev) in
  (text = "N/A" <-> (is_nan curr || is_nan prev) = true) /\
  (text = "N/A (prev=0)" <->
   (is_nan curr || is_nan prev) = false /\ (prev =? 0)%float = true) /\
  (text = "N/A" \/ text = "N/A (prev=0)" -> key = "") /\
  (text = "N/A" -> pctColorClass curr prev = "neutral") /\
  (text <> "N/A" -> text <> "N/A (prev=0)" ->
   text = FormatFloat_f 2 (pctOrNaN curr prev) ++ "%") /\
  (forall v, numSortValue v = "" <-> is_nan v = true).
Proof.
  cbv zeta. unfold fmtPercentChange, pctOrNaN, pctColorClass.
  destruct (is_nan curr || is_nan prev) eqn:E1.
  { split; [tauto |]. split; [split; [discriminate | intros [H _]; discriminate H] |].
    split; [reflexivity |]. split; [reflexivity |].
    split; [intros H; now elim H | exact numSortValue_empty]. }
  destruct (prev =? 0)%float eqn:E2.
  { split; [split; discriminate |]. split; [tauto |].
    split; [reflexivity |]. split; [discriminate |].
    split; [intros _ H; now elim H | exact numSortValue_empty]. }
  cbv zeta.
  destruct (percent_text_not_na (FormatFloat_f 2 ((curr - prev) / abs prev * 100)%float))
    as [Hna1 Hna2].
  split; [split; [intros H; now elim Hna1 | discriminate] |].
  split; [split; [intros H; now elim Hna2 | intros [_ H]; discriminate H] |].
  split; [intros [H | H]; [now elim Hna1 | now elim Hna2] |].
  split; [intros H; now elim Hna1 |].
  split; [reflexivity | exact numSortValue_empty].
Qed.

(** *** The header and the value cells of [GenerateHTMLReport]

    An index expression out of range stops the program with a run-time
    panic: the loops below yield [None] then. *)

(** The assignment [h[i] = q]. *)
Fixpoint store (h : list string) (i : nat) (q : string) : option (list string) :=
  match h, i with
  | [], _ => None
  | _ :: h', O => Some (q :: h')
  | x :: h', S i' =>
      match store h' i' q with
      | Some h'' => Some (x :: h'')
      | None => None
      end
  end.

(** [for i, q := range r.Quarters { if q != "" { headerQuarters[i] = q } }]
    from index [i] on. *)
Fixpoint header_loop (qs : list string) (i : nat) (h : list string)
  : option (list string) :=
  match qs with
  | [] => Some h
  | q :: qs' =>
      if negb (String.eqb q "") then
        match store h i q with
        | Some h' => header_loop qs' (S i) h'
        | None => None
        end
      else header_loop qs' (S i) h
  end.

(** The loop over [results] ends with [break] after its first turn. *)
Definition headerQuarters (results : list CompanyResult) : option (list string) :=
  match results with
  | [] => Some ["Q1"; "Q2"; "Q3"; "Q4"]
  | r :: _ => header_loop (Quarters r) 0 ["Q1"; "Q2"; "Q3"; "Q4"]
  end.

Record cell := {
  cell_text : string;
  cell_num : float;
}.

(** One of the two [if] statements of the cell loop, for the texts and the
    numbers of one metric. *)
Definition read_cell (texts : list QuarterValue) (nums : list float) (i : nat)
  : option cell :=
  if (i <? List.length texts)%nat && negb (String.eqb (nth i texts "") "") then
    match nth_error nums i with
    | Some x => Some {| cell_text := nth i texts ""; cell_num := x |}
    | None => None
    end
  else Some {| cell_text := "not declared"; cell_num := nan |}.

(** The loop [for i := 0; i < 4; i++] of a row over the indices [idx],
    with the running [notDeclaredCount]. *)
Fixpoint cell_loop (r : CompanyResult) (idx : list nat) (count : Z)
  : option (list (cell * cell) * Z) :=
  match idx with
  | [] => Some ([], count)
  | i :: idx' =>
      match read_cell (Revenue r) (RevenueNums r) i with
      | None => None
      | Some rv =>
          match read_cell (NetProfit r) (NetProfitNums r) i with
          | None => None
          | Some np =>
              let count' := if is_nan (cell_num rv) then count + 1 else count in
              match cell_loop r idx' count' with
              | Some (cs, c) => Some ((rv, np) :: cs, c)
              | None => None
              end
          end
      end
  end.

(** The row loop: the cells of every row and the final
    [notDeclaredCount]. *)
Fixpoint rows_loop (results : list CompanyResult) (count : Z)
  : option (list (list (cell * cell)) * Z) :=
  match results with
  | [] => Some ([], count)
  | r :: results' =>
      match cell_loop r [0; 1; 2; 3]%nat count with
      | None => None
      | Some (cs, count') =>
          match rows_loop results' count' with
          | Some (rows, c) => Some (cs :: rows, c)
          | None => None
          end
      end
  end.

Definition five_quarters : CompanyResult :=
  {| Company := "X"; LongName := ""; Quarters := ["a"; "b"; "c"; "d"; "e"];
     Revenue := ["1"]; NetProfit := []; RevenueNums := []; NetProfitNums := [] |}.

(** Records that are not aligned stop the report. *)
Example report_panics :
  headerQuarters [five_quarters] = None /\ rows_loop [five_quarters] 0 = None.
Proof. split; reflexivity. Qed.

(** What the cell at index [i] shows for an aligned record. *)
Definition expected_cell (texts : list QuarterValue) (nums : list float) (i : nat) : cell :=
  {| cell_text := nth i texts "not declared"; cell_num := nth i nums nan |}.

Definition expected_row (r : CompanyResult) : list (cell * cell) :=
  map (fun i => (expected_cell (Revenue r) (RevenueNums r) i,
                 expected_cell (NetProfit r) (NetProfitNums r) i))
      [0; 1; 2; 3]%nat.

Definition expected_header (qs : list string) : list string :=
  map (fun id : nat * string =>
         let q := nth (fst id) qs "" in
         if String.eqb q "" then snd id else q)
      [(0, "Q1"); (1, "Q2"); (2, "Q3"); (3, "Q4")]%nat.

(** The revenue cells of a row without a number. *)
Definition missing_revenue (r : CompanyResult) : Z :=
  Z.of_nat
    (List.length (filter (fun i => is_nan (nth i (RevenueNums r) nan)) [0; 1; 2; 3]%nat)).

Lemma read_cell_aligned (texts : list QuarterValue) (nums : list float) (i : nat) :
  nums = map quarterValueToFloat64 texts ->
  Forall (fun v => v <> "") texts ->
  read_cell texts nums i = Some (expected_cell texts nums i) /\
  cell_num (expected_cell texts nums i)
  = quarterValueToFloat64 (cell_text (expected_cell texts nums i)).
Proof.
  intros -> Hne.
  assert (Hnd : quarterValueToFloat64 "not declared" = nan) by reflexivity.
  assert (Hmap : nth i (map quarterValueToFloat64 texts) nan
                 = quarterValueToFloat64 (nth i texts "not declared")).
  { rewrite <- Hnd at 1. apply map_nth. }
  unfold read_cell, expected_cell. cbn [cell_num cell_text].
  split; [| exact Hmap].
  destruct (Nat.ltb_spec i (List.length texts)) as [Hlt | Hge].
  - assert (Hin : In (nth i texts "") texts) by now apply nth_In.
    rewrite Forall_forall in Hne. apply Hne in Hin.
    apply String.eqb_neq in Hin. rewrite Hin. cbn [negb andb].
    rewrite (nth_error_nth' _ nan) by now rewrite length_map.
    now rewrite (nth_indep texts "" "not declared" Hlt).
  - cbn [andb]. rewrite Hmap. now rewrite (nth_overflow texts _ Hge).
Qed.

Lemma cell_loop_aligned (r : CompanyResult) (idx : list nat) (count : Z) :
  aligned r ->
  cell_loop r idx count =
  Some (map (fun i => (expected_cell (Revenue r) (RevenueNums r) i,
                       expected_cell (NetProfit r) (NetProfitNums r) i)) idx,
        count + Z.of_nat
                  (List.length (filter (fun i => is_nan (nth i (RevenueNums r) nan)) idx))).
Proof.
  intros [_ _ _ Hrn Hnn Hrt Hnt]. revert count.
  induction idx as [| i idx IH]; intros count; cbn [cell_loop map filter List.length].
  - f_equal. f_equal. lia.
  - destruct (read_cell_aligned _ _ i Hrn Hrt) as [-> _].
    destruct (read_cell_aligned _ _ i Hnn Hnt) as [-> _].
    cbv zeta. rewrite IH. cbn [cell_num expected_cell].
    destruct (is_nan (nth i (RevenueNums r) nan)); cbn [List.length]; f_equal; f_equal; lia.
Qed.

Lemma header_loop_aligned (qs : list string) :
  (List.length qs <= 4)%nat ->
  header_loop qs 0 ["Q1"; "Q2"; "Q3"; "Q4"] = Some (expected_header qs).
Proof.
  intros H.
  destruct qs as [| q0 [| q1 [| q2 [| q3 [| q4 qs]]]]]; cbn [List.length] in H; try lia;
    unfold expected_header; cbn [header_loop map nth fst snd store String.eqb negb];
    repeat match goal with
           | |- context [String.eqb ?q ""] =>
               destruct (String.eqb q "") eqn:?; cbn [header_loop store negb]
           end; reflexivity.
Qed.

Lemma rows_loop_aligned (results : list CompanyResult) (count : Z) :
  Forall aligned results ->
  rows_loop results count =
  Some (map expected_row results,
        count + fold_right (fun r n => missing_revenue r + n) 0 results).
Proof.
  intros H. revert count.
  induction H as [| r results Hr _ IH]; intros count; cbn [rows_loop map fold_right].
  - f_equal. f_equal. lia.
  - rewrite (cell_loop_aligned r _ count Hr), IH.
    unfold expected_row, missing_revenue. f_equal. f_equal. lia.
Qed.

(** X11. On aligned records, hence on every record that a worker sends,
    the header and the cell loops of [GenerateHTMLReport] never index out
    of range.  The header shows four labels, those of the first record
    where it has a non-empty one and Q1..Q4 elsewhere; every row has four
    pairs of cells; the cell at index [i] shows the text stored at [i], or
    "not declared" beyond the stored ones, and its number is the reading
    of that text by [quarterValueToFloat64]. *)
Theorem report_cells_aligned (results : list CompanyResult) :
  Forall aligned results ->
  (exists n, rows_loop results 0 = Some (map expected_row results, n)) /\
  headerQuarters results =
    Some (match results with
          | [] => ["Q1"; "Q2"; "Q3"; "Q4"]
          | r :: _ => expected_header (Quarters r)
          end) /\
  forall r i, In r results ->
    cell_num (expected_cell (Revenue r) (RevenueNums r) i)
    = quarterValueToFloat64 (cell_text (expected_cell (Revenue r) (RevenueNums r) i)) /\
    cell_num (expected_cell (NetProfit r) (NetProfitNums r) i)
    = quarterValueToFloat64 (cell_text (expected_cell (NetProfit r) (NetProfitNums r) i)).
Proof.
  intros H. split; [| split].
  - eexists. apply (rows_loop_aligned results 0 H).
  - destruct results as [| r results]; [reflexivity |].
    inversion H as [| ? ? Hr _]; subst. cbn [headerQuarters].
    apply header_loop_aligned, (aligned_quarters r Hr).
  - intros r i Hin. rewrite Forall_forall in H.
    destruct (H r Hin) as [_ _ _ Hrn Hnn Hrt Hnt].
    split; [apply (read_cell_aligned _ _ i Hrn Hrt) | apply (read_cell_aligned _ _ i Hnn Hnt)].
Qed.

Definition unpadded_sent : CompanyResult :=
  {| Company := "ACME"; LongName := "Acme Ltd"; Quarters := []; Revenue := [];
     NetProfit := []; RevenueNums := []; NetProfitNums := [] |}.

Lemma aligned_examples : Forall aligned [acme_sent; unpadded_sent].
Proof.
  constructor; [exact acme_sent_aligned |].
  repeat constructor; cbn; lia.
Qed.

Lemma report_cells_aligned_witness :
  headerQuarters [acme_sent; unpadded_sent] = Some ["Q1"; "Q2"; "Q3"; "Q4"].
Proof.
  destruct (report_cells_aligned [acme_sent; unpadded_sent] aligned_examples)
    as (_ & H & _).
  exact H.
Defined.

(** X12. The "not-declared data points" that the report counts are the
    revenue cells without a number: for aligned records the count is the
    sum over the rows of the indices below 4 whose revenue number is NaN
    or missing.  Net profit cells are not counted; a row counts between 0
    and 4, and a record without any entry counts 4. *)
Theorem notDeclaredCount_aligned (results : list CompanyResult)
    (rows : list (list (cell * cell))) (n : Z) :
  Forall aligned results ->
  rows_loop results 0 = Some (rows, n) ->
  n = fold_right (fun r k => missing_revenue r + k) 0 results /\
  0 <= n <= 4 * Z.of_nat (List.length results) /\
  (forall r, RevenueNums r = [] -> missing_revenue r = 4).
Proof.
  intros H Hrows. rewrite (rows_loop_aligned results 0 H) in Hrows.
  injection Hrows as _ <-. split; [lia |]. split.
  - clear H. induction results as [| r results IH]; cbn [fold_right List.length]; [lia |].
    assert (0 <= missing_revenue r <= 4).
    { unfold missing_revenue.
      pose proof (filter_length_le (fun i => is_nan (nth i (RevenueNums r) nan))
                    [0; 1; 2; 3]%nat) as Hle.
      cbn [List.length] in Hle. lia. }
    lia.
  - intros r Hr. unfold missing_revenue. rewrite Hr. reflexivity.
Qed.

Lemma notDeclaredCount_aligned_witness :
  6 = fold_right (fun r k => missing_revenue r + k) 0 [acme_sent; unpadded_sent].
Proof.
  destruct (notDeclaredCount_aligned [acme_sent; unpadded_sent]
              (map expected_row [acme_sent; unpadded_sent]) 6 aligned_examples)
    as (H & _).
  - reflexivity.
  - exact H.
Defined.

(** *** Averages *)

Definition valid (v : float) : bool := negb (is_nan v).

Definition avg_step : float * Z -> float -> float * Z :=
  fun '(sum, count) v =>
    if is_nan v then (sum, count) else ((sum + v)%float, count + 1).

Lemma avg_fold_valid (vals : list float) (acc : float * Z) :
  fold_left avg_step vals acc = fold_left avg_step (filter valid vals) acc.
Proof.
  revert acc. induction vals as [| v vals IH]; intros [sum count]; [reflexivity |].
  cbn [fold_left filter]. unfold valid at 1.
  destruct (is_nan v) eqn:E; cbn [negb].
  - cbn [avg_step]. rewrite E. apply IH.
  - cbn [fold_left avg_step]. rewrite E. apply IH.
Qed.

Lemma avg_fold_sum (xs : list float) (sum : float) (count : Z) :
  forallb valid xs = true ->
  fold_left avg_step xs (sum, count)
  = (fold_left PrimFloat.add xs sum, count + Z.of_nat (List.length xs)).
Proof.
  revert sum count. induction xs as [| x xs IH]; intros sum count H.
  - cbn. f_equal. lia.
  - cbn [forallb] in H. apply andb_prop in H as [Hx Hxs].
    unfold valid in Hx. apply negb_true_iff in Hx.
    cbn [fold_left avg_step List.length]. rewrite Hx, (IH _ _ Hxs). f_equal. lia.
Qed.

Lemma forallb_filter {A : Type} (p : A -> bool) (l : list A) :
  forallb p (filter p l) = true.
Proof.
  induction l as [| x l IH]; [reflexivity |].
  cbn [filter]. destruct (p x) eqn:E; [cbn [forallb]; now rewrite E | exact IH].
Qed.

(** X13. [avgFloats] ignores the NaN entries of its argument: it is NaN
    when no entry is a number, and otherwise the sum of the numbers, added
    from the left starting at 0, divided by how many they are. *)
Theorem avgFloats_valid (vals : list float) :
  avgFloats vals = avgFloats (filter valid vals) /\
  avgFloats vals =
    match filter valid vals with
    | [] => nan
    | xs => (fold_left PrimFloat.add xs 0 / float64_of_int (Z.of_nat (List.length xs)))%float
    end.
Proof.
  assert (Hfold : forall l,
             avgFloats l =
             let '(sum, count) := fold_left avg_step l (0%float, 0) in
             if count =? 0 then nan else (sum / float64_of_int count)%float)
    by reflexivity.
  split.
  - rewrite !Hfold. now rewrite (avg_fold_valid vals).
  - rewrite Hfold, avg_fold_valid, avg_fold_sum by apply forallb_filter.
    destruct (filter valid vals) as [| x xs]; [reflexivity |].
    cbn [Z.add]. destruct (Z.eqb_spec (Z.of_nat (List.length (x :: xs))) 0) as [E | _];
      [cbn [List.length] in E; lia | reflexivity].
Qed.

(** The aggregate of the summary: the loop that sums one column of
    [stats] and the test [count > 0]; [None] when the line is not
    written. *)
Definition summary_average (col : statRow -> float) (stats : list statRow)
  : option float :=
  let '(sum, count) :=
    fold_left
      (fun '(sum, count) s =>
         if negb (is_nan (col s)) then ((sum + col s)%float, count + 1)
         else (sum, count))
      stats (0%float, 0) in
  if 0 <? count then Some (sum / float64_of_int count)%float else None.

Lemma summary_fold (col : statRow -> float) (stats : list statRow) (acc : float * Z) :
  fold_left
    (fun '(sum, count) s =>
       if negb (is_nan (col s)) then ((sum + col s)%float, count + 1)
       else (sum, count))
    stats acc
  = fold_left avg_step (map col stats) acc.
Proof.
  revert acc. induction stats as [| s stats IH]; intros [sum count]; [reflexivity |].
  cbn [fold_left map avg_step]. destruct (is_nan (col s)); cbn [negb]; apply IH.
Qed.

Lemma avg_fold_count (vals : list float) (sum : float) (count : Z) :
  snd (fold_left avg_step vals (sum, count))
  = count + Z.of_nat (List.length (filter valid vals)).
Proof.
  rewrite avg_fold_valid, avg_fold_sum by apply forallb_filter. reflexivity.
Qed.

(** X14. The two averages of the summary are [avgFloats] of the
    percent-change columns: the line is written exactly when some row has
    a change that is a number, and it shows [avgFloats] of the column. *)
Theorem summary_average_avgFloats (col : statRow -> float) (stats : list statRow) :
  match summary_average col stats with
  | Some a => a = avgFloats (map col stats) /\ filter valid (map col stats) <> []
  | None => filter valid (map col stats) = [] /\ is_nan (avgFloats (map col stats)) = true
  end.
Proof.
  unfold summary_average. rewrite summary_fold.
  assert (Hfold : avgFloats (map col stats) =
             let '(sum, count) := fold_left avg_step (map col stats) (0%float, 0) in
             if count =? 0 then nan else (sum / float64_of_int count)%float)
    by reflexivity.
  rewrite Hfold.
  pose proof (avg_fold_count (map col stats) 0%float 0) as Hc.
  destruct (fold_left avg_step (map col stats) (0%float, 0)) as [sum count].
  cbn [snd] in Hc.
  destruct (filter valid (map col stats)) as [| x xs] eqn:E.
  - cbn [List.length] in Hc. subst count. cbn. split; reflexivity.
  - cbn [List.length] in Hc.
    destruct (Z.ltb_spec 0 count) as [_ | Hle]; [| lia].
    destruct (Z.eqb_spec count 0) as [E0 | _]; [lia |].
    split; [reflexivity | discriminate].
Qed.

(** *** The [data-json] attribute of a row

    [json.Marshal] reports an error on a float64 that is NaN or
    infinite, and returns no bytes then; the row loop drops the error
    ([jb, _ := json.Marshal(jsObj)]).  [encode_row] stands for the
    encoding of a row all of whose numbers are finite. *)

Section RowJSON.

Variable encode_row : CompanyResult -> string.




End RowJSON.



(** ** main.go: from the list of the day to the report *)

(** Step 2 of [main]: the items whose meeting date is [today]. *)
Definition todaysItems (today : string) (items : list BSEItem) : list BSEItem :=
  filter (fun it => String.eqb (MeetingDate it) today) items.

Lemma successes_In (l : list (result CompanyResult)) (cr : CompanyResult) :
  In cr (successes l) -> In (Ok cr) l.
Proof.
  induction l as [| [c | e] l IH]; cbn [successes]; [tauto | |].
  - intros [-> | H]; [now left | right; now apply IH].
  - intros H. right. now apply IH.
Qed.

Section Pipeline.

Variable Marshal : JSON -> string.
Variable json_decode : string -> option JSON.
Variable FetchTrendSearch : string -> result (list TrendItem).
Variable ExtractFundamentalsURLFromPage : string -> result string.
Variable http_get : string -> string -> result string.

Abbreviation worker' :=
  (worker Marshal json_decode FetchTrendSearch ExtractFundamentalsURLFromPage http_get).
Abbreviation reachable' :=
  (reachable Marshal json_decode FetchTrendSearch ExtractFundamentalsURLFromPage http_get).

(** Every record gathered so far was sent by the worker of an item of the
    batch. *)
Lemma results_from_workers (items : list BSEItem) (s : state) (cr : CompanyResult) :
  reachable' items s -> In cr (results s) ->
  exists itm, In itm items /\ worker' itm = Ok cr.
Proof.
  intros Hreach Hin.
  pose proof (inv_reachable _ _ _ _ _ items s Hreach) as [_ _ _ Hperm _ _ Hres _].
  rewrite Hres, gather_successes in Hin. apply successes_In in Hin.
  assert (Hall : In (Ok cr) (map worker' items)).
  { apply (Permutation_in _ (Permutation_sym Hperm)). apply in_app_iff. now left. }
  apply in_map_iff in Hall as (itm & E & Hitm). now exists itm.
Qed.

(** X16. From the list of the day to the table.  In every state of the
    batch run on the items of today, each record gathered so far was sent
    by the worker of an item whose meeting date is today and carries the
    short and the long name of that item; all gathered records are
    aligned, so that the header and the cell loops of the report run on
    them without indexing out of range. *)
Theorem pipeline_to_report (today : string) (items : list BSEItem) (s : state) :
  reachable' (todaysItems today items) s ->
  (forall cr, In cr (results s) ->
     exists itm, In itm items /\ MeetingDate itm = today /\
                 worker' itm = Ok cr /\
                 Company cr = ShortName itm /\ LongName cr = LongName_ itm) /\
  Forall aligned (results s) /\
  (exists rows n h,
      rows_loop (results s) 0 = Some (rows, n) /\
      headerQuarters (results s) = Some h /\
      List.length rows = List.length (results s) /\ List.length h = 4%nat).
Proof.
  intros Hreach.
  assert (Hal : Forall aligned (results s)).
  { apply Forall_forall. intros cr Hin.
    destruct (results_from_workers _ s cr Hreach Hin) as (itm & _ & Hw).
    now apply (worker_record _ _ _ _ _ itm cr Hw). }
  split; [| split; [exact Hal |]].
  - intros cr Hin.
    destruct (results_from_workers _ s cr Hreach Hin) as (itm & Hitm & Hw).
    apply filter_In in Hitm as [Hitm Hdate]. apply String.eqb_eq in Hdate.
    destruct (worker_record _ _ _ _ _ itm cr Hw) as (Hc & Hl & _).
    exists itm. repeat split; assumption.
  - exists (map expected_row (results s)).
    eexists.
    exists (match results s with
            | [] => ["Q1"; "Q2"; "Q3"; "Q4"]
            | r :: _ => expected_header (Quarters r)
            end).
    split; [apply (rows_loop_aligned _ 0 Hal) |].
    split; [| split; [apply length_map |]].
    + destruct (results s) as [| r rs]; [reflexivity |].
      cbn [headerQuarters]. apply header_loop_aligned.
      inversion Hal as [| ? ? Hr _]; subst. apply (aligned_quarters r Hr).
    + destruct (results s) as [| r rs]; reflexivity.
Qed.

End Pipeline.

(** A run for one item of the day, up to the point where its record has
    been gathered. *)
Definition acme_gathered : state :=
  {| todo := []; workers := []; sem := 0; wg := 0; capacity := 1;
     resultsCh := []; closer := Closed; received := [Ok acme_sent];
     results := [acme_sent]; finished := false |}.

Lemma acme_gathered_reachable :
  reachable Marshal_outline (fun _ => Some acme_document)
    (fun _ => Ok [sample_trend]) (fun _ => Ok "https://trendlyne.com/f/")
    (fun _ _ => Ok "{}")
    (todaysItems "30 Oct 2026" [sample_item]) acme_gathered.
Proof.
  exists 7%nat.
  eapply steps_next.
  { apply (step_dispatch _ _ _ _ _ sample_item [] (init [sample_item]));
      [reflexivity | cbn; unfold maxConcurrent; lia]. }
  eapply steps_next.
  { apply (step_send _ _ _ _ _ sample_item [] []);
      [reflexivity | cbn; lia | discriminate]. }
  eapply steps_next.
  { apply (step_release _ _ _ _ _ sample_item [] [] 0%nat); reflexivity. }
  eapply steps_next.
  { apply (step_done _ _ _ _ _ sample_item [] [] 0%nat); reflexivity. }
  eapply steps_next.
  { apply step_spawn_closer; reflexivity. }
  eapply steps_next.
  { apply step_close; reflexivity. }
  eapply steps_next.
  { eapply step_receive; [discriminate | reflexivity | reflexivity]. }
  apply steps_refl.
Qed.

Lemma pipeline_to_report_witness :
  exists itm, In itm [sample_item] /\ MeetingDate itm = "30 Oct 2026" /\
              worker Marshal_outline (fun _ => Some acme_document)
                (fun _ => Ok [sample_trend]) (fun _ => Ok "https://trendlyne.com/f/")
                (fun _ _ => Ok "{}") itm = Ok acme_sent /\
              Company acme_sent = ShortName itm /\ LongName acme_sent = LongName_ itm.
Proof.
  destruct (pipeline_to_report _ _ _ _ _ "30 Oct 2026" [sample_item] acme_gathered
              acme_gathered_reachable) as (H & _).
  apply H. left. reflexivity.
Defined.


(** ** types.go: more on [quarterValueToFloat64] and [formatFloat] *)

(** The bytes of a number written with thousands separators. *)
Definition numeric (c : ascii) : bool := is_digit c || mem c "+-.,eE".

Lemma numeric_solid (c : ascii) : numeric c = true -> solid c = true.
Proof.
  destruct c as [[] [] [] [] [] [] [] []]; vm_compute; intros H;
    first [reflexivity | discriminate H].
Qed.

Lemma numeric_not_n (c : ascii) :
  numeric c = true -> Ascii.eqb (to_lower_ascii c) "n" = false.
Proof.
  destruct c as [[] [] [] [] [] [] [] []]; vm_compute; intros H;
    first [reflexivity | discriminate H].
Qed.

Lemma forall_chars_impl (p q : ascii -> bool) (s : string) :
  (forall c, p c = true -> q c = true) ->
  forall_chars p s = true -> forall_chars q s = true.
Proof.
  intros Hpq. induction s as [| c s IH]; [reflexivity |].
  cbn [forall_chars]. intros H. apply andb_prop in H as [Hc Hs].
  now rewrite (Hpq c Hc), IH.
Qed.

Lemma forall_chars_remove (p : ascii -> bool) (c : ascii) (s : string) :
  forall_chars p s = true -> forall_chars p (remove_byte c s) = true.
Proof.
  induction s as [| d s IH]; [reflexivity |].
  cbn [forall_chars remove_byte]. intros H. apply andb_prop in H as [Hd Hs].
  destruct (Ascii.eqb c d); [now apply IH |].
  cbn [forall_chars]. now rewrite Hd, IH.
Qed.

Lemma remove_byte_idempotent (c : ascii) (s : string) :
  remove_byte c (remove_byte c s) = remove_byte c s.
Proof.
  induction s as [| d s IH]; [reflexivity |].
  cbn [remove_byte]. destruct (Ascii.eqb c d) eqn:E; [exact IH |].
  cbn [remove_byte]. now rewrite E, IH.
Qed.

Lemma quarterValueToFloat64_numeric (s : string) :
  forall_chars numeric s = true ->
  quarterValueToFloat64 s =
  if String.eqb s "" then nan
  else match ParseFloat (remove_byte "," s) with
       | Some f => f
       | None => nan
       end.
Proof.
  intros H. unfold quarterValueToFloat64.
  rewrite (TrimSpace_solid s (forall_chars_impl _ _ s numeric_solid H)).
  cbv zeta. destruct s as [| c s]; [reflexivity |].
  cbn [forall_chars] in H. apply andb_prop in H as [Hc _].
  replace (EqualFold (String c s) "not declared") with false; [reflexivity |].
  unfold EqualFold.
  change (map_string to_lower_ascii "not declared") with "not declared".
  cbn [map_string String.eqb].
  now rewrite (numeric_not_n c Hc).
Qed.

(** X17. Thousands separators are ignored: on a text made of digits,
    signs, points, commas and exponent letters, [quarterValueToFloat64]
    reads the same number with and without the commas. *)
Theorem quarterValueToFloat64_commas (s : string) :
  forall_chars numeric s = true ->
  quarterValueToFloat64 s = quarterValueToFloat64 (remove_byte "," s).
Proof.
  intros H.
  rewrite (quarterValueToFloat64_numeric s H).
  rewrite (quarterValueToFloat64_numeric _ (forall_chars_remove numeric "," s H)).
  rewrite remove_byte_idempotent.
  destruct s as [| c s]; [reflexivity |].
  cbn [String.eqb].
  destruct (remove_byte "," (String c s)); reflexivity.
Qed.

Lemma quarterValueToFloat64_commas_witness :
  quarterValueToFloat64 "1,23,456.5" = quarterValueToFloat64 "123456.5".
Proof. apply (quarterValueToFloat64_commas "1,23,456.5"). reflexivity. Defined.

Lemma sf_finite_is_finite (x : float) :
  sf_finite (Prim2SF x) = true -> is_finite x = true.
Proof.
  unfold is_finite, is_nan, is_infinity. rewrite !eqb_spec, abs_spec.
  change (Prim2SF infinity) with (S754_infinity false).
  destruct (Prim2SF x) as [s | s | | s m e]; try discriminate; intros _.
  - now destruct s.
  - unfold SFeqb, SFabs, SFcompare.
    destruct s; rewrite ?Z.compare_refl, ?Pos.compare_cont_refl, ?Pos.compare_refl;
      reflexivity.
Qed.

(** X18. Numbers that are not finite survive the round trip unchanged:
    [formatFloat] writes them as "NaN", "+Inf" or "-Inf", and
    [quarterValueToFloat64] reads these texts back as the same number. *)
Theorem formatFloat_nonfinite (x : float) :
  is_finite x = false ->
  (formatFloat x = "NaN" \/ formatFloat x = "+Inf" \/ formatFloat x = "-Inf") /\
  quarterValueToFloat64 (formatFloat x) = x.
Proof.
  intros H.
  assert (Hx : x = nan \/ x = infinity \/ x = neg_infinity).
  { pose proof (sf_finite_is_finite x) as Hf.
    rewrite <- (SF2Prim_Prim2SF x).
    destruct (Prim2SF x) as [s | s | | s m e].
    - rewrite Hf in H by reflexivity. discriminate H.
    - destruct s; [right; right | right; left]; reflexivity.
    - left. reflexivity.
    - rewrite Hf in H by reflexivity. discriminate H. }
  destruct Hx as [-> | [-> | ->]]; vm_compute; split; auto.
Qed.

Lemma formatFloat_nonfinite_witness :
  quarterValueToFloat64 (formatFloat neg_infinity) = neg_infinity.
Proof.
  destruct (formatFloat_nonfinite neg_infinity) as [_ H]; [reflexivity | exact H].
Defined.


(** ** types.go: [FetchBSEList] after the request *)

Lemma IndexByte_skip (pre s : string) (c : ascii) :
  mem c pre = false ->
  IndexByte (pre ++ s) c =
  if IndexByte s c =? -1 then -1 else Z.of_nat (String.length pre) + IndexByte s c.
Proof.
  induction pre as [| d pre IH]; intros H.
  - cbn [append String.length]. destruct (IndexByte s c =? -1) eqn:E; [| lia].
    now apply Z.eqb_eq in E.
  - cbn [mem] in H. apply orb_false_iff in H as [Hd Hpre].
    cbn [append IndexByte]. rewrite Ascii.eqb_sym, Hd, (IH Hpre).
    pose proof (IndexByte_lower s c) as Hl.
    destruct (IndexByte s c =? -1) eqn:E; [reflexivity |].
    apply Z.eqb_neq in E.
    destruct (Z.eqb_spec (Z.of_nat (String.length pre) + IndexByte s c) (-1)); [lia |].
    cbn [String.length]. lia.
Qed.

Lemma json_start_skip (pre s : string) :
  mem "{" pre = false -> mem "[" pre = false -> json_start s <> -1 ->
  json_start (pre ++ s) = Z.of_nat (String.length pre) + json_start s.
Proof.
  intros H1 H2. unfold json_start.
  rewrite (IndexByte_skip pre s "{" H1), (IndexByte_skip pre s "[" H2).
  pose proof (IndexByte_lower s "{") as Hl1. pose proof (IndexByte_lower s "[") as Hl2.
  intros Hs.
  repeat match goal with
         | H : context [?a =? ?b] |- _ => destruct (Z.eqb_spec a b)
         | |- context [?a =? ?b] => destruct (Z.eqb_spec a b)
         | H : context [?a <? ?b] |- _ => destruct (Z.ltb_spec a b)
         | |- context [?a <? ?b] => destruct (Z.ltb_spec a b)
         end; lia.
Qed.

Lemma extractJSONFromBody_embedded_aux (pre r post : string) :
  extractJSONFromBody r = Ok r ->
  mem "{" pre = false -> mem "[" pre = false ->
  extractJSONFromBody (pre ++ r ++ post) = Ok r.
Proof.
  intros Hr H1 H2.
  destruct (extractJSONFromBody_shape r r Hr)
    as (pre0 & open & mid & post0 & _ & Er & Hopen & _ & _ & Hall).
  clear Hr. subst r.
  assert (Hstart : json_start (pre ++ String open (mid ++ String (closing open) "") ++ post)
                   = Z.of_nat (String.length pre)).
  { change (String open (mid ++ String (closing open) "") ++ post)
      with (String open ((mid ++ String (closing open) "") ++ post)).
    rewrite json_start_skip, (json_start_open _ _ Hopen); try assumption; [lia |].
    rewrite (json_start_open _ _ Hopen). discriminate. }
  unfold extractJSONFromBody. rewrite Hstart.
  destruct (Z.eqb_spec (Z.of_nat (String.length pre)) (-1)) as [E | _]; [lia |].
  rewrite Nat2Z.id.
  replace (String open (mid ++ String (closing open) "") ++ post)
    with (String open (mid ++ String (closing open) post))
    by (cbn [append]; now rewrite app_assoc_string).
  rewrite get_skip, drop_skip, (Hall post). f_equal.
  unfold bytes_slice. rewrite Nat2Z.id.
  replace (Z.to_nat (_ - _))
    with (String.length (String open (mid ++ String (closing open) "")))
    by (cbn [String.length]; rewrite string_length_app; cbn [String.length]; lia).
  rewrite substring_skip.
  replace (String open (mid ++ String (closing open) post))
    with (String open (mid ++ String (closing open) "") ++ post)
    by (cbn [append]; now rewrite app_assoc_string).
  rewrite substring_prefix.
  apply TrimSpace_ends; destruct (is_open_cases _ Hopen) as [-> | ->]; reflexivity.
Qed.

(** X19. [extractJSONFromBody] recovers a text from what surrounds it:
    if [r] is a text that the function returns unchanged, then it is
    returned for every body that holds [r] after a prefix without opening
    brace or bracket, whatever follows [r]; a text that the function
    returns from some body is such an [r]. *)
Theorem extractJSONFromBody_embedded (b pre r post : string) :
  extractJSONFromBody b = Ok r ->
  mem "{" pre = false -> mem "[" pre = false ->
  extractJSONFromBody r = Ok r /\
  extractJSONFromBody (pre ++ r ++ post) = Ok r.
Proof.
  intros Hb H1 H2.
  assert (Hr : extractJSONFromBody r = Ok r)
    by exact (extractJSONFromBody_idempotent b r Hb).
  split; [exact Hr |]. now apply extractJSONFromBody_embedded_aux.
Qed.

Lemma extractJSONFromBody_embedded_witness :
  extractJSONFromBody ("<html><pre>" ++ "[{'a': 1}, {'b': []}]" ++ "</pre> } ]</html>")
  = Ok "[{'a': 1}, {'b': []}]".
Proof.
  destruct (extractJSONFromBody_embedded "[{'a': 1}, {'b': []}] ]" "<html><pre>"
              "[{'a': 1}, {'b': []}]" "</pre> } ]</html>") as [_ H];
    [reflexivity | reflexivity | reflexivity | exact H].
Defined.

(** The outcomes of [FetchBSEList] once the body has been read: the
    items, or one of its three errors with the data that the message
    prints. *)
Inductive bse_outcome :=
| BSE_items (items : list BSEItem)
| BSE_empty
| BSE_html (status : Z) (snippet : string)
| BSE_invalid (snippet : string).

(** [snippet[:512]] when the snippet is longer than 512 bytes. *)
Definition snippet512 (s : string) : string :=
  if (512 <? String.length s)%nat then substring 0 512 s else s.

Section BSEList.

(** [json.Unmarshal(b, &items)]; [None] when it reports an error. *)
Variable decode_items : string -> option (list BSEItem).

(** [ct] is the Content-Type header.  [strings.ToLower] is taken on
    ASCII letters: the text looked for has no letter that a rune outside
    ASCII lower-cases to. *)
Definition FetchBSEList_body (status : Z) (ct b : string) : bse_outcome :=
  let trimmed := TrimSpace b in
  if (String.length trimmed =? 0)%nat then BSE_empty
  else
    let recovered :=
      if HasPrefix trimmed "<" || Contains (map_string to_lower_ascii ct) "text/html" then
        match extractJSONFromBody trimmed with
        | Err _ => None
        | Ok jsonb => Some jsonb
        end
      else Some b in
    match recovered with
    | None => BSE_html status (snippet512 trimmed)
    | Some b' =>
        match decode_items b' with
        | Some items => BSE_items items
        | None => BSE_invalid (snippet512 b')
        end
    end.

Lemma HasPrefix_app (a b p : string) : HasPrefix a p = true -> HasPrefix (a ++ b) p = true.
Proof.
  revert p. induction a as [| c a IH]; intros [| d p]; cbn [HasPrefix append];
    try reflexivity; try discriminate.
  - now destruct b.
  - intros H. apply andb_prop in H as [H1 H2]. now rewrite H1, (IH _ H2).
Qed.

(** X20. [FetchBSEList] accepts a list that is wrapped in an HTML
    page: when the body, white space trimmed, begins with "<" and holds a
    text [r] that [extractJSONFromBody] returns unchanged, after a prefix
    without opening brace or bracket, then the items are those that the
    decoder reads from [r], whatever the page holds after [r]. *)
Theorem FetchBSEList_html_recovery (status : Z) (ct b pre r post : string)
    (items : list BSEItem) :
  TrimSpace b = pre ++ r ++ post ->
  HasPrefix pre "<" = true ->
  mem "{" pre = false -> mem "[" pre = false ->
  extractJSONFromBody r = Ok r ->
  decode_items r = Some items ->
  FetchBSEList_body status ct b = BSE_items items.
Proof.
  intros Hb Hlt H1 H2 Hr Hd. unfold FetchBSEList_body. cbv zeta. rewrite Hb.
  destruct pre as [| c pre]; [discriminate Hlt |].
  cbn [append String.length Nat.eqb].
  change (String c (pre ++ r ++ post)) with (String c pre ++ r ++ post).
  rewrite (HasPrefix_app _ _ _ Hlt). cbn [orb].
  rewrite (extractJSONFromBody_embedded_aux (String c pre) r post Hr H1 H2).
  now rewrite Hd.
Qed.

End BSEList.

Lemma FetchBSEList_html_recovery_witness :
  FetchBSEList_body
    (fun s => if String.eqb s "[{'a': 1}]" then Some [sample_item] else None)
    200 "text/plain" "  <html><pre>[{'a': 1}]</pre></html>  "
  = BSE_items [sample_item].
Proof.
  apply (FetchBSEList_html_recovery _ 200 "text/plain" _ "<html><pre>" "[{'a': 1}]"
           "</pre></html>"); reflexivity.
Defined.


(** ** types.go: [ExtractFundamentalsURLFromPage] after the request

    The three regular expressions are matched on bytes.  Their literals
    are ASCII and their negated classes admit every byte outside ASCII,
    so that the match on bytes is the match on runes.  [FindSubmatch] and
    [Find] return the leftmost match; from a given start each of the three
    expressions matches in one way at most. *)

Definition squote : ascii := "039"%char.

(** [\s]: tab, line feed, form feed, carriage return and space. *)
Definition re_space (c : ascii) : bool :=
  (code c =? 9) || (code c =? 10) || (code c =? 12) || (code c =? 13) || (code c =? 32).

Definition is_quote (c : ascii) : bool := Ascii.eqb c dquote || Ascii.eqb c squote.

(** The class with [\s], the two quotes and the angle brackets excluded. *)
Definition url_byte (c : ascii) : bool :=
  negb (re_space c || is_quote c || Ascii.eqb c "<" || Ascii.eqb c ">").

(** The class with the two quotes excluded. *)
Definition unquoted_byte (c : ascii) : bool := negb (is_quote c).

(** The longest prefix of bytes that satisfy [p], and what follows it. *)
Fixpoint span (p : ascii -> bool) (s : string) : string * string :=
  match s with
  | EmptyString => (EmptyString, EmptyString)
  | String c s' =>
      if p c then let '(a, b) := span p s' in (String c a, b)
      else (EmptyString, s)
  end.

(** A literal at the head of [s]: what follows it. *)
Definition literal (lit s : string) : option string :=
  if HasPrefix s lit then Some (drop (String.length lit) s) else None.

(** [https?://] at the head of [s]: the text matched and what follows. *)
Definition scheme (s : string) : option (string * string) :=
  match literal "https://" s with
  | Some rest => Some ("https://", rest)
  | None =>
      match literal "http://" s with
      | Some rest => Some ("http://", rest)
      | None => None
      end
  end.

(** The first expression at the head of [s]: the text of its group. *)
Definition tablesurl_plain (s : string) : option string :=
  match literal "data-tablesurl=" s with
  | None => None
  | Some s1 =>
      match scheme s1 with
      | None => None
      | Some (sch, s2) =>
          let '(run, _) := span url_byte s2 in
          if String.eqb run "" then None else Some (sch ++ run)
      end
  end.

(** The second expression at the head of [s]: the text of its group. *)
Definition tablesurl_quoted (s : string) : option string :=
  match literal "data-tablesurl" s with
  | None => None
  | Some s1 =>
      let '(_, s2) := span re_space s1 in
      match literal "=" s2 with
      | None => None
      | Some s3 =>
          let '(_, s4) := span re_space s3 in
          match s4 with
          | EmptyString => None
          | String q s5 =>
              if is_quote q then
                match scheme s5 with
                | None => None
                | Some (sch, s6) =>
                    let '(run, s7) := span unquoted_byte s6 in
                    if String.eqb run "" then None
                    else
                      match s7 with
                      | EmptyString => None
                      | String q' _ => if is_quote q' then Some (sch ++ run) else None
                      end
                end
              else None
          end
      end
  end.

(** The third expression at the head of [s]: the text matched. *)
Definition fundamentals_url (s : string) : option string :=
  match scheme s with
  | None => None
  | Some (sch, s1) =>
      let '(run, _) := span url_byte s1 in
      if Contains run "get-fundamental_results" then Some (sch ++ run) else None
  end.

(** The leftmost match: the first start from which the expression
    matches. *)
Fixpoint leftmost (f : string -> option string) (s : string) : option string :=
  match f s with
  | Some m => Some m
  | None =>
      match s with
      | EmptyString => None
      | String _ s' => leftmost f s'
      end
  end.

Definition HasSuffix (s suffix : string) : bool := HasPrefix (rev s) (rev suffix).

Definition ExtractFundamentalsURL_body (body : string) : result string :=
  match leftmost tablesurl_plain body with
  | Some url => Ok url
  | None =>
      match leftmost tablesurl_quoted body with
      | Some url => Ok url
      | None =>
          match leftmost fundamentals_url body with
          | Some m3 =>
              let u := TrimSpace m3 in
              Ok (if HasSuffix u "/" then u else u ++ "/")
          | None => Err "data-tablesurl not found"
          end
      end
  end.

Definition page_plain : string :=
  "<div id=x data-tablesurl=https://trendlyne.com/fundamentals/get-fundamental_results/7/ class=y>".

Definition page_quoted : string :=
  "<div data-tablesurl = 'http://trendlyne.com/f/7/?a=b c' data-x='1'>".

Definition page_fallback : string :=
  "<a href='/x'>x</a> <script>var u = 'https://trendlyne.com/get-fundamental_results/7';</script>".

Example ExtractFundamentalsURL_pages :
  ExtractFundamentalsURL_body page_plain
  = Ok "https://trendlyne.com/fundamentals/get-fundamental_results/7/" /\
  ExtractFundamentalsURL_body page_quoted = Ok "http://trendlyne.com/f/7/?a=b c" /\
  ExtractFundamentalsURL_body page_fallback
  = Ok "https://trendlyne.com/get-fundamental_results/7/" /\
  ExtractFundamentalsURL_body "<html>data-tablesurl=ftp://x</html>"
  = Err "data-tablesurl not found".
Proof. repeat split. Qed.

(** *** Properties of the extraction of the address *)

Lemma leftmost_some (f : string -> option string) (s m : string) :
  leftmost f s = Some m -> exists pre t, s = pre ++ t /\ f t = Some m.
Proof.
  induction s as [| c s IH]; cbn [leftmost].
  - destruct (f "") eqn:E; [| discriminate].
    intros H. injection H as <-. now exists "", "".
  - destruct (f (String c s)) eqn:E.
    + intros H. injection H as <-. now exists "", (String c s).
    + intros H. destruct (IH H) as (pre & t & -> & Ht).
      now exists (String c pre), t.
Qed.

Lemma leftmost_none (f : string -> option string) (s : string) :
  (forall pre t, s = pre ++ t -> f t = None) -> leftmost f s = None.
Proof.
  induction s as [| c s IH]; intros H; cbn [leftmost].
  - now rewrite (H "" "" eq_refl).
  - rewrite (H "" (String c s) eq_refl). apply IH.
    intros pre t ->. now apply (H (String c pre) t).
Qed.

Lemma HasPrefix_split (s p : string) :
  HasPrefix s p = true -> s = p ++ drop (String.length p) s.
Proof.
  revert s. induction p as [| d p IH]; intros s; [reflexivity |].
  destruct s as [| c s]; cbn [HasPrefix]; [discriminate |].
  intros H. apply andb_prop in H as [H1 H2]. apply Ascii.eqb_eq in H1. subst d.
  cbn [String.length drop append]. now rewrite <- (IH s H2).
Qed.

Lemma HasPrefix_self (p s : string) : HasPrefix (p ++ s) p = true.
Proof.
  induction p as [| c p IH]; cbn [append HasPrefix].
  - now destruct s.
  - now rewrite Ascii.eqb_refl.
Qed.

Lemma literal_some (lit s rest : string) :
  literal lit s = Some rest -> s = lit ++ rest.
Proof.
  unfold literal. destruct (HasPrefix s lit) eqn:E; [| discriminate].
  intros H. injection H as <-. now apply HasPrefix_split.
Qed.

Lemma scheme_some (s sch rest : string) :
  scheme s = Some (sch, rest) ->
  (sch = "https://" \/ sch = "http://") /\ s = sch ++ rest.
Proof.
  unfold scheme.
  destruct (literal "https://" s) as [r1 |] eqn:E1.
  - intros H. injection H as <- <-. split; [now left | now apply literal_some].
  - destruct (literal "http://" s) as [r2 |] eqn:E2; [| discriminate].
    intros H. injection H as <- <-. split; [now right | now apply literal_some].
Qed.

Lemma span_spec (p : ascii -> bool) (s a b : string) :
  span p s = (a, b) -> s = a ++ b /\ forall_chars p a = true.
Proof.
  revert a b. induction s as [| c s IH]; intros a b; cbn [span].
  - intros H. injection H as <- <-. now split.
  - destruct (p c) eqn:E.
    + destruct (span p s) as [a' b'] eqn:Es. intros H. injection H as <- <-.
      destruct (IH a' b' eq_refl) as [-> Ha]. split; [reflexivity |].
      cbn [forall_chars]. now rewrite E, Ha.
    + intros H. injection H as <- <-. now split.
Qed.

(** The text of a match of the first two expressions. *)
Lemma tablesurl_plain_some (t m : string) :
  tablesurl_plain t = Some m ->
  HasPrefix t "data-tablesurl" = true /\
  exists sch run, m = sch ++ run /\ (sch = "https://" \/ sch = "http://").
Proof.
  unfold tablesurl_plain.
  destruct (literal "data-tablesurl=" t) as [s1 |] eqn:E1; [| discriminate].
  apply literal_some in E1.
  destruct (scheme s1) as [[sch s2] |] eqn:E2; [| discriminate].
  apply scheme_some in E2 as [Hsch _].
  destruct (span url_byte s2) as [run rest].
  destruct (String.eqb run ""); [discriminate |].
  intros H. injection H as <-. split; [| now exists sch, run].
  rewrite E1. apply (HasPrefix_self "data-tablesurl" ("=" ++ s1)).
Qed.

Lemma tablesurl_quoted_some (t m : string) :
  tablesurl_quoted t = Some m ->
  HasPrefix t "data-tablesurl" = true /\
  exists sch run, m = sch ++ run /\ (sch = "https://" \/ sch = "http://").
Proof.
  unfold tablesurl_quoted.
  destruct (literal "data-tablesurl" t) as [s1 |] eqn:E1; [| discriminate].
  apply literal_some in E1.
  destruct (span re_space s1) as [ws1 s2].
  destruct (literal "=" s2) as [s3 |]; [| discriminate].
  destruct (span re_space s3) as [ws2 s4].
  destruct s4 as [| q s5]; [discriminate |].
  destruct (is_quote q); [| discriminate].
  destruct (scheme s5) as [[sch s6] |] eqn:E2; [| discriminate].
  apply scheme_some in E2 as [Hsch _].
  destruct (span unquoted_byte s6) as [run s7].
  destruct (String.eqb run ""); [discriminate |].
  destruct s7 as [| q' s8]; [discriminate |].
  destruct (is_quote q'); [| discriminate].
  intros H. injection H as <-. split; [rewrite E1; apply HasPrefix_self | now exists sch, run].
Qed.

Lemma fundamentals_url_some (t m : string) :
  fundamentals_url t = Some m ->
  exists sch run rest,
    t = sch ++ run ++ rest /\ m = sch ++ run /\
    (sch = "https://" \/ sch = "http://") /\
    Contains run "get-fundamental_results" = true.
Proof.
  unfold fundamentals_url.
  destruct (scheme t) as [[sch s1] |] eqn:E; [| discriminate].
  apply scheme_some in E as [Hsch ->].
  destruct (span url_byte s1) as [run rest] eqn:Es.
  apply span_spec in Es as [-> _].
  destruct (Contains run "get-fundamental_results") eqn:Ec; [| discriminate].
  intros H. injection H as <-. now exists sch, run, rest.
Qed.

Definition hollow (c : ascii) : bool := negb (solid c).

(** The rune that [TrimSpace] takes off the end has no solid byte. *)
Lemma space_suffix_split (r : string) :
  exists q r', r = q ++ r' /\ drop (space_suffix r) r = r' /\
               forall_chars hollow q = true.
Proof.
  assert (Hhigh : forall c, 128 <= code c -> hollow c = true).
  { intros c Hc. unfold hollow, solid.
    destruct (Z.ltb_spec (code c) 128); [lia | reflexivity]. }
  unfold space_suffix.
  destruct r as [| c r1]; [now exists "", "" |].
  destruct (ascii_space c) eqn:Ec.
  { exists (String c ""), r1. repeat split.
    cbn [forall_chars]. unfold hollow, solid. rewrite Ec.
    now rewrite andb_false_r. }
  destruct r1 as [| b r2]; [now exists "", (String c "") |].
  destruct (space2 b c) eqn:E2.
  { exists (String c (String b "")), r2. repeat split.
    unfold space2 in E2. apply andb_prop in E2 as [Hb Hc].
    apply Z.eqb_eq in Hb. apply orb_prop in Hc.
    cbn [forall_chars]. rewrite !Hhigh; [reflexivity | lia |].
    destruct Hc as [Hc | Hc]; apply Z.eqb_eq in Hc; lia. }
  destruct r2 as [| a r3]; [now exists "", (String c (String b "")) |].
  destruct (space3 a b c) eqn:E3; [| now exists "", (String c (String b (String a r3)))].
  exists (String c (String b (String a ""))), r3. repeat split.
  unfold space3, in_range in E3.
  assert (Ha : 128 <= code a /\ 128 <= code b /\ 128 <= code c).
  { repeat match type of E3 with
           | (_ || _) = true => apply orb_prop in E3 as [E3 | E3]
           end;
      repeat match goal with
             | H : (_ && _) = true |- _ => apply andb_prop in H as [? ?]
             | H : (_ || _) = true |- _ => apply orb_prop in H as [? | ?]
             | H : (_ =? _) = true |- _ => apply Z.eqb_eq in H
             | H : (_ <=? _) = true |- _ => apply Z.leb_le in H
             end; lia. }
  cbn [forall_chars]. rewrite !Hhigh; [reflexivity | lia | lia | lia].
Qed.

Lemma trim_suffix_split (fuel : nat) (r : string) :
  exists q r', r = q ++ r' /\ trim_with space_suffix fuel r = r' /\
               forall_chars hollow q = true.
Proof.
  revert r. induction fuel as [| fuel IH]; intros r; [now exists "", r |].
  cbn [trim_with].
  destruct (space_suffix r) as [| w] eqn:Ew; [now exists "", r |].
  destruct (space_suffix_split r) as (q1 & r1 & Hr & Hdrop & Hq1).
  rewrite Ew in Hdrop. rewrite Hdrop.
  destruct (IH r1) as (q2 & r2 & Hr1 & Htrim & Hq2).
  exists (q1 ++ q2), r2. split; [| split].
  - rewrite Hr, Hr1. now rewrite app_assoc_string.
  - exact Htrim.
  - rewrite forall_chars_app. now rewrite Hq1, Hq2.
Qed.

Lemma rev_acc_append (s acc : string) : rev_acc s acc = rev s ++ acc.
Proof.
  unfold rev. revert acc. induction s as [| c s IH]; intros acc; [reflexivity |].
  cbn [rev_acc]. rewrite (IH (String c acc)), (IH (String c "")).
  now rewrite app_assoc_string.
Qed.

Lemma rev_app (x y : string) : rev (x ++ y) = rev y ++ rev x.
Proof. unfold rev at 1. rewrite rev_acc_app. apply rev_acc_append. Qed.

Lemma forall_chars_rev (p : ascii -> bool) (s : string) :
  forall_chars p (rev s) = forall_chars p s.
Proof.
  induction s as [| c s IH]; [reflexivity |].
  change (String c s) with (String c "" ++ s) at 1.
  rewrite rev_app, forall_chars_app, IH. cbn [rev rev_acc forall_chars].
  rewrite andb_true_r. apply andb_comm.
Qed.

(** A run of solid bytes at the head of a text is not reached by a
    hollow tail. *)
Lemma solid_prefix_kept (a t x y : string) :
  a ++ t = x ++ y -> forall_chars solid a = true -> forall_chars hollow y = true ->
  exists t', x = a ++ t'.
Proof.
  revert x. induction a as [| c a IH]; intros x H Ha Hy; [now exists x |].
  cbn [forall_chars] in Ha. apply andb_prop in Ha as [Hc Ha].
  destruct x as [| d x].
  - cbn [append] in H. subst y. cbn [forall_chars] in Hy.
    unfold hollow in Hy. rewrite Hc in Hy. discriminate Hy.
  - cbn [append] in H. injection H as <- H.
    destruct (IH x H Ha Hy) as (t' & ->). now exists t'.
Qed.

(** [TrimSpace] keeps a non-empty run of solid bytes at the head of a
    text. *)
Lemma TrimSpace_solid_prefix (a t : string) :
  forall_chars solid a = true -> a <> "" ->
  exists t', TrimSpace (a ++ t) = a ++ t'.
Proof.
  intros Ha Hne. destruct a as [| c a]; [contradiction |].
  pose proof Ha as Hc. cbn [forall_chars] in Hc. apply andb_prop in Hc as [Hc _].
  unfold TrimSpace. cbn [append].
  rewrite (trim_with_zero space_prefix _ _ (space_prefix_solid c _ Hc)). cbv zeta.
  destruct (trim_suffix_split (String.length (String c (a ++ t)))
              (rev (String c (a ++ t)))) as (q & r' & Hr & -> & Hq).
  apply (f_equal rev) in Hr. rewrite rev_involutive, rev_app in Hr.
  apply (solid_prefix_kept (String c a) t (rev r') (rev q)).
  - exact Hr.
  - exact Ha.
  - now rewrite forall_chars_rev.
Qed.

Lemma HasPrefix_nil (s : string) : HasPrefix s "" = true.
Proof. now destruct s. Qed.

Lemma scheme_solid (sch : string) :
  sch = "https://" \/ sch = "http://" -> forall_chars solid sch = true /\ sch <> "".
Proof. intros [-> | ->]; split; first [reflexivity | discriminate]. Qed.

(** X21. An address that [ExtractFundamentalsURLFromPage] finds in a
    page begins with "https://" or "http://", whichever of the three
    expressions found it; and when neither form of the [data-tablesurl]
    attribute matches, the address found by the fallback ends with a
    slash. *)
Theorem ExtractFundamentalsURL_shape (body u : string) :
  ExtractFundamentalsURL_body body = Ok u ->
  (HasPrefix u "https://" = true \/ HasPrefix u "http://" = true) /\
  (leftmost tablesurl_plain body = None ->
   leftmost tablesurl_quoted body = None ->
   HasSuffix u "/" = true).
Proof.
  assert (Hpre : forall sch t, sch = "https://" \/ sch = "http://" ->
             HasPrefix (sch ++ t) "https://" = true \/
             HasPrefix (sch ++ t) "http://" = true).
  { intros sch t [-> | ->]; [left | right]; apply HasPrefix_self. }
  unfold ExtractFundamentalsURL_body.
  destruct (leftmost tablesurl_plain body) as [m1 |] eqn:E1.
  { intros H. injection H as <-.
    destruct (leftmost_some _ _ _ E1) as (pre & t & _ & Ht).
    destruct (tablesurl_plain_some _ _ Ht) as (_ & sch & run & -> & Hsch).
    split; [now apply Hpre | discriminate]. }
  destruct (leftmost tablesurl_quoted body) as [m2 |] eqn:E2.
  { intros H. injection H as <-.
    destruct (leftmost_some _ _ _ E2) as (pre & t & _ & Ht).
    destruct (tablesurl_quoted_some _ _ Ht) as (_ & sch & run & -> & Hsch).
    split; [now apply Hpre | discriminate]. }
  destruct (leftmost fundamentals_url body) as [m3 |] eqn:E3; [| discriminate].
  intros H. injection H as <-.
  destruct (leftmost_some _ _ _ E3) as (pre & t & _ & Ht).
  destruct (fundamentals_url_some _ _ Ht) as (sch & run & rest & _ & -> & Hsch & _).
  destruct (scheme_solid sch Hsch) as [Hsolid Hne].
  destruct (TrimSpace_solid_prefix sch run Hsolid Hne) as (t' & ->).
  cbv zeta. split.
  - destruct (HasSuffix (sch ++ t') "/"); [now apply Hpre |].
    rewrite app_assoc_string. now apply Hpre.
  - intros _ _. destruct (HasSuffix (sch ++ t') "/") eqn:Es; [exact Es |].
    unfold HasSuffix. rewrite rev_app. cbn [rev rev_acc append HasPrefix].
    rewrite Ascii.eqb_refl. apply HasPrefix_nil.
Qed.

Lemma ExtractFundamentalsURL_shape_witness :
  HasPrefix "https://trendlyne.com/get-fundamental_results/7/" "https://" = true \/
  HasPrefix "https://trendlyne.com/get-fundamental_results/7/" "http://" = true.
Proof.
  destruct (ExtractFundamentalsURL_shape page_fallback
              "https://trendlyne.com/get-fundamental_results/7/") as [H _];
    [reflexivity | exact H].
Defined.

Lemma Contains_prefix (s sub : string) : HasPrefix s sub = true -> Contains s sub = true.
Proof. intros H. destruct s; cbn [Contains]; now rewrite H. Qed.

Lemma Contains_app_r (pre t sub : string) :
  Contains t sub = true -> Contains (pre ++ t) sub = true.
Proof.
  intros H. induction pre as [| c pre IH]; [exact H |].
  cbn [append Contains]. rewrite IH. apply orb_true_r.
Qed.

Lemma Contains_app_l (a b sub : string) :
  Contains a sub = true -> Contains (a ++ b) sub = true.
Proof.
  induction a as [| c a IH]; cbn [Contains append].
  - rewrite orb_false_r. destruct sub; [intros _; apply Contains_empty | discriminate].
  - intros H. apply orb_prop in H as [H | H].
    + change (String c (a ++ b)) with (String c a ++ b).
      now rewrite (HasPrefix_app _ b _ H).
    + rewrite (IH H). apply orb_true_r.
Qed.

(** X22. A page in which neither the text "data-tablesurl" nor the text
    "get-fundamental_results" occurs yields the error "data-tablesurl not
    found". *)
Theorem ExtractFundamentalsURL_not_found (body : string) :
  Contains body "data-tablesurl" = false ->
  Contains body "get-fundamental_results" = false ->
  ExtractFundamentalsURL_body body = Err "data-tablesurl not found".
Proof.
  intros H1 H2. unfold ExtractFundamentalsURL_body.
  assert (Hattr : forall f,
             (forall t m, f t = Some m -> HasPrefix t "data-tablesurl" = true) ->
             leftmost f body = None).
  { intros f Hf. apply leftmost_none. intros pre t ->.
    destruct (f t) as [m |] eqn:E; [| reflexivity].
    apply Hf, Contains_prefix, (Contains_app_r pre) in E. congruence. }
  rewrite (Hattr tablesurl_plain) by (intros t m H; now apply tablesurl_plain_some in H).
  rewrite (Hattr tablesurl_quoted) by (intros t m H; now apply tablesurl_quoted_some in H).
  replace (leftmost fundamentals_url body) with (@None string); [reflexivity |].
  symmetry. apply leftmost_none. intros pre t ->.
  destruct (fundamentals_url t) as [m |] eqn:E; [| reflexivity].
  destruct (fundamentals_url_some _ _ E) as (sch & run & rest & -> & _ & _ & Hc).
  apply (Contains_app_l run rest), (Contains_app_r sch), (Contains_app_r pre) in Hc.
  congruence.
Qed.

Lemma ExtractFundamentalsURL_not_found_witness :
  ExtractFundamentalsURL_body "<html><body>Page not found</body></html>"
  = Err "data-tablesurl not found".
Proof. apply ExtractFundamentalsURL_not_found; reflexivity. Defined.


(** ** main.go and types.go: a request that cannot be built

    [FetchTrendSearch], [ExtractFundamentalsURLFromPage] and
    [FetchFundamentalsJSON] begin with [req, _ := http.NewRequest("GET",
    url, nil)] and [req.Header.Set(...)].  When [url.Parse] refuses the
    address, [http.NewRequest] returns a nil request with an error; the
    error is dropped and the call of [Header.Set] dereferences the nil
    request.  That is a run-time panic in the goroutine of the worker;
    nothing recovers it, so it ends the process.  In this part the
    parameters [FetchTrendSearch], [ExtractFundamentalsURLFromPage] and
    [http_get] stand for the three functions from [client.Do] on. *)

Definition is_ctl (c : ascii) : bool := (code c <? 32) || (code c =? 127).

(** [stringContainsCTLByte] of [net/url]: the first test of
    [url.Parse]. *)
Definition has_ctl (s : string) : bool :=
  negb (forall_chars (fun c => negb (is_ctl c)) s).

(** What a worker goroutine does: it sends a value on [resultsCh], or it
    panics. *)
Inductive outcome :=
| Returned (r : result CompanyResult)
| Panicked.

Section Requests.

Variable Marshal : JSON -> string.
Variable json_decode : string -> option JSON.
Variable FetchTrendSearch : string -> result (list TrendItem).
Variable ExtractFundamentalsURLFromPage : string -> result string.
Variable http_get : string -> string -> result string.

(** The tests of [url.Parse] other than the one on control bytes. *)
Variable url_accepts : string -> bool.

(** [http.NewRequest("GET", u, nil)] returns a request. *)
Definition NewRequest_ok (u : string) : bool := negb (has_ctl u) && url_accepts u.

(** The address that [FetchTrendSearch] builds with [fmt.Sprintf]. *)
Definition search_url (term : string) : string :=
  "https://trendlyne.com/member/api/ac_snames/all/?term=" ++ term ++ "&all-results=true".

(** The body of the goroutine started for [itm], with the three requests
    that it builds. *)
Definition worker_run (itm : BSEItem) : outcome :=
  if negb (NewRequest_ok (search_url (ShortName itm))) then Panicked
  else
    match FetchTrendSearch (ShortName itm) with
    | Err e => Returned (Err e)
    | Ok [] => Returned (Err ("no trendlyne results for " ++ ShortName itm))
    | Ok (tr :: _) =>
        let pageURL :=
          if String.eqb (NextURL tr) "" then
            "https://trendlyne.com/equity/" ++ Itoa (K tr) ++ "/" ++ ID tr ++ "/" ++
            SlugName tr ++ "/"
          else NextURL tr in
        if negb (NewRequest_ok pageURL) then Panicked
        else
          match ExtractFundamentalsURLFromPage pageURL with
          | Err e => Returned (Err e)
          | Ok fundURL =>
              if negb (NewRequest_ok fundURL) then Panicked
              else
                match FetchFundamentalsJSON http_get fundURL pageURL with
                | Err e => Returned (Err e)
                | Ok fundJSON =>
                    let cr := ParseCompanyFundamentals Marshal json_decode
                                (ShortName itm) fundJSON in
                    Returned
                      (Ok {| Company := Company cr; LongName := LongName_ itm;
                             Quarters := Quarters cr; Revenue := Revenue cr;
                             NetProfit := NetProfit cr;
                             RevenueNums := RevenueNums cr;
                             NetProfitNums := NetProfitNums cr |})
                end
          end
    end.

Abbreviation worker' :=
  (worker Marshal json_decode FetchTrendSearch ExtractFundamentalsURLFromPage http_get).
Abbreviation step' :=
  (step Marshal json_decode FetchTrendSearch ExtractFundamentalsURLFromPage http_get).
Abbreviation reachable' :=
  (reachable Marshal json_decode FetchTrendSearch ExtractFundamentalsURLFromPage http_get).
Abbreviation failed' :=
  (failed Marshal json_decode FetchTrendSearch ExtractFundamentalsURLFromPage http_get).

(** A goroutine that does not panic sends what [worker] says. *)
Lemma worker_run_returned (itm : BSEItem) :
  worker_run itm = Panicked \/ worker_run itm = Returned (worker' itm).
Proof.
  unfold worker_run, worker.
  destruct (negb (NewRequest_ok (search_url (ShortName itm)))); [now left |].
  destruct (FetchTrendSearch (ShortName itm)) as [[| tr trs] | e]; try (now right).
  cbv zeta.
  destruct (negb (NewRequest_ok _)); [now left |].
  destruct (ExtractFundamentalsURLFromPage _) as [fundURL | e]; [| now right].
  destruct (negb (NewRequest_ok fundURL)); [now left |].
  destruct (FetchFundamentalsJSON http_get fundURL _); now right.
Qed.

(** The step from [s] to [s'] is the send of the goroutine of [itm]. *)
Definition sends (s s' : state) (itm : BSEItem) : Prop :=
  exists ws1 ws2,
    workers s = (ws1 ++ (itm, Working) :: ws2)%list /\
    workers s' = (ws1 ++ (itm, Sent) :: ws2)%list.

(** The process with panics.  A configuration is a state of the batch,
    or [None] once a panic has ended the process.  A goroutine that is
    going to panic never sends; its panic can happen at any time after
    its start. *)
Inductive pstep : state -> option state -> Prop :=
| pstep_run s s' :
    step' s s' ->
    (forall itm, sends s s' itm -> worker_run itm <> Panicked) ->
    pstep s (Some s')
| pstep_panic s itm ws1 ws2 :
    workers s = (ws1 ++ (itm, Working) :: ws2)%list ->
    worker_run itm = Panicked ->
    pstep s None.

Inductive preachable (items : list BSEItem) : option state -> Prop :=
| preachable_init : preachable items (Some (init items))
| preachable_step s c :
    preachable items (Some s) -> pstep s c -> preachable items c.

(** Without its panics the process is the protocol of [step]. *)
Lemma preachable_reachable (items : list BSEItem) (s : state) :
  preachable items (Some s) -> reachable' items s.
Proof.
  intros H. remember (Some s) as c eqn:Ec. revert s Ec.
  induction H as [| s0 c Hreach IH Hstep]; intros s Ec.
  - injection Ec as <-. exists 0%nat. apply steps_refl.
  - subst c. inversion Hstep as [s1 s2 Hs _ |]; subst.
    destruct (IH s0 eq_refl) as [n Hn].
    exists (n + 1)%nat. eapply steps_trans; [exact Hn |].
    eapply steps_next; [exact Hs | apply steps_refl].
Qed.

(** The goroutines and the items still to start are items of the
    batch. *)
Definition from_items (items : list BSEItem) (s : state) : Prop :=
  forall itm, In itm (todo s) \/ In itm (map fst (workers s)) -> In itm items.

Lemma from_items_step (items : list BSEItem) (s s' : state) :
  from_items items s -> step' s s' -> from_items items s'.
Proof.
  intros H Hstep itm.
  inversion Hstep as
    [ itm0 rest s0 Htodo Hlt | itm0 ws1 ws2 s0 Hws Hroom Hopen
    | itm0 ws1 ws2 n s0 Hws Hsem | itm0 ws1 ws2 n s0 Hws Hw
    | s0 Htodo Hc | s0 Hc Hw | r rest s0 Hc Hf Hch | s0 Hc Hf Hch ];
    subst; cbn [todo workers]; intros Hin; apply H;
    try rewrite Htodo in Hin; try rewrite Htodo; try rewrite Hws;
    rewrite ?map_app in Hin; rewrite ?map_app; cbn [map fst] in Hin |- *;
    rewrite ?in_app_iff in Hin; rewrite ?in_app_iff; cbn [In] in Hin |- *;
    tauto.
Qed.

Lemma from_items_preachable (items : list BSEItem) (s : state) :
  preachable items (Some s) -> from_items items s.
Proof.
  intros H. remember (Some s) as c eqn:Ec. revert s Ec.
  induction H as [| s0 c Hreach IH Hstep]; intros s Ec.
  - injection Ec as <-. intros itm [Hin | []]. exact Hin.
  - subst c. inversion Hstep as [s1 s2 Hs _ |]; subst.
    apply (from_items_step items s0 s (IH s0 eq_refl) Hs).
Qed.

Lemma sends_worker (s s' : state) (itm : BSEItem) :
  sends s s' itm -> In itm (map fst (workers s)).
Proof.
  intros (ws1 & ws2 & Hws & _). rewrite Hws, map_app. apply in_app_iff.
  right. now left.
Qed.


Lemma steps_preachable (items : list BSEItem) (n : nat) (s0 s : state) :
  (forall itm, In itm items -> worker_run itm <> Panicked) ->
  steps Marshal json_decode FetchTrendSearch ExtractFundamentalsURLFromPage http_get
    n s0 s ->
  preachable items (Some s0) -> preachable items (Some s).
Proof.
  intros Hsafe Hsteps. induction Hsteps as [| n s1 s2 s3 H12 _ IH]; intros H1;
    [exact H1 |].
  apply IH. apply (preachable_step items s1 (Some s2) H1).
  apply pstep_run; [exact H12 |].
  intros itm Hsend. apply Hsafe.
  apply (from_items_preachable items s1 H1). right. now apply (sends_worker s1 s2).
Qed.




(** X23. When no item of the batch makes its goroutine panic, that is,
    when [http.NewRequest] accepts every address that the workers build,
    the process with panics is the protocol: it never ends by a panic, it
    reaches the states of the protocol and no others, some run ends, and
    at the end the output holds exactly N - K records, those of the
    entities that did not fail. *)
Theorem batch_completes_without_panic (items : list BSEItem) :
  (forall itm, In itm items -> worker_run itm <> Panicked) ->
  ~ preachable items None /\
  (forall s, preachable items (Some s) <-> reachable' items s) /\
  (exists s, preachable items (Some s) /\ finished s = true) /\
  (forall s, preachable items (Some s) -> finished s = true ->
     List.length (results s)
     = (List.length items - List.length (filter failed' items))%nat /\
     Permutation (results s) (successes (map worker' items))).
Proof.
  intros Hsafe.
  assert (Hiff : forall s, preachable items (Some s) <-> reachable' items s).
  { intros s. split; [apply preachable_reachable |].
    intros [n Hn]. apply (steps_preachable items n (init items) s Hsafe Hn).
    apply preachable_init. }
  pose proof (batch_completes Marshal json_decode FetchTrendSearch
                ExtractFundamentalsURLFromPage http_get items) as Hb.
  cbv zeta in Hb. destruct Hb as (_ & _ & _ & (sf & Hsf & Hfin) & Hend & _).
  split; [| split; [exact Hiff | split]].
  - intros Hnone. inversion Hnone as [| s c Hreach Hstep]; subst.
    inversion Hstep as [| s1 itm ws1 ws2 Hws Hbad]; subst.
    apply (Hsafe itm); [| exact Hbad].
    apply (from_items_preachable items s Hreach). right.
    rewrite Hws, map_app. apply in_app_iff. right. now left.
  - exists sf. split; [now apply Hiff | exact Hfin].
  - intros s Hs Hf. apply Hiff in Hs. destruct (Hend s Hs Hf) as (H1 & H2 & _).
    now split.
Qed.

End Requests.

(** *** A batch with an address that [url.Parse] refuses

    The search answers for the second item with a [nexturl] that ends
    with a line feed.  [url_accepts] is taken to accept everything, so
    that the control byte alone decides. *)


Definition hostile_trend : TrendItem :=
  {| ID := "BAD"; Label := "Bad Ltd"; Value := "Bad Ltd"; K := 8;
     SlugName := "bad-ltd"; Country := "in"; DefaultExchange := "BSE";
     BSEcode := "500001";
     NextURL := "https://trendlyne.com/equity/8/BAD/bad-ltd/" ++ String "010" "" |}.

Definition hostile_search (term : string) : result (list TrendItem) :=
  if String.eqb term "BAD" then Ok [hostile_trend] else Ok [sample_trend].



Lemma batch_completes_without_panic_witness :
  exists s,
    preachable Marshal_outline (fun _ => Some acme_document) hostile_search
      (fun _ => Ok "https://trendlyne.com/f/") (fun _ _ => Ok "{}") (fun _ => true)
      [sample_item] (Some s) /\
    finished s = true.
Proof.
  destruct (batch_completes_without_panic Marshal_outline (fun _ => Some acme_document)
              hostile_search (fun _ => Ok "https://trendlyne.com/f/")
              (fun _ _ => Ok "{}") (fun _ => true) [sample_item]) as (_ & _ & H & _).
  - intros itm [<- | []]. vm_compute. discriminate.
  - exact H.
Defined.
